(** * Microsoft Graph RTA transcript poller: a shallow embedding

    The repository holds three revisions of one polling script.  The
    revision with the tolerant body decoder ([safeJson]) is embedded in
    [Module Poller]; the revision that reads bodies with [res.json()] and
    wraps each detail fetch in its own [try]/[catch] is embedded in
    [Module IndexJs].  Everything both revisions share textually (token
    acquisition, URL builders, the retry policy, the check of the token's
    age, the handler of the outer [catch]) is defined once, before the two
    modules.  The third revision goes through a client library and has
    neither the retry loop nor the token handling; it is not embedded.

    Effects are explicit: a computation is a function from the state to an
    outcome and a state, the state holds the three mutable variables of
    [run] and the trace of effects, and the outside world (network,
    identity provider, clock) is a triple of oracles.  The two unbounded
    loops carry a step budget; the retry loop is shown to end within it.

    Layout: the JavaScript values, the effects, the two revisions, a
    reference JSON parser for scenarios, the observations and scenarios the
    statements use; then the lemmas and theorems. *)

From Stdlib Require Import List ZArith NArith Bool Lia String Ascii DecimalString.
Import ListNotations.
Open Scope Z_scope.
Set Warnings "-register-all".

(* ===================================================================== *)
(** * JavaScript strings and values *)
(* ===================================================================== *)

Module Js.

(** A JavaScript string is a sequence of UTF-16 code units. *)
Definition jsstring := list N.

(** String literals of the source that are plain ASCII. *)
Definition js (s : string) : jsstring :=
  List.map N_of_ascii (list_ascii_of_string s).

(** The two non-ASCII literals of the source. *)
Definition ellipsis : jsstring := [8230%N].   (* '…' U+2026 *)
Definition bullet : jsstring := [8226%N].     (* '•' U+2022 *)

Fixpoint str_eqb (a b : jsstring) : bool :=
  match a, b with
  | [], [] => true
  | x :: a', y :: b' => N.eqb x y && str_eqb a' b'
  | _, _ => false
  end.

(** [s.length] *)
Definition str_length (s : jsstring) : Z := Z.of_nat (List.length s).

(** [s.slice(0, n)] for a non-negative literal [n]. *)
Definition slice0 (n : nat) (s : jsstring) : jsstring := firstn n s.

Fixpoint starts_with (p s : jsstring) : bool :=
  match p, s with
  | [], _ => true
  | x :: p', y :: s' => N.eqb x y && starts_with p' s'
  | _ :: _, [] => false
  end.

(** [hay.includes(needle)] *)
Fixpoint includes (needle hay : jsstring) : bool :=
  starts_with needle hay ||
  match hay with
  | [] => false
  | _ :: hay' => includes needle hay'
  end.

(** WhiteSpace and LineTerminator code units, as [String.prototype.trim]
    strips them. *)
Definition is_space (c : N) : bool :=
  ((9 <=? c) && (c <=? 13) || (c =? 32) || (c =? 160) || (c =? 5760)
   || (8192 <=? c) && (c <=? 8202) || (c =? 8232) || (c =? 8233)
   || (c =? 8239) || (c =? 8287) || (c =? 12288) || (c =? 65279))%N.

Fixpoint trim_start (s : jsstring) : jsstring :=
  match s with
  | c :: s' => if is_space c then trim_start s' else s
  | [] => []
  end.

(** [s.trim()] *)
Definition trim (s : jsstring) : jsstring :=
  rev (trim_start (rev (trim_start s))).

(** Decimal rendering of an integer, as [String(n)] gives it for the
    integers of the safe range. *)
Definition of_Z (z : Z) : jsstring := js (NilZero.string_of_int (Z.to_int z)).

(** ** Numbers obtained from strings

    [Number(s)] on the strings this program applies it to: a Retry-After
    header (delay-seconds is a run of digits, an HTTP-date is not numeric)
    and the POLL_MS setting.  Surrounding white space is ignored and the
    blank string is [0], as StringToNumber has it; a string that is not a
    run of decimal digits is [NaN] (signs, fractions, exponents and radix
    prefixes are outside the numeric domain of this model). *)
Inductive jsnum := Num (z : Z) | NaN.

Definition digit_val (c : N) : option Z :=
  if ((48 <=? c) && (c <=? 57))%N then Some (Z.of_N c - 48) else None.

Fixpoint digits_val (acc : Z) (s : jsstring) : option Z :=
  match s with
  | [] => Some acc
  | c :: s' =>
      match digit_val c with
      | Some d => digits_val (10 * acc + d) s'
      | None => None
      end
  end.

Definition Number_ (s : jsstring) : jsnum :=
  match digits_val 0 (trim s) with
  | Some z => Num z
  | None => NaN
  end.

Definition times (a : jsnum) (k : Z) : jsnum :=
  match a with Num z => Num (z * k) | NaN => NaN end.

Definition show_num (a : jsnum) : jsstring :=
  match a with Num z => of_Z z | NaN => js "NaN" end.

(** ** Values

    The values that reach this program: what [JSON.parse] builds, plus
    [undefined].  Numbers are the integers of the safe range; an object is
    its list of own properties in insertion order, one binding per name. *)
Inductive value :=
| VUndefined
| VNull
| VBool (b : bool)
| VNum (n : Z)
| VStr (s : jsstring)
| VArr (xs : list value)
| VObj (fields : list (jsstring * value)).

(** ToBoolean *)
Definition truthy (v : value) : bool :=
  match v with
  | VUndefined | VNull => false
  | VBool b => b
  | VNum n => negb (n =? 0)
  | VStr s => match s with [] => false | _ => true end
  | VArr _ | VObj _ => true
  end.

Definition nullish (v : value) : bool :=
  match v with VUndefined | VNull => true | _ => false end.

(** [a ?? b] *)
Definition coalesce (a b : value) : value := if nullish a then b else a.
Notation "a ?? b" := (coalesce a b) (at level 45, left associativity).

Fixpoint lookup (p : jsstring) (fs : list (jsstring * value)) : value :=
  match fs with
  | [] => VUndefined
  | (k, v) :: fs' => if str_eqb k p then v else lookup p fs'
  end.

(** [o?.p] for the property names the program reads (none of them lives on
    a prototype, so only an object's own properties answer). *)
Definition get (o : value) (p : string) : value :=
  match o with
  | VObj fs => lookup (js p) fs
  | _ => VUndefined
  end.

(** [Array.isArray(v)] *)
Definition isArray (v : value) : bool :=
  match v with VArr _ => true | _ => false end.

(** [v[0]] on a value that is not nullish. *)
Definition index0 (v : value) : value :=
  match v with
  | VArr xs => match xs with x :: _ => x | [] => VUndefined end
  | VStr s => match s with c :: _ => VStr [c] | [] => VUndefined end
  | VObj fs => lookup (js "0") fs
  | _ => VUndefined
  end.

(** Whether an object has an own property of that name. *)
Definition has_own (p : jsstring) (fs : list (jsstring * value)) : bool :=
  existsb (fun kv => str_eqb (fst kv) p) fs.

(** Whether ToString converts the value.  An object is converted by the
    [toString] it inherits, unless an own property of that name hides it:
    what [JSON.parse] stores there is never callable, the inherited
    [valueOf] only hands the object back, and the conversion throws a
    TypeError.  An array converts its elements (other than [null] and
    [undefined]) the same way. *)
Fixpoint stringifiable (v : value) : bool :=
  match v with
  | VArr xs =>
      (fix all (l : list value) : bool :=
         match l with
         | [] => true
         | x :: l' => stringifiable x && all l'
         end) xs
  | VObj fs => negb (has_own (js "toString") fs)
  | _ => true
  end.

(** The string ToString yields where it converts the value. *)
Fixpoint toString (v : value) : jsstring :=
  match v with
  | VUndefined => js "undefined"
  | VNull => js "null"
  | VBool true => js "true"
  | VBool false => js "false"
  | VNum n => of_Z n
  | VStr s => s
  | VArr xs =>
      (fix join (l : list value) : jsstring :=
         match l with
         | [] => []
         | x :: l' =>
             (match x with
              | VUndefined | VNull => []
              | _ => toString x
              end)
             ++ match l' with [] => [] | _ :: _ => js "," ++ join l' end
         end) xs
  | VObj _ => js "[object Object]"
  end.

(** [xs.join(sep)] *)
Definition elt_string (v : value) : jsstring :=
  match v with VUndefined | VNull => [] | _ => toString v end.

Fixpoint join_with (sep : jsstring) (l : list value) : jsstring :=
  match l with
  | [] => []
  | x :: l' =>
      elt_string x ++ match l' with [] => [] | _ :: _ => sep ++ join_with sep l' end
  end.

(** SameValueZero, the equality of [Set.prototype.has].  Objects and arrays
    compare by reference; every object or array that reaches the seen-set
    was freshly built by the parser for the current response, so it is never
    the reference of an element already in the set. *)
Definition sameValueZero (a b : value) : bool :=
  match a, b with
  | VUndefined, VUndefined => true
  | VNull, VNull => true
  | VBool x, VBool y => Bool.eqb x y
  | VNum x, VNum y => x =? y
  | VStr x, VStr y => str_eqb x y
  | _, _ => false
  end.

Definition primitive (v : value) : bool :=
  match v with VArr _ | VObj _ => false | _ => true end.

(** ** [encodeURIComponent]

    Unreserved code units pass; every other code point is written as the
    percent-encoded bytes of its UTF-8 form.  A lone surrogate makes the
    built-in throw a URIError, here [None]. *)
Definition unreserved (c : N) : bool :=
  ((65 <=? c) && (c <=? 90) || (97 <=? c) && (c <=? 122)
   || (48 <=? c) && (c <=? 57)
   || (c =? 45) || (c =? 95) || (c =? 46) || (c =? 33) || (c =? 126)
   || (c =? 42) || (c =? 39) || (c =? 40) || (c =? 41))%N.

Definition hex_digit (d : N) : N :=
  (if d <? 10 then 48 + d else 55 + d)%N.

Definition pct (byte : N) : jsstring :=
  [37%N; hex_digit (byte / 16); hex_digit (byte mod 16)].

Definition utf8 (cp : N) : jsstring :=
  (if cp <? 128 then pct cp
   else if cp <? 2048 then pct (192 + cp / 64) ++ pct (128 + cp mod 64)
   else if cp <? 65536 then
     pct (224 + cp / 4096) ++ pct (128 + (cp / 64) mod 64) ++ pct (128 + cp mod 64)
   else
     pct (240 + cp / 262144) ++ pct (128 + (cp / 4096) mod 64)
       ++ pct (128 + (cp / 64) mod 64) ++ pct (128 + cp mod 64))%N.

Definition is_high (c : N) : bool := ((55296 <=? c) && (c <? 56320))%N.
Definition is_low (c : N) : bool := ((56320 <=? c) && (c <? 57344))%N.

Fixpoint encodeURIComponent (s : jsstring) : option jsstring :=
  match s with
  | [] => Some []
  | c :: s' =>
      if unreserved c then option_map (cons c) (encodeURIComponent s')
      else if is_high c then
        match s' with
        | d :: s'' =>
            if is_low d then
              option_map
                (app (utf8 ((c - 55296) * 1024 + (d - 56320) + 65536)%N))
                (encodeURIComponent s'')
            else None
        | [] => None
        end
      else if is_low c then None
      else option_map (app (utf8 c)) (encodeURIComponent s')
  end.

End Js.
Import Js.

(* ===================================================================== *)
(** * The world the script runs in, and its effects *)
(* ===================================================================== *)

(** A thrown [Error]; the program only ever reads its [message]. *)
Record JsError := mkError { message : jsstring }.

(** What [fetch] resolves to.  [headers] is the [Headers] object: names in
    lower case, one entry per name.  [body] is what [res.text()] settles
    to. *)
Record Response := mkResponse {
  status : Z;
  statusText : jsstring;
  headers : list (jsstring * jsstring);
  body : jsstring + JsError
}.

(** [res.ok] *)
Definition ok (r : Response) : bool := (200 <=? status r) && (status r <=? 299).

(** [res.headers.get(name)]; [None] is [null]. *)
Fixpoint headers_get (name : jsstring) (hs : list (jsstring * jsstring))
  : option jsstring :=
  match hs with
  | [] => None
  | (k, v) :: hs' => if str_eqb k name then Some v else headers_get name hs'
  end.

Record Request := mkRequest {
  url : jsstring;
  Authorization : jsstring;
  Accept : jsstring
}.

(** The settings read from [process.env]. *)
Record Config := mkConfig {
  TENANT_ID : jsstring;
  CLIENT_ID : jsstring;
  CLIENT_SECRET : jsstring;
  RTA_MEETING_ID : jsstring;
  POLL_MS : jsstring;
  VERBOSE : jsstring
}.

(** The outside world, as three oracles.  The script is sequential and
    deterministic, so the k-th answer of each outside party is a function
    of k (and, for the network, of the request).  The identity provider
    resolves to [null] or to a result whose [accessToken], when present, is
    a string. *)
Record Env := mkEnv {
  net : nat -> Request -> Response + JsError;   (* fetch: resolves or rejects *)
  idp : nat -> value + JsError;                 (* acquireTokenByClientCredential *)
  clock : nat -> Z                              (* Date.now() *)
}.

Inductive Event :=
| EvFetch (rq : Request)
| EvSleep (ms : jsnum)
| EvAcquire
| EvLog (s : jsstring)
| EvWarn (s : jsstring)
| EvError (e : JsError)
| EvDir (v : value).

(** The mutable state: the three variables of [run] ([seen] is a [Set],
    kept in insertion order), how many answers each oracle has given, and
    the trace of effects, oldest first. *)
Record State := mkState {
  token : value;
  tokenAcquiredAt : Z;
  seen : list value;
  n_fetch : nat;
  n_idp : nat;
  n_clock : nat;
  trace : list Event
}.

Definition emit (e : Event) (st : State) : State :=
  mkState (token st) (tokenAcquiredAt st) (seen st)
          (n_fetch st) (n_idp st) (n_clock st) (trace st ++ [e]).

Definition bump_fetch (st : State) : State :=
  mkState (token st) (tokenAcquiredAt st) (seen st)
          (S (n_fetch st)) (n_idp st) (n_clock st) (trace st).

Definition bump_idp (st : State) : State :=
  mkState (token st) (tokenAcquiredAt st) (seen st)
          (n_fetch st) (S (n_idp st)) (n_clock st) (trace st).

Definition bump_clock (st : State) : State :=
  mkState (token st) (tokenAcquiredAt st) (seen st)
          (n_fetch st) (n_idp st) (S (n_clock st)) (trace st).

Definition with_token (v : value) (st : State) : State :=
  mkState v (tokenAcquiredAt st) (seen st)
          (n_fetch st) (n_idp st) (n_clock st) (trace st).

Definition with_tokenAcquiredAt (t : Z) (st : State) : State :=
  mkState (token st) t (seen st)
          (n_fetch st) (n_idp st) (n_clock st) (trace st).

Definition with_seen (s : list value) (st : State) : State :=
  mkState (token st) (tokenAcquiredAt st) s
          (n_fetch st) (n_idp st) (n_clock st) (trace st).

(** How a computation ends: with a value, with a thrown error, or still
    running when the step budget of an unbounded loop is used up. *)
Inductive outcome (A : Type) :=
| Ret (a : A)
| Throw (e : JsError)
| Fuel.
Arguments Ret {A} a.
Arguments Throw {A} e.
Arguments Fuel {A}.

Definition M (A : Type) : Type := State -> outcome A * State.

(** How the process stands after [n] turns of the poll loop. *)
Inductive process := Running | Exited (code : Z).

(** What the body of the outer [try] tells the [while]: [continue] was
    executed, or control reached the end of the [try]. *)
Inductive flow := Continue | Next.

Definition ret {A} (a : A) : M A := fun st => (Ret a, st).

Definition throw {A} (e : JsError) : M A := fun st => (Throw e, st).

Definition out_of_fuel {A} : M A := fun st => (Fuel, st).

Definition bind {A B} (m : M A) (k : A -> M B) : M B :=
  fun st =>
    match m st with
    | (Ret a, st') => k a st'
    | (Throw e, st') => (Throw e, st')
    | (Fuel, st') => (Fuel, st')
    end.

(** [try { m } catch (err) { h err }] *)
Definition try_catch {A} (m : M A) (h : JsError -> M A) : M A :=
  fun st =>
    match m st with
    | (Throw e, st') => h e st'
    | r => r
    end.

Declare Scope js_scope.
Delimit Scope js_scope with js.
Notation "x <- m ;; k" := (bind m (fun x => k))
  (at level 61, m at next level, right associativity) : js_scope.
Notation "m ;; k" := (bind m (fun _ => k))
  (at level 61, right associativity) : js_scope.
Open Scope js_scope.

Definition when_ (b : bool) (m : M unit) : M unit := if b then m else ret tt.

Section Effects.

Variable E : Env.

Definition console_log (s : jsstring) : M unit :=
  fun st => (Ret tt, emit (EvLog s) st).

Definition console_warn (s : jsstring) : M unit :=
  fun st => (Ret tt, emit (EvWarn s) st).

Definition console_dir (v : value) : M unit :=
  fun st => (Ret tt, emit (EvDir v) st).

(** [sleep(ms)] *)
Definition sleep (ms : jsnum) : M unit :=
  fun st => (Ret tt, emit (EvSleep ms) st).

(** [Date.now()] *)
Definition Date_now : M Z :=
  fun st => (Ret (clock E (n_clock st)), bump_clock st).

(** [fetch(url, options)] *)
Definition fetch (rq : Request) : M Response :=
  fun st =>
    match net E (n_fetch st) rq with
    | inl r => (Ret r, emit (EvFetch rq) (bump_fetch st))
    | inr e => (Throw e, emit (EvFetch rq) (bump_fetch st))
    end.

(** [cca.acquireTokenByClientCredential(...)] *)
Definition acquireTokenByClientCredential : M value :=
  fun st =>
    match idp E (n_idp st) with
    | inl r => (Ret r, emit EvAcquire (bump_idp st))
    | inr e => (Throw e, emit EvAcquire (bump_idp st))
    end.

(** [res.text()] *)
Definition res_text (r : Response) : M jsstring :=
  match body r with
  | inl t => ret t
  | inr e => throw e
  end.

Definition console_error (e : JsError) : M unit :=
  fun st => (Ret tt, emit (EvError e) st).

(** [new Set()] *)
Definition seen_new : M unit := fun st => (Ret tt, with_seen [] st).

Definition set_token (v : value) : M unit :=
  fun st => (Ret tt, with_token v st).

Definition set_tokenAcquiredAt (t : Z) : M unit :=
  fun st => (Ret tt, with_tokenAcquiredAt t st).

Definition get_token : M value := fun st => (Ret (token st), st).

Definition get_tokenAcquiredAt : M Z := fun st => (Ret (tokenAcquiredAt st), st).

(** [seen.has(id)] *)
Definition has (id : value) (s : list value) : bool :=
  existsb (sameValueZero id) s.

Definition seen_has (id : value) : M bool :=
  fun st => (Ret (has id (seen st)), st).

(** [seen.add(id)] *)
Definition add (id : value) (s : list value) : list value :=
  if has id s then s else s ++ [id].

Definition seen_add (id : value) : M unit :=
  fun st => (Ret tt, with_seen (add id (seen st)) st).



(* --------------------------------------------------------------------- *)
(** ** What the two revisions share *)

(** [getToken] *)
Definition getToken : M value :=
  r <- acquireTokenByClientCredential ;;
  if negb (truthy (get r "accessToken"))
  then throw (mkError (js "Failed to get app token"))
  else ret (get r "accessToken").

Definition base : jsstring := js "https://graph.microsoft.com/beta".

Definition feed : jsstring :=
  js "/copilot/communications/realtimeActivityFeed/meetings/".

Definition URIError : JsError := mkError (js "URI malformed").

Definition encode (s : jsstring) : M jsstring :=
  match encodeURIComponent s with
  | Some s' => ret s'
  | None => throw URIError
  end.

(** The TypeError of a conversion to a string that finds no usable
    [toString]. *)
Definition TypeError_primitive : JsError :=
  mkError (js "Cannot convert object to primitive value").

(** [String(v)], which is also what a template literal and
    [encodeURIComponent] apply to [v]. *)
Definition ToString (v : value) : M jsstring :=
  if stringifiable v then ret (toString v) else throw TypeError_primitive.

Definition transcriptsListUrl (meetingId : jsstring) : M jsstring :=
  m <- encode meetingId ;;
  ret (base ++ feed ++ m ++ js "/transcripts").

Definition transcriptDetailUrl (meetingId : jsstring) (transcriptId : value)
  : M jsstring :=
  m <- encode meetingId ;;
  s <- ToString transcriptId ;;
  t <- encode s ;;
  ret (base ++ feed ++ m ++ js "/transcripts/" ++ t).

(** The wait before a retry: [ra ? Number(ra) * 1000 :
    Math.min(32000, 1000 * 2 ** attempt)]. *)
Definition retry_wait (ra : option jsstring) (attempt : Z) : jsnum :=
  match ra with
  | Some (c :: s) => times (Number_ (c :: s)) 1000
  | _ => Num (Z.min 32000 (1000 * 2 ^ attempt))
  end.

Definition retryable (r : Response) (attempt maxAttempts : Z) : bool :=
  ((status r =? 429) || (status r =? 503)) && (attempt <? maxAttempts).

(** [res.text().catch(() => '')] *)
Definition text_or_empty (r : Response) : jsstring :=
  match body r with
  | inl t => t
  | inr _ => []
  end.

(** [res.headers.get('content-type') || ''] *)
Definition content_type (res : Response) : jsstring :=
  match headers_get (js "content-type") (headers res) with
  | Some (c :: s) => c :: s
  | _ => []
  end.

(** The [headers] option of both list and detail requests.  The access
    token is the string of the identity provider's result, which the
    template literal leaves as it is. *)
Definition request (u : jsstring) (accessToken : value) : Request :=
  mkRequest u (js "Bearer " ++ toString accessToken) (js "application/json").

(** The handler of the outer [catch] of [run], word for word the same in
    both revisions. *)
Definition on_poll_error (err : JsError) : M unit :=
  if includes (js "401") (message err)
  then
    console_warn (js "401 from Graph. Refreshing token...") ;;
    t <- getToken ;;
    set_token t ;;
    now <- Date_now ;;
    set_tokenAcquiredAt now
  else
    console_warn (js "Poll error: " ++ message err).

(** [if (Date.now() - tokenAcquiredAt > 50 * 60 * 1000) { ... }] *)
Definition refresh_if_stale : M unit :=
  now <- Date_now ;;
  at_ <- get_tokenAcquiredAt ;;
  if 50 * 60 * 1000 <? now - at_
  then
    t <- getToken ;;
    set_token t ;;
    now' <- Date_now ;;
    set_tokenAcquiredAt now'
  else ret tt.

(** [Array.isArray(list?.value) ? list.value : (Array.isArray(list) ? list : [])] *)
Definition items_of (lst : value) : list value :=
  match get lst "value" with
  | VArr xs => xs
  | _ => match lst with VArr xs => xs | _ => [] end
  end.

(** [for (const t of items) body(t)] *)
Fixpoint for_of (items : list value) (body : value -> M unit) : M unit :=
  match items with
  | [] => ret tt
  | t :: items' => body t ;; for_of items' body
  end.

(** [if (!TENANT_ID || !CLIENT_ID || !CLIENT_SECRET || !RTA_MEETING_ID)] *)
Definition missing_env (cfg : Config) : bool :=
  negb (truthy (VStr (TENANT_ID cfg))) || negb (truthy (VStr (CLIENT_ID cfg)))
  || negb (truthy (VStr (CLIENT_SECRET cfg)))
  || negb (truthy (VStr (RTA_MEETING_ID cfg))).

Definition verbose (cfg : Config) : bool := str_eqb (VERBOSE cfg) (js "1").

(** The [id] of a list item, [t?.id ?? t?.transcriptId ?? t?.metadata?.id]. *)
Definition item_id (t : value) : value :=
  get t "id" ?? get t "transcriptId" ?? get (get t "metadata") "id".

End Effects.

(* ===================================================================== *)
(** * The revision with the tolerant decoder *)
(* ===================================================================== *)

Module Poller.
Section Code.

Variable E : Env.
(** The host's [JSON.parse]: the parsed value, or the SyntaxError. *)
Variable JSON_parse : jsstring -> value + JsError.
Variable cfg : Config.

Definition http_error (res : Response) : JsError :=
  mkError (js "HTTP " ++ of_Z (status res) ++ js " " ++ statusText res
             ++ [10%N] ++ text_or_empty res).

(** The [while (true)] of [fetchWithRetry]; [attempt] is the counter before
    [attempt++]. *)
Fixpoint fetchWithRetry_loop (fuel : nat) (rq : Request)
    (maxAttempts attempt : Z) : M Response :=
  match fuel with
  | O => out_of_fuel
  | S fuel' =>
      let attempt := attempt + 1 in
      res <- fetch E rq ;;
      if negb (ok res) then
        if retryable res attempt maxAttempts then
          let ra := headers_get (js "retry-after") (headers res) in
          let wait := retry_wait ra attempt in
          console_warn (js "[" ++ of_Z (status res) ++ js "] throttled; retrying in "
                          ++ show_num wait ++ js "ms...") ;;
          sleep wait ;;
          fetchWithRetry_loop fuel' rq maxAttempts attempt
        else throw (http_error res)
      else ret res
  end.

Definition fetchWithRetry (rq : Request) (maxAttempts : Z) : M Response :=
  fetchWithRetry_loop (Z.to_nat (Z.max 1 maxAttempts)) rq maxAttempts 0.

Definition empty_body (st : Z) : value :=
  VObj [(js "_empty", VBool true); (js "_status", VNum st)].

Definition raw_body (text : jsstring) (st : Z) : value :=
  VObj [(js "_raw", VStr text); (js "_status", VNum st)].

Definition snippet (text : jsstring) : jsstring :=
  if 800 <? str_length text then slice0 800 text ++ ellipsis else text.

Definition decode_error (st : Z) (text : jsstring) : JsError :=
  mkError (js "Failed to parse JSON (status " ++ of_Z st
             ++ js "). Body starts with:" ++ [10%N] ++ snippet text).

Definition safeJson (res : Response) : M value :=
  let status := status res in
  if (status =? 204) || (status =? 202) then ret (empty_body status)
  else
    text <- res_text res ;;
    if negb (truthy (VStr text)) || str_eqb (trim text) [] then
      ret (empty_body status)
    else
      let ct := content_type res in
      if negb (includes (js "application/json") ct) then
        ret (raw_body text status)
      else
        match JSON_parse text with
        | inl v => ret v
        | inr _ => throw (decode_error status text)
        end.

Definition listTranscripts (accessToken : value) (meetingId : jsstring)
  : M value :=
  u <- transcriptsListUrl meetingId ;;
  res <- fetchWithRetry (request u accessToken) 5 ;;
  when_ (verbose cfg)
    (console_log (js "[list] HTTP " ++ of_Z (status res) ++ js " "
                    ++ statusText res)) ;;
  safeJson res.

Definition getTranscript (accessToken : value) (meetingId : jsstring)
    (transcriptId : value) : M value :=
  u <- transcriptDetailUrl meetingId transcriptId ;;
  res <- fetchWithRetry (request u accessToken) 5 ;;
  when_ (verbose cfg)
    (s <- ToString transcriptId ;;
     console_log (js "[detail:" ++ s ++ js "] HTTP "
                    ++ of_Z (status res) ++ js " " ++ statusText res)) ;;
  safeJson res.

(** The five fields [prettyPrintTranscript] derives. *)
Definition pp_id (obj : value) : value :=
  get obj "id" ?? get obj "transcriptId" ?? get (get obj "metadata") "id"
    ?? VStr (js "unknown").

Definition pp_created (obj : value) : value :=
  get obj "createdDateTime" ?? get obj "startDateTime" ?? get obj "timestamp"
    ?? get (get obj "metadata") "createdDateTime".

Definition pp_lang (obj : value) : value :=
  get obj "language" ?? get obj "locale" ?? get (get obj "metadata") "language".

Definition pp_speaker (obj : value) : value :=
  get obj "speakerId" ?? get (get obj "speaker") "id" ?? get obj "participantId".

Definition pp_text (obj : value) : value :=
  get obj "text" ?? get obj "content" ?? get obj "combinedText"
    ?? (if isArray (get obj "alternatives")
        then get (index0 (get obj "alternatives")) "text"
        else VUndefined).

(** [v ? `label${v}` : null] *)
Definition labelled (label : string) (v : value) : M value :=
  if truthy v then s <- ToString v ;; ret (VStr (js label ++ s)) else ret VNull.

(** [[...].filter(Boolean).join(' | ')] *)
Definition pp_header (obj : value) : M jsstring :=
  i <- ToString (pp_id obj) ;;
  c <- labelled "created: " (pp_created obj) ;;
  l <- labelled "lang: " (pp_lang obj) ;;
  s <- labelled "speaker: " (pp_speaker obj) ;;
  ret (join_with (js " | ")
         (filter truthy [VStr (bullet ++ js " id: " ++ i); c; l; s])).

(** [console.log(header || `• id: ${id}`); if (text) console.log(`  ${text}`)] *)
Definition pp_print (obj text : value) (header : jsstring) : M unit :=
  (if truthy (VStr header) then console_log header
   else i <- ToString (pp_id obj) ;; console_log (bullet ++ js " id: " ++ i)) ;;
  when_ (truthy text) (s <- ToString text ;; console_log (js "  " ++ s)).

Definition prettyPrintTranscript (obj : value) : M unit :=
  header <- pp_header obj ;;
  pp_print obj (pp_text obj) header.

(** What the loop body does with a fragment once its id is in the set. *)
Definition process_new (t id : value) : M unit :=
  console_log ([10%N] ++ js "NEW transcript fragment:") ;;
  prettyPrintTranscript t ;;
  tok <- get_token ;;
  detail <- getTranscript tok (RTA_MEETING_ID cfg) id ;;
  if truthy (get detail "_empty") then
    when_ (verbose cfg)
      (s <- ToString id ;;
       console_log (js "[detail:" ++ s ++ js "] Empty body."))
  else if truthy (get detail "_raw") then
    s <- ToString id ;;
    console_log (js "[detail:" ++ s ++ js "] Non-JSON body (first 400 chars):") ;;
    raw <- ToString (get detail "_raw") ;;
    console_log (slice0 400 raw)
  else
    when_ (verbose cfg)
      (console_log (js "~ detail payload ~") ;; console_dir detail) ;;
    console_log (js "Detail snippet:") ;;
    prettyPrintTranscript detail.

(** The body of [for (const t of items)]. *)
Definition process_item (t : value) : M unit :=
  let id := item_id t in
  known <- seen_has id ;;
  if negb (truthy id) || known then ret tt
  else
    seen_add id ;;
    process_new t id.

(** The body of the outer [try], after the check of the token's age. *)
Definition list_and_process : M flow :=
  tok <- get_token ;;
  lst <- listTranscripts tok (RTA_MEETING_ID cfg) ;;
  if truthy (get lst "_empty") then
    when_ (verbose cfg)
      (console_log (js "[list] Empty body (202/204 or no data yet).")) ;;
    sleep (Number_ (POLL_MS cfg)) ;;
    ret Continue
  else if truthy (get lst "_raw") then
    console_log (js "[list] Non-JSON body received (showing first 400 chars):") ;;
    raw <- ToString (get lst "_raw") ;;
    console_log (slice0 400 raw) ;;
    sleep (Number_ (POLL_MS cfg)) ;;
    ret Continue
  else
    when_ (verbose cfg)
      (console_log (js "~ list payload ~") ;; console_dir lst) ;;
    for_of (items_of lst) process_item ;;
    ret Next.

(** The body of the outer [try]. *)
Definition poll_once : M flow :=
  refresh_if_stale E ;;
  list_and_process.

(** One turn of the [while (true)] of [run]. *)
Definition iteration : M unit :=
  f <- try_catch poll_once (fun err => on_poll_error E err ;; ret Next) ;;
  match f with
  | Continue => ret tt
  | Next => sleep (Number_ (POLL_MS cfg))
  end.

(** [n] turns of the loop; the loop itself has no exit. *)
Fixpoint poll_loop (n : nat) : M unit :=
  match n with
  | O => out_of_fuel
  | S n' => iteration ;; poll_loop n'
  end.

Definition startup : M unit :=
  console_log (js "== Microsoft Graph RTA Transcript Poller ==") ;;
  console_log (js "Meeting: " ++ RTA_MEETING_ID cfg) ;;
  console_log (js "Interval: " ++ POLL_MS cfg ++ js " ms") ;;
  t <- getToken E ;;
  set_token t ;;
  now <- Date_now E ;;
  set_tokenAcquiredAt now ;;
  seen_new.

Definition run (n : nat) : M unit := startup ;; poll_loop n.

(** The module body: the check of the settings, then
    [run().catch(e => { console.error(e); process.exit(1); })]. *)
Definition main (n : nat) (st : State) : process * State :=
  if missing_env cfg then
    (Exited 1,
     emit (EvError (mkError (js "Missing env. Set TENANT_ID, CLIENT_ID, CLIENT_SECRET, RTA_MEETING_ID in .env"))) st)
  else
    match run n st with
    | (Throw e, st') => (Exited 1, emit (EvError e) st')
    | (_, st') => (Running, st')
    end.

End Code.
End Poller.

(* ===================================================================== *)
(** * The revision that reads bodies with [res.json()] *)
(* ===================================================================== *)

Module IndexJs.
Section Code.

Variable E : Env.
Variable JSON_parse : jsstring -> value + JsError.
Variable cfg : Config.

Definition http_error (rq : Request) (res : Response) : JsError :=
  mkError (js "HTTP " ++ of_Z (status res) ++ js " " ++ statusText res
             ++ js " for " ++ url rq ++ [10%N] ++ text_or_empty res).

Fixpoint fetchWithRetry_loop (fuel : nat) (rq : Request)
    (maxAttempts attempt : Z) : M Response :=
  match fuel with
  | O => out_of_fuel
  | S fuel' =>
      let attempt := attempt + 1 in
      res <- fetch E rq ;;
      if ok res then ret res
      else if retryable res attempt maxAttempts then
        let ra := headers_get (js "retry-after") (headers res) in
        let wait := retry_wait ra attempt in
        console_warn (js "[" ++ of_Z (status res) ++ js "] throttled; retrying in "
                        ++ show_num wait ++ js "ms...") ;;
        sleep wait ;;
        fetchWithRetry_loop fuel' rq maxAttempts attempt
      else throw (http_error rq res)
  end.

Definition fetchWithRetry (rq : Request) (maxAttempts : Z) : M Response :=
  fetchWithRetry_loop (Z.to_nat (Z.max 1 maxAttempts)) rq maxAttempts 0.

(** [res.json()] *)
Definition res_json (res : Response) : M value :=
  text <- res_text res ;;
  match JSON_parse text with
  | inl v => ret v
  | inr e => throw e
  end.

Definition listTranscripts (accessToken : value) (meetingId : jsstring)
  : M value :=
  u <- transcriptsListUrl meetingId ;;
  res <- fetchWithRetry (request u accessToken) 5 ;;
  res_json res.

Definition getTranscript (accessToken : value) (meetingId : jsstring)
    (transcriptId : value) : M value :=
  u <- transcriptDetailUrl meetingId transcriptId ;;
  res <- fetchWithRetry (request u accessToken) 5 ;;
  res_json res.

(** [o.p] without the [?.]: reading a property of [null] or [undefined]
    throws a TypeError. *)
Definition get_strict (o : value) (p : string) : M value :=
  if nullish o then
    throw (mkError (js "Cannot read properties of " ++ toString o
                      ++ js " (reading '" ++ js p ++ js "')"))
  else ret (get o p).

Definition pp_text (obj : value) : value :=
  get obj "text" ?? get obj "content" ?? get obj "combinedText"
    ?? get (index0 (get obj "alternatives")) "text".

Definition prettyPrintTranscript (obj : value) : M unit :=
  _ <- get_strict obj "id" ;;
  header <- Poller.pp_header obj ;;
  Poller.pp_print obj (pp_text obj) header.

(** The inner [try { ... } catch (e) { ... }] around the detail fetch. *)
Definition fetch_detail (id : value) : M unit :=
  try_catch
    (tok <- get_token ;;
     detail <- getTranscript tok (RTA_MEETING_ID cfg) id ;;
     when_ (verbose cfg)
       (console_log (js "~ detail payload ~") ;; console_dir detail) ;;
     when_ (truthy detail)
       (console_log (js "Detail snippet:") ;; prettyPrintTranscript detail))
    (fun e =>
       s <- ToString id ;;
       console_warn (js "Failed to fetch detail for " ++ s
                       ++ js ": " ++ message e)).

Definition process_new (t id : value) : M unit :=
  console_log ([10%N] ++ js "NEW transcript fragment detected:") ;;
  prettyPrintTranscript t ;;
  fetch_detail id.

Definition process_item (t : value) : M unit :=
  _ <- get_strict t "id" ;;
  let id := item_id t in
  known <- seen_has id ;;
  if negb (truthy id) || known then ret tt
  else
    seen_add id ;;
    process_new t id.

Definition list_and_process : M unit :=
  tok <- get_token ;;
  lst <- listTranscripts tok (RTA_MEETING_ID cfg) ;;
  when_ (verbose cfg)
    (console_log (js "~ list payload ~") ;; console_dir lst) ;;
  for_of (items_of lst) process_item.

Definition poll_once : M unit :=
  refresh_if_stale E ;;
  list_and_process.

Definition iteration : M unit :=
  try_catch poll_once (on_poll_error E) ;;
  sleep (Number_ (POLL_MS cfg)).

Fixpoint poll_loop (n : nat) : M unit :=
  match n with
  | O => out_of_fuel
  | S n' => iteration ;; poll_loop n'
  end.

Definition startup : M unit :=
  console_log (js "== Microsoft Graph RTA Transcript Poller ==") ;;
  console_log (js "Meeting: " ++ RTA_MEETING_ID cfg) ;;
  console_log (js "Interval: " ++ POLL_MS cfg ++ js " ms") ;;
  seen_new ;;
  t <- getToken E ;;
  set_token t ;;
  now <- Date_now E ;;
  set_tokenAcquiredAt now.

Definition run (n : nat) : M unit := startup ;; poll_loop n.

Definition main (n : nat) (st : State) : process * State :=
  if missing_env cfg then
    (Exited 1,
     emit (EvError (mkError (js "Missing env. Set TENANT_ID, CLIENT_ID, CLIENT_SECRET, RTA_MEETING_ID in .env"))) st)
  else
    match run n st with
    | (Throw e, st') => (Exited 1, emit (EvError e) st')
    | (_, st') => (Running, st')
    end.

End Code.
End IndexJs.

(* ===================================================================== *)
(** * A reference parser for scenarios *)
(* ===================================================================== *)

(** [JSON.parse] belongs to the host; the code above takes it as given.
    The scenarios further down need an instance, and use this parser of a
    fragment of JSON: [null], [true], [false], integers, strings without
    escapes, arrays and objects.  Anything else is a syntax error. *)
Module MiniJson.

Definition ws (c : N) : bool :=
  ((c =? 32) || (c =? 9) || (c =? 10) || (c =? 13))%N.

Fixpoint skip_ws (s : jsstring) : jsstring :=
  match s with
  | c :: s' => if ws c then skip_ws s' else s
  | [] => []
  end.

Fixpoint strip (p s : jsstring) : option jsstring :=
  match p, s with
  | [], _ => Some s
  | x :: p', y :: s' => if (x =? y)%N then strip p' s' else None
  | _ :: _, [] => None
  end.

(** The characters up to the closing quote. *)
Fixpoint string_body (s : jsstring) : option (jsstring * jsstring) :=
  match s with
  | [] => None
  | c :: s' =>
      if (c =? 34)%N then Some ([], s')
      else if ((c =? 92) || (c <? 32))%N then None
      else match string_body s' with
           | Some (t, r) => Some (c :: t, r)
           | None => None
           end
  end.

Fixpoint digits (s : jsstring) : jsstring * jsstring :=
  match s with
  | c :: s' =>
      match digit_val c with
      | Some _ => let (d, r) := digits s' in (c :: d, r)
      | None => ([], s)
      end
  | [] => ([], [])
  end.

Definition natural (s : jsstring) : option (Z * jsstring) :=
  let (d, r) := digits s in
  match d, r with
  | [], _ => None
  | 48%N :: _ :: _, _ => None
  | _, c :: _ =>
      if ((c =? 46) || (c =? 101) || (c =? 69))%N then None
      else option_map (fun z => (z, r)) (digits_val 0 d)
  | _, [] => option_map (fun z => (z, r)) (digits_val 0 d)
  end.

Definition number (s : jsstring) : option (value * jsstring) :=
  match s with
  | 45%N :: s' => option_map (fun p => (VNum (- fst p), snd p)) (natural s')
  | _ => option_map (fun p => (VNum (fst p), snd p)) (natural s)
  end.

(** A repeated name overwrites the earlier value in place. *)
Fixpoint set_field (k : jsstring) (v : value) (fs : list (jsstring * value))
  : list (jsstring * value) :=
  match fs with
  | [] => [(k, v)]
  | (k', v') :: fs' =>
      if str_eqb k' k then (k, v) :: fs' else (k', v') :: set_field k v fs'
  end.

Fixpoint parse_value (fuel : nat) (s : jsstring) : option (value * jsstring) :=
  match fuel with
  | O => None
  | S f =>
      let s := skip_ws s in
      match s with
      | [] => None
      | c :: r =>
          if (c =? 34)%N then
            option_map (fun p => (VStr (fst p), snd p)) (string_body r)
          else if (c =? 91)%N then
            match skip_ws r with
            | 93%N :: r' => Some (VArr [], r')
            | _ =>
                option_map (fun p => (VArr (fst p), snd p))
                  ((fix elements (n : nat) (s : jsstring)
                      : option (list value * jsstring) :=
                      match n with
                      | O => None
                      | S n' =>
                          match parse_value f s with
                          | Some (v, r1) =>
                              match skip_ws r1 with
                              | 44%N :: r2 =>
                                  option_map (fun p => (v :: fst p, snd p))
                                             (elements n' r2)
                              | 93%N :: r2 => Some ([v], r2)
                              | _ => None
                              end
                          | None => None
                          end
                      end) f r)
            end
          else if (c =? 123)%N then
            match skip_ws r with
            | 125%N :: r' => Some (VObj [], r')
            | _ =>
                option_map (fun p => (VObj (fst p), snd p))
                  ((fix members (n : nat) (acc : list (jsstring * value))
                      (s : jsstring)
                      : option (list (jsstring * value) * jsstring) :=
                      match n with
                      | O => None
                      | S n' =>
                          match skip_ws s with
                          | 34%N :: r0 =>
                              match string_body r0 with
                              | Some (k, r1) =>
                                  match skip_ws r1 with
                                  | 58%N :: r2 =>
                                      match parse_value f r2 with
                                      | Some (v, r3) =>
                                          match skip_ws r3 with
                                          | 44%N :: r4 =>
                                              members n' (set_field k v acc) r4
                                          | 125%N :: r4 =>
                                              Some (set_field k v acc, r4)
                                          | _ => None
                                          end
                                      | None => None
                                      end
                                  | _ => None
                                  end
                              | None => None
                              end
                          | _ => None
                          end
                      end) f [] r)
            end
          else
            match strip (js "null") s, strip (js "true") s, strip (js "false") s with
            | Some r', _, _ => Some (VNull, r')
            | _, Some r', _ => Some (VBool true, r')
            | _, _, Some r' => Some (VBool false, r')
            | _, _, _ => number s
            end
      end
  end.

Definition SyntaxError : JsError := mkError (js "Unexpected token in JSON").

Definition parse (s : jsstring) : value + JsError :=
  match parse_value (S (List.length s)) s with
  | Some (v, r) =>
      match skip_ws r with
      | [] => inl v
      | _ :: _ => inr SyntaxError
      end
  | None => inr SyntaxError
  end.

(** JSON text written with single quotes standing for the double ones. *)
Definition json (s : string) : jsstring :=
  List.map (fun c => if (c =? 39)%N then 34%N else c) (js s).

End MiniJson.

(* ===================================================================== *)
(** * Observations and invariants *)
(* ===================================================================== *)

(** The requests of a trace, in order. *)
Fixpoint fetches (tr : list Event) : list Request :=
  match tr with
  | [] => []
  | EvFetch rq :: tr' => rq :: fetches tr'
  | _ :: tr' => fetches tr'
  end.

(** The sleeps of a trace, in order. *)
Fixpoint sleeps (tr : list Event) : list jsnum :=
  match tr with
  | [] => []
  | EvSleep ms :: tr' => ms :: sleeps tr'
  | _ :: tr' => sleeps tr'
  end.

(** The token acquisitions of a trace. *)
Fixpoint acquisitions (tr : list Event) : nat :=
  match tr with
  | [] => O
  | EvAcquire :: tr' => S (acquisitions tr')
  | _ :: tr' => acquisitions tr'
  end.

(** The state after one throttled attempt: the request, the warning, the
    sleep. *)
Definition after_retry (rq : Request) (res : Response) (attempt : Z)
    (st : State) : State :=
  let wait := retry_wait (headers_get (js "retry-after") (headers res)) attempt in
  emit (EvSleep wait)
    (emit (EvWarn (js "[" ++ of_Z (status res) ++ js "] throttled; retrying in "
                     ++ show_num wait ++ js "ms..."))
       (emit (EvFetch rq) (bump_fetch st))).

(** The state after the handler announced a refresh. *)
Definition warned_401 (st : State) : State :=
  emit (EvWarn (js "401 from Graph. Refreshing token...")) st.

(** The state after a token acquisition that succeeded with token [tok],
    started in [st]: the token, then the time stamp. *)
Definition refreshed (E : Env) (tok : value) (st : State) : State :=
  with_tokenAcquiredAt (clock E (n_clock st))
    (bump_clock (with_token tok (emit EvAcquire (bump_idp st)))).

(** The first candidate of a [??] chain that is neither [null] nor
    [undefined]; the last one when all the others are. *)
Fixpoint first_defined (l : list value) : value :=
  match l with
  | [] => VUndefined
  | [x] => x
  | x :: l' => if nullish x then first_defined l' else x
  end.

(** The trace only grows at its end and the seen-set never loses an
    element. *)
Definition extends (st st' : State) : Prop :=
  (exists evs, trace st' = trace st ++ evs) /\
  (forall x, has x (seen st) = true -> has x (seen st') = true).

Definition mono {A} (m : M A) : Prop := forall st, extends st (snd (m st)).

(** The computation ends: it is never cut short by the step budget. *)
Definition total {A} (m : M A) : Prop := forall st, fst (m st) <> Fuel.

(** The computation ends without throwing. *)
Definition safe {A} (m : M A) : Prop := forall st, exists a, fst (m st) = Ret a.

(** Steps that neither touch the credential nor consult the clock or the
    identity provider. *)
Definition same_credential (st st' : State) : Prop :=
  token st' = token st /\ tokenAcquiredAt st' = tokenAcquiredAt st /\
  n_idp st' = n_idp st /\ n_clock st' = n_clock st.

Definition keeps {A} (m : M A) : Prop := forall st, same_credential st (snd (m st)).

(** The computation's first effect is [e]. *)
Definition begins {A} (e : Event) (m : M A) (st : State) : Prop :=
  exists evs, trace (snd (m st)) = trace st ++ e :: evs.

(** A status on which the retry loop may try again. *)
Definition throttled (r : Response) : bool :=
  (status r =? 429) || (status r =? 503).

(** The answer to attempt number [attempt] ends the retry loop: the request
    was rejected, or answered with a success status, or with a failure that
    is not retried (another status, or no attempt left). *)
Definition final (maxAttempts attempt : Z) (ans : Response + JsError) : bool :=
  match ans with
  | inr _ => true
  | inl r => ok r || negb (retryable r attempt maxAttempts)
  end.

(** A code unit that cannot end or start a path segment, a query or a
    fragment of a URL: an unreserved character or the percent sign. *)
Definition segment_safe (c : N) : Prop := unreserved c = true \/ c = 37%N.

(** The string is made of UTF-16 code units. *)
Definition code_units (s : jsstring) : Prop := Forall (fun c => (c < 65536)%N) s.

(** The value is not an object (it is a primitive, an array, [null] or
    [undefined]). *)
Definition not_object (v : value) : bool :=
  match v with VObj _ => false | _ => true end.

(** The values [prettyPrintTranscript] converts to strings for the header:
    the id, and those of created, lang and speaker that are truthy. *)
Definition header_fields (obj : value) : list value :=
  Poller.pp_id obj
    :: filter truthy [Poller.pp_created obj; Poller.pp_lang obj;
                      Poller.pp_speaker obj].

(** The header line, where every one of its fields converts. *)
Definition header_part (label : string) (v : value) : list jsstring :=
  if truthy v then [js label ++ toString v] else [].

Definition header_text (obj : value) : jsstring :=
  join_with (js " | ")
    (map VStr
       ([bullet ++ js " id: " ++ toString (Poller.pp_id obj)]
          ++ header_part "created: " (Poller.pp_created obj)
          ++ header_part "lang: " (Poller.pp_lang obj)
          ++ header_part "speaker: " (Poller.pp_speaker obj))).

(** What [prettyPrintTranscript] leaves on the trace when it returns, for
    the text [text] it derived. *)
Definition printed_with (text obj : value) (st : State) : State :=
  let st1 := emit (EvLog (header_text obj)) st in
  if truthy text then emit (EvLog (js "  " ++ toString text)) st1 else st1.

Definition printed (obj : value) (st : State) : State :=
  printed_with (Poller.pp_text obj) obj st.

(** Every value the printer converts does convert: the fields of the
    header, and the text when it is truthy. *)
Definition printable_with (text obj : value) : bool :=
  forallb stringifiable (header_fields obj)
  && (negb (truthy text) || stringifiable text).

(** The TypeError of reading [id] from [null] or [undefined]. *)
Definition cannot_read_id (t : value) : JsError :=
  mkError (js "Cannot read properties of " ++ toString t
             ++ js " (reading '" ++ js "id" ++ js "')").

(** A request to the transcripts of the meeting whose encoded id is [m],
    authorised with the token [tok]: its URL is the list URL, or the list
    URL, a slash and the encoding of one identifier. *)
Definition transcript_request (m : jsstring) (tok : value) (rq : Request) : Prop :=
  Authorization rq = js "Bearer " ++ toString tok /\
  Accept rq = js "application/json" /\
  (url rq = base ++ feed ++ m ++ js "/transcripts" \/
   exists id eid,
     stringifiable id = true /\
     encodeURIComponent (toString id) = Some eid /\
     url rq = (base ++ feed ++ m ++ js "/transcripts") ++ js "/" ++ eid).

(** Started with the token [tok], the computation keeps it and sends
    nothing but such requests. *)
Definition sends_with (m : jsstring) (tok : value) {A} (c : M A) : Prop :=
  forall st,
    token st = tok ->
    token (snd (c st)) = tok /\
    exists evs,
      trace (snd (c st)) = trace st ++ evs /\
      Forall (transcript_request m tok) (fetches evs).

(** The computation sends no request. *)
Definition silent {A} (c : M A) : Prop :=
  forall st, fetches (trace (snd (c st))) = fetches (trace st).

(** A truthy token stays truthy. *)
Definition keeps_token_truthy {A} (c : M A) : Prop :=
  forall st, truthy (token st) = true -> truthy (token (snd (c st))) = true.

(** How the retry loop ends on a final answer. *)
Definition poller_settle (ans : Response + JsError) : outcome Response :=
  match ans with
  | inr e => Throw e
  | inl r => if ok r then Ret r else Throw (Poller.http_error r)
  end.

Definition index_settle (rq : Request) (ans : Response + JsError)
  : outcome Response :=
  match ans with
  | inr e => Throw e
  | inl r => if ok r then Ret r else Throw (IndexJs.http_error rq r)
  end.

(** The response names no wait of its own: no Retry-After header, or an
    empty one. *)
Definition no_retry_after (r : Response) : bool :=
  match headers_get (js "retry-after") (headers r) with
  | Some (_ :: _) => false
  | _ => true
  end.

(* ===================================================================== *)
(** * Scenarios *)
(* ===================================================================== *)

(** The state the module starts in. *)
Definition st0 : State := mkState VUndefined 0 [] 0 0 0 [].

(** The settings of the scenarios: meeting "m1", a poll every 2000 ms,
    verbose logging off. *)
Definition cfg0 : Config :=
  mkConfig (js "tenant") (js "client") (js "secret") (js "m1") (js "2000") (js "0").

Definition plain (st : Z) (text : string) : Response :=
  mkResponse st [] [] (inl (js text)).

Definition json_ok (text : string) : Response :=
  mkResponse 200 (js "OK") [(js "content-type", js "application/json")]
             (inl (MiniJson.json text)).

Definition token_reply (s : string) : value :=
  VObj [(js "accessToken", VStr (js s))].

(** The list URL for the meeting "m1" of [cfg0], and a detail URL. *)
Definition list_url : jsstring := base ++ feed ++ js "m1/transcripts".
Definition detail_url (id : string) : jsstring := list_url ++ js "/" ++ js id.

Definition bearer (u : jsstring) (tok : string) : Request :=
  request u (VStr (js tok)).

Definition rq_list : Request :=
  mkRequest (js "https://graph.microsoft.com/beta/x") (js "Bearer t")
            (js "application/json").

(** A network that throttles every request. *)
Definition env_throttling : Env :=
  mkEnv (fun _ _ => inl (plain 429 "slow down"))
        (fun _ => inl VNull)
        (fun _ => 0).

Definition r503_retry_after_2 : Response :=
  mkResponse 503 (js "Service Unavailable") [(js "retry-after", js "2")]
             (inl []).

Definition r503_bare : Response :=
  mkResponse 503 (js "Service Unavailable") [] (inl []).

Definition r200 : Response :=
  mkResponse 200 (js "OK") [(js "content-type", js "application/json")]
             (inl (js "[]")).

(** A network that answers 503 (Retry-After: 2), 503, then 200. *)
Definition env_recovering : Env :=
  mkEnv (fun k _ => match k with
                    | O => inl r503_retry_after_2
                    | S O => inl r503_bare
                    | _ => inl r200
                    end)
        (fun _ => inl VNull)
        (fun _ => 0).

Definition r204 : Response :=
  mkResponse 204 (js "No Content") [(js "content-type", js "application/json")]
             (inr (mkError (js "body unusable"))).

Definition r_blank : Response :=
  mkResponse 200 (js "OK") [(js "content-type", js "application/json")]
             (inl (js "  ")).

Definition r_text : Response :=
  mkResponse 200 (js "OK") [(js "content-type", js "text/plain")]
             (inl (js "hello")).

Definition r_json : Response :=
  mkResponse 200 (js "OK") [(js "content-type", js "application/json")]
             (inl (MiniJson.json "{'value':[{'id':'a'}]}")).

Definition r_malformed : Response :=
  mkResponse 200 (js "OK") [(js "content-type", js "application/json")]
             (inl (MiniJson.json "{'value':")).

(** The list item of the field-fallback example. *)
Definition fragment_x : value :=
  VObj [(js "transcriptId", VStr (js "x"));
        (js "locale", VStr (js "en-US"));
        (js "content", VStr (js "hi"))].

(** The list holds the fragments "a" and "b"; the detail of "a" answers
    500, the detail of "b" is fine. *)
Definition env_detail_fails : Env :=
  mkEnv (fun _ rq =>
           if str_eqb (url rq) list_url then
             inl (json_ok "{'value':[{'id':'a'},{'id':'b'}]}")
           else if str_eqb (url rq) (detail_url "a") then
             inl (mkResponse 500 (js "Internal Server Error") [] (inl (js "boom")))
           else inl (json_ok "{'id':'b','text':'hello'}"))
        (fun _ => inl (token_reply "t0"))
        (fun _ => 0).

(** The state both revisions reach after their start-up in the scenario: a
    token, its time stamp, an empty seen-set. *)
Definition after_startup (E : Env) (st : State) : State :=
  snd (Poller.startup E cfg0 st).

Definition r500_mentions_401 : Response :=
  mkResponse 500 (js "Internal Server Error") []
             (inl (js "upstream request 4401 timed out")).

(** Every request is answered 500 with a body that happens to contain
    "401"; the identity provider always hands out "t1". *)
Definition env_token_ok : Env :=
  mkEnv (fun _ _ => inl r500_mentions_401)
        (fun _ => inl (token_reply "t1"))
        (fun k => Z.of_nat k).

(** The first acquisition succeeds, every later one is rejected; every
    request is answered 401. *)
Definition env_unauthorized : Env :=
  mkEnv (fun _ _ =>
           inl (mkResponse 401 (js "Unauthorized") []
                           (inl (js "token expired"))))
        (fun k => match k with
                  | O => inl (token_reply "t0")
                  | S _ => inr (mkError (js "network_error: identity provider unreachable"))
                  end)
        (fun _ => 0).

(** The token is "t0" at start-up and "t1" from then on; the clock reads 0
    at start-up and exactly fifty minutes later afterwards; the list is
    empty. *)
Definition env_fifty_minutes : Env :=
  mkEnv (fun _ _ => inl (mkResponse 204 (js "No Content") [] (inl [])))
        (fun k => match k with
                  | O => inl (token_reply "t0")
                  | S _ => inl (token_reply "t1")
                  end)
        (fun k => match k with
                  | O => 0
                  | S _ => 50 * 60 * 1000
                  end).

(** A clock that is one millisecond further. *)
Definition env_fifty_minutes_1ms : Env :=
  mkEnv (net env_fifty_minutes) (idp env_fifty_minutes)
        (fun k => match k with
                  | O => 0
                  | S _ => 50 * 60 * 1000 + 1
                  end).

(** The list holds the one fragment "f1", whose detail has a text. *)
Definition env_one_fragment : Env :=
  mkEnv (fun _ rq =>
           if str_eqb (url rq) list_url then inl (json_ok "{'value':[{'id':'f1'}]}")
           else inl (json_ok "{'id':'f1','text':'hello world'}"))
        (fun _ => inl (token_reply "t0"))
        (fun _ => 0).

(** The list answer is a JSON object that carries a truthy [_empty] of its
    own, next to a fragment. *)
Definition env_marker_in_payload : Env :=
  mkEnv (fun _ _ => inl (json_ok "{'_empty':true,'value':[{'id':'a'}]}"))
        (fun _ => inl (token_reply "t0"))
        (fun _ => 0).

(** A 200 that declares JSON and whose body cannot be read. *)
Definition r_unreadable : Response :=
  mkResponse 200 (js "OK") [(js "content-type", js "application/json")]
             (inr (mkError (js "stream closed"))).

(** Two throttled answers, then a 404 whose body cannot be read. *)
Definition env_then_404 : Env :=
  mkEnv (fun k _ => match k with
                    | O => inl r503_retry_after_2
                    | S O => inl r503_bare
                    | _ => inl (mkResponse 404 (js "Not Found") []
                                           (inr (mkError (js "stream closed"))))
                    end)
        (fun _ => inl VNull)
        (fun _ => 0).

(** Items without a usable identifier. *)
Definition items_unusable : list value :=
  [ VObj [(js "text", VStr (js "hi"))];
    VObj [(js "id", VNull)];
    VObj [(js "id", VStr [])];
    VObj [(js "id", VNum 0)];
    VNull;
    VStr (js "a") ].

(* ===================================================================== *)
(** * The reference parser on examples *)
(* ===================================================================== *)

Example parse_envelope :
  MiniJson.parse (MiniJson.json "{'value':[{'id':'a'}]}")
  = inl (VObj [(js "value", VArr [VObj [(js "id", VStr (js "a"))]])]).
Proof. reflexivity. Qed.

Example parse_array :
  MiniJson.parse (MiniJson.json " [ {'id': 7, 'ok': true}, null, -12 ] ")
  = inl (VArr [VObj [(js "id", VNum 7); (js "ok", VBool true)]; VNull; VNum (-12)]).
Proof. reflexivity. Qed.

Example parse_malformed :
  MiniJson.parse (MiniJson.json "{'value':") = inr MiniJson.SyntaxError.
Proof. reflexivity. Qed.

(* ===================================================================== *)
(** * Traces *)
(* ===================================================================== *)

Lemma fetches_app (a b : list Event) : fetches (a ++ b) = fetches a ++ fetches b.
Proof.
  induction a as [|e a IH]; simpl; [reflexivity|].
  destruct e; simpl; rewrite IH; reflexivity.
Qed.

Lemma sleeps_app (a b : list Event) : sleeps (a ++ b) = sleeps a ++ sleeps b.
Proof.
  induction a as [|e a IH]; simpl; [reflexivity|].
  destruct e; simpl; rewrite IH; reflexivity.
Qed.

Lemma acquisitions_app (a b : list Event) :
  acquisitions (a ++ b) = (acquisitions a + acquisitions b)%nat.
Proof.
  induction a as [|e a IH]; simpl; [reflexivity|].
  destruct e; simpl; rewrite IH; reflexivity.
Qed.

(* ===================================================================== *)
(** * Strings *)
(* ===================================================================== *)

Lemma starts_with_app (p s : jsstring) : starts_with p (p ++ s) = true.
Proof.
  induction p as [|c p IH]; simpl; [reflexivity|].
  rewrite N.eqb_refl, IH. reflexivity.
Qed.

Lemma starts_with_split (p s : jsstring) :
  starts_with p s = true -> exists r, s = p ++ r.
Proof.
  revert s. induction p as [|c p IH]; intros s H; simpl in *.
  - exists s. reflexivity.
  - destruct s as [|d s]; [discriminate|].
    apply andb_true_iff in H. destruct H as [Hc Hp].
    apply N.eqb_eq in Hc. subst d.
    destruct (IH _ Hp) as [r ->]. exists r. reflexivity.
Qed.

(** [includes] is substring search: the needle occurs somewhere. *)
Lemma includes_spec (n h : jsstring) :
  includes n h = true <-> exists a b, h = a ++ n ++ b.
Proof.
  split.
  - induction h as [|c h IH]; simpl; intros H.
    + rewrite orb_false_r in H. apply starts_with_split in H.
      destruct H as [r Hr]. exists [], r. exact Hr.
    + apply orb_true_iff in H. destruct H as [H|H].
      * apply starts_with_split in H. destruct H as [r Hr].
        exists [], r. exact Hr.
      * destruct (IH H) as (a & b & ->). exists (c :: a), b. reflexivity.
  - intros (a & b & ->). induction a as [|c a IH]; simpl.
    + destruct (n ++ b) eqn:Eq; simpl.
      * destruct n; [reflexivity|discriminate].
      * rewrite <- Eq. rewrite starts_with_app. reflexivity.
    + rewrite IH. apply orb_true_r.
Qed.

Lemma includes_app_r (n a b : jsstring) :
  includes n b = true -> includes n (a ++ b) = true.
Proof.
  intros H. apply includes_spec in H. destruct H as (x & y & ->).
  apply includes_spec. exists (a ++ x), y. rewrite <- app_assoc. reflexivity.
Qed.

Lemma includes_app_l (n a b : jsstring) :
  includes n a = true -> includes n (a ++ b) = true.
Proof.
  intros H. apply includes_spec in H. destruct H as (x & y & ->).
  apply includes_spec. exists x, (y ++ b). rewrite <- !app_assoc. reflexivity.
Qed.

Lemma str_eqb_eq (a b : jsstring) : str_eqb a b = true <-> a = b.
Proof.
  revert b. induction a as [|x a IH]; intros [|y b]; simpl; split; intros H;
    try reflexivity; try discriminate.
  - apply andb_true_iff in H. destruct H as [Hx Ha].
    apply N.eqb_eq in Hx. apply IH in Ha. subst. reflexivity.
  - inversion H; subst. rewrite N.eqb_refl. simpl. apply IH. reflexivity.
Qed.

Lemma str_eqb_refl (a : jsstring) : str_eqb a a = true.
Proof. apply str_eqb_eq. reflexivity. Qed.

(* ===================================================================== *)
(** * The retry loop *)
(* ===================================================================== *)

Section RetryLoop.

Variable E : Env.

Lemma retryable_not_ok (res : Response) (a m : Z) :
  retryable res a m = true -> ok res = false.
Proof.
  unfold retryable, ok. intros H.
  apply andb_true_iff in H. destruct H as [H _].
  apply orb_true_iff in H. destruct H as [H|H]; apply Z.eqb_eq in H;
    rewrite H; reflexivity.
Qed.

Lemma poller_step_retry fuel rq m a st res :
  net E (n_fetch st) rq = inl res ->
  retryable res (a + 1) m = true ->
  Poller.fetchWithRetry_loop E (S fuel) rq m a st
  = Poller.fetchWithRetry_loop E fuel rq m (a + 1) (after_retry rq res (a + 1) st).
Proof.
  intros Hnet Hr. simpl. unfold bind at 1, fetch. rewrite Hnet.
  rewrite (retryable_not_ok _ _ _ Hr). simpl. rewrite Hr. reflexivity.
Qed.

Lemma poller_step_throw fuel rq m a st res :
  net E (n_fetch st) rq = inl res ->
  ok res = false ->
  retryable res (a + 1) m = false ->
  Poller.fetchWithRetry_loop E (S fuel) rq m a st
  = (Throw (Poller.http_error res), emit (EvFetch rq) (bump_fetch st)).
Proof.
  intros Hnet Hok Hr. simpl. unfold bind at 1, fetch. rewrite Hnet.
  rewrite Hok. simpl. rewrite Hr. reflexivity.
Qed.

Lemma poller_step_ok fuel rq m a st res :
  net E (n_fetch st) rq = inl res ->
  ok res = true ->
  Poller.fetchWithRetry_loop E (S fuel) rq m a st
  = (Ret res, emit (EvFetch rq) (bump_fetch st)).
Proof.
  intros Hnet Hok. simpl. unfold bind at 1, fetch. rewrite Hnet.
  rewrite Hok. reflexivity.
Qed.

Lemma poller_step_reject fuel rq m a st e :
  net E (n_fetch st) rq = inr e ->
  Poller.fetchWithRetry_loop E (S fuel) rq m a st
  = (Throw e, emit (EvFetch rq) (bump_fetch st)).
Proof.
  intros Hnet. simpl. unfold bind at 1, fetch. rewrite Hnet. reflexivity.
Qed.

Lemma index_step_retry fuel rq m a st res :
  net E (n_fetch st) rq = inl res ->
  retryable res (a + 1) m = true ->
  IndexJs.fetchWithRetry_loop E (S fuel) rq m a st
  = IndexJs.fetchWithRetry_loop E fuel rq m (a + 1) (after_retry rq res (a + 1) st).
Proof.
  intros Hnet Hr. simpl. unfold bind at 1, fetch. rewrite Hnet.
  rewrite (retryable_not_ok _ _ _ Hr). simpl. rewrite Hr. reflexivity.
Qed.

Lemma index_step_throw fuel rq m a st res :
  net E (n_fetch st) rq = inl res ->
  ok res = false ->
  retryable res (a + 1) m = false ->
  IndexJs.fetchWithRetry_loop E (S fuel) rq m a st
  = (Throw (IndexJs.http_error rq res), emit (EvFetch rq) (bump_fetch st)).
Proof.
  intros Hnet Hok Hr. simpl. unfold bind at 1, fetch. rewrite Hnet.
  rewrite Hok. simpl. rewrite Hr. reflexivity.
Qed.

Lemma index_step_ok fuel rq m a st res :
  net E (n_fetch st) rq = inl res ->
  ok res = true ->
  IndexJs.fetchWithRetry_loop E (S fuel) rq m a st
  = (Ret res, emit (EvFetch rq) (bump_fetch st)).
Proof.
  intros Hnet Hok. simpl. unfold bind at 1, fetch. rewrite Hnet.
  rewrite Hok. reflexivity.
Qed.

Lemma index_step_reject fuel rq m a st e :
  net E (n_fetch st) rq = inr e ->
  IndexJs.fetchWithRetry_loop E (S fuel) rq m a st
  = (Throw e, emit (EvFetch rq) (bump_fetch st)).
Proof.
  intros Hnet. simpl. unfold bind at 1, fetch. rewrite Hnet. reflexivity.
Qed.

End RetryLoop.

(** Whatever the network answers, the retry loop sends at most
    [max 1 (maxAttempts - attempt)] requests. *)
Lemma poller_retry_bound E fuel rq m a st :
  (n_fetch (snd (Poller.fetchWithRetry_loop E fuel rq m a st))
   <= n_fetch st + Z.to_nat (Z.max 1 (m - a)))%nat.
Proof.
  revert a st. induction fuel as [|fuel IH]; intros a st; simpl; [lia|].
  unfold bind at 1, fetch. destruct (net E (n_fetch st) rq) as [res|e]; [|simpl; lia].
  destruct (negb (ok res)); [|simpl; lia].
  destruct (retryable res (a + 1) m) eqn:Hr; [|simpl; lia].
  unfold retryable in Hr. apply andb_true_iff in Hr. destruct Hr as [_ Hr].
  apply Z.ltb_lt in Hr.
  unfold bind, console_warn, sleep.
  etransitivity; [apply IH|]. simpl. lia.
Qed.

Lemma index_retry_bound E fuel rq m a st :
  (n_fetch (snd (IndexJs.fetchWithRetry_loop E fuel rq m a st))
   <= n_fetch st + Z.to_nat (Z.max 1 (m - a)))%nat.
Proof.
  revert a st. induction fuel as [|fuel IH]; intros a st; simpl; [lia|].
  unfold bind at 1, fetch. destruct (net E (n_fetch st) rq) as [res|e]; [|simpl; lia].
  destruct (ok res); [simpl; lia|].
  destruct (retryable res (a + 1) m) eqn:Hr; [|simpl; lia].
  unfold retryable in Hr. apply andb_true_iff in Hr. destruct Hr as [_ Hr].
  apply Z.ltb_lt in Hr.
  unfold bind, console_warn, sleep.
  etransitivity; [apply IH|]. simpl. lia.
Qed.

(** With the five attempts of the callers: never a sixth request. *)
Lemma never_a_sixth_request E rq st :
  (n_fetch (snd (Poller.fetchWithRetry E rq 5 st)) <= n_fetch st + 5)%nat /\
  (n_fetch (snd (IndexJs.fetchWithRetry E rq 5 st)) <= n_fetch st + 5)%nat.
Proof.
  split.
  - apply (poller_retry_bound E _ rq 5 0 st).
  - apply (index_retry_bound E _ rq 5 0 st).
Qed.

Lemma n_fetch_after_retry rq res a st :
  n_fetch (after_retry rq res a st) = S (n_fetch st).
Proof. reflexivity. Qed.

Lemma fetches_after_retry rq res a st :
  fetches (trace (after_retry rq res a st)) = fetches (trace st) ++ [rq].
Proof.
  unfold after_retry, emit; simpl. rewrite !fetches_app. simpl.
  rewrite !app_nil_r. reflexivity.
Qed.

Lemma sleeps_after_retry rq res a st :
  sleeps (trace (after_retry rq res a st))
  = sleeps (trace st)
      ++ [retry_wait (headers_get (js "retry-after") (headers res)) a].
Proof.
  unfold after_retry, emit; simpl. rewrite !sleeps_app. simpl.
  rewrite !app_nil_r. reflexivity.
Qed.

Lemma fetches_final_attempt rq st :
  fetches (trace (emit (EvFetch rq) (bump_fetch st))) = fetches (trace st) ++ [rq].
Proof. unfold emit; simpl. rewrite fetches_app. reflexivity. Qed.

Lemma sleeps_final_attempt rq st :
  sleeps (trace (emit (EvFetch rq) (bump_fetch st))) = sleeps (trace st).
Proof. unfold emit; simpl. rewrite sleeps_app. apply app_nil_r. Qed.

Lemma throttled_retryable res a m :
  status res = 429 \/ status res = 503 -> a < m -> retryable res a m = true.
Proof.
  intros [H|H] Hlt; unfold retryable; rewrite H; simpl; apply Z.ltb_lt; exact Hlt.
Qed.

Lemma throttled_not_ok res : status res = 429 \/ status res = 503 -> ok res = false.
Proof. intros [H|H]; unfold ok; rewrite H; reflexivity. Qed.

Lemma last_attempt_not_retryable res m : retryable res m m = false.
Proof. unfold retryable. rewrite Z.ltb_irrefl. apply andb_false_r. Qed.

(** One throttled turn of the retry loop, given the network's answer. *)
Ltac retry_step lem N :=
  erewrite lem; [ | exact N | apply throttled_retryable; [auto | lia] ].

(** C2.  When every attempt is answered with status 429, [fetchWithRetry]
    with its five attempts sends the request exactly five times, consuming
    five consecutive answers of the network, and then throws the HTTP error
    built from the fifth answer; this holds in both revisions. *)
Theorem retry_exhaustion_429 (E : Env) (rq : Request) (st : State) :
  (forall k, exists res, net E k rq = inl res /\ status res = 429) ->
  exists res st1 st2,
    net E (n_fetch st + 4) rq = inl res /\ status res = 429 /\
    Poller.fetchWithRetry E rq 5 st = (Throw (Poller.http_error res), st1) /\
    IndexJs.fetchWithRetry E rq 5 st = (Throw (IndexJs.http_error rq res), st2) /\
    n_fetch st1 = (n_fetch st + 5)%nat /\
    n_fetch st2 = (n_fetch st + 5)%nat /\
    fetches (trace st1) = fetches (trace st) ++ repeat rq 5 /\
    fetches (trace st2) = fetches (trace st) ++ repeat rq 5.
Proof.
  intros H.
  destruct (H (n_fetch st)) as (r1 & N1 & S1).
  destruct (H (S (n_fetch st))) as (r2 & N2 & S2).
  destruct (H (S (S (n_fetch st)))) as (r3 & N3 & S3).
  destruct (H (S (S (S (n_fetch st))))) as (r4 & N4 & S4).
  destruct (H (S (S (S (S (n_fetch st)))))) as (r5 & N5 & S5).
  set (s1 := after_retry rq r1 1 st).
  set (s2 := after_retry rq r2 2 s1).
  set (s3 := after_retry rq r3 3 s2).
  set (s4 := after_retry rq r4 4 s3).
  exists r5, (emit (EvFetch rq) (bump_fetch s4)), (emit (EvFetch rq) (bump_fetch s4)).
  assert (Hf : fetches (trace (emit (EvFetch rq) (bump_fetch s4)))
               = fetches (trace st) ++ repeat rq 5).
  { rewrite fetches_final_attempt. subst s4 s3 s2 s1.
    rewrite !fetches_after_retry. rewrite <- !app_assoc. reflexivity. }
  repeat split.
  - replace (n_fetch st + 4)%nat with (S (S (S (S (n_fetch st))))) by lia. exact N5.
  - exact S5.
  - unfold Poller.fetchWithRetry. change (Z.to_nat (Z.max 1 5)) with 5%nat.
    retry_step poller_step_retry N1.
    retry_step poller_step_retry N2.
    retry_step poller_step_retry N3.
    retry_step poller_step_retry N4.
    eapply poller_step_throw; [exact N5| |].
    + apply throttled_not_ok; auto.
    + apply last_attempt_not_retryable.
  - unfold IndexJs.fetchWithRetry. change (Z.to_nat (Z.max 1 5)) with 5%nat.
    retry_step index_step_retry N1.
    retry_step index_step_retry N2.
    retry_step index_step_retry N3.
    retry_step index_step_retry N4.
    eapply index_step_throw; [exact N5| |].
    + apply throttled_not_ok; auto.
    + apply last_attempt_not_retryable.
  - simpl. lia.
  - simpl. lia.
  - exact Hf.
  - exact Hf.
Qed.

Lemma retry_exhaustion_429_witness :
  (forall k, exists res, net env_throttling k rq_list = inl res /\ status res = 429)
  /\ exists res st1 st2,
    net env_throttling (n_fetch st0 + 4) rq_list = inl res /\ status res = 429 /\
    Poller.fetchWithRetry env_throttling rq_list 5 st0
      = (Throw (Poller.http_error res), st1) /\
    IndexJs.fetchWithRetry env_throttling rq_list 5 st0
      = (Throw (IndexJs.http_error rq_list res), st2) /\
    n_fetch st1 = (n_fetch st0 + 5)%nat /\
    n_fetch st2 = (n_fetch st0 + 5)%nat /\
    fetches (trace st1) = fetches (trace st0) ++ repeat rq_list 5 /\
    fetches (trace st2) = fetches (trace st0) ++ repeat rq_list 5.
Proof.
  split.
  - intros k. exists (plain 429 "slow down"). split; reflexivity.
  - apply (retry_exhaustion_429 env_throttling rq_list st0).
    intros k. exists (plain 429 "slow down"). split; reflexivity.
Defined.

(** C3 (as amended).  When the first answer is a 503 whose Retry-After is
    "2", the second a 503 without that header and the third a 200,
    [fetchWithRetry] sleeps 2000 ms after the first answer and 4000 ms
    (1000 * 2^2, the attempt counter being 2) after the second, and returns
    the third answer after exactly three requests. *)
Theorem retry_after_then_backoff (E : Env) (rq : Request) (st : State)
    (r1 r2 r3 : Response) :
  net E (n_fetch st) rq = inl r1 ->
  net E (S (n_fetch st)) rq = inl r2 ->
  net E (S (S (n_fetch st))) rq = inl r3 ->
  status r1 = 503 -> headers_get (js "retry-after") (headers r1) = Some (js "2") ->
  status r2 = 503 -> headers_get (js "retry-after") (headers r2) = None ->
  status r3 = 200 ->
  exists st',
    Poller.fetchWithRetry E rq 5 st = (Ret r3, st') /\
    sleeps (trace st') = sleeps (trace st) ++ [Num 2000; Num 4000] /\
    fetches (trace st') = fetches (trace st) ++ [rq; rq; rq] /\
    n_fetch st' = (n_fetch st + 3)%nat.
Proof.
  intros N1 N2 N3 S1 H1 S2 H2 S3.
  set (s1 := after_retry rq r1 1 st).
  set (s2 := after_retry rq r2 2 s1).
  exists (emit (EvFetch rq) (bump_fetch s2)).
  split; [|split; [|split]].
  - unfold Poller.fetchWithRetry. change (Z.to_nat (Z.max 1 5)) with 5%nat.
    retry_step poller_step_retry N1.
    retry_step poller_step_retry N2.
    eapply poller_step_ok; [exact N3|].
    unfold ok. rewrite S3. reflexivity.
  - rewrite sleeps_final_attempt. subst s2 s1.
    rewrite !sleeps_after_retry, H1, H2, <- app_assoc. reflexivity.
  - rewrite fetches_final_attempt. subst s2 s1.
    rewrite !fetches_after_retry, <- !app_assoc. reflexivity.
  - simpl. lia.
Qed.

Lemma retry_after_then_backoff_witness :
  exists st',
    Poller.fetchWithRetry env_recovering rq_list 5 st0 = (Ret r200, st') /\
    sleeps (trace st') = sleeps (trace st0) ++ [Num 2000; Num 4000] /\
    fetches (trace st') = fetches (trace st0) ++ [rq_list; rq_list; rq_list] /\
    n_fetch st' = (n_fetch st0 + 3)%nat.
Proof.
  apply (retry_after_then_backoff env_recovering rq_list st0
           r503_retry_after_2 r503_bare r200); reflexivity.
Defined.

(** C3 as the specification words it: on that very sequence the second
    sleep is not 2000 ms.  The run below returns the 200 answer after three
    requests, having slept 2000 ms and then 4000 ms. *)
Lemma second_backoff_is_not_2000 :
  let r := Poller.fetchWithRetry env_recovering rq_list 5 st0 in
  fst r = Ret r200 /\
  n_fetch (snd r) = 3%nat /\
  sleeps (trace (snd r)) = [Num 2000; Num 4000] /\
  sleeps (trace (snd r)) <> [Num 2000; Num 2000].
Proof.
  vm_compute. repeat split. discriminate.
Qed.

(* ===================================================================== *)
(** * The decoder *)
(* ===================================================================== *)

Lemma trim_nil : trim [] = [].
Proof. reflexivity. Qed.

Lemma snippet_shape (text : jsstring) :
  exists mark,
    Poller.snippet text = firstn 800 text ++ mark /\
    ((List.length text <= 800)%nat -> firstn 800 text = text /\ mark = []) /\
    ((800 < List.length text)%nat -> mark = ellipsis).
Proof.
  unfold Poller.snippet, str_length, slice0.
  destruct (800 <? Z.of_nat (List.length text)) eqn:Hlen.
  - apply Z.ltb_lt in Hlen. exists ellipsis. repeat split; try lia.
  - apply Z.ltb_ge in Hlen. exists [].
    assert (Hall : firstn 800 text = text) by (apply firstn_all2; lia).
    rewrite Hall, app_nil_r. repeat split; try lia.
Qed.

(** C4.  [safeJson] classifies a response in this order.  Status 202 or 204
    gives the empty marker [{_empty: true, _status}] without reading body or
    headers.  Otherwise the body is read, and a rejected read is rethrown as
    it is; a body that is empty or blank gives the empty marker; otherwise a
    content type that does not contain application/json (or none at all)
    gives the raw marker [{_raw: text, _status}] carrying the whole body
    text; otherwise the parsed value when the body parses; and otherwise a
    thrown error whose message ends with the first 800 code units of the
    body, which is the whole body when it is no longer than that and is
    followed by an ellipsis when it is.  The snippet is never empty. *)
Theorem safeJson_classifies (JSON_parse : jsstring -> value + JsError)
    (res : Response) (st : State) :
  let r := Poller.safeJson JSON_parse res st in
  let json := includes (js "application/json") (content_type res) in
  let empty :=
    VObj [(js "_empty", VBool true); (js "_status", VNum (status res))] in
  (status res = 202 \/ status res = 204 -> r = (Ret empty, st)) /\
  (forall e,
     status res <> 202 -> status res <> 204 -> body res = inr e ->
     r = (Throw e, st)) /\
  (forall text,
     status res <> 202 -> status res <> 204 -> body res = inl text ->
     (trim text = [] -> r = (Ret empty, st)) /\
     (trim text <> [] -> json = false ->
        r = (Ret (VObj [(js "_raw", VStr text);
                        (js "_status", VNum (status res))]), st)) /\
     (forall v, trim text <> [] -> json = true -> JSON_parse text = inl v ->
        r = (Ret v, st)) /\
     (forall e, trim text <> [] -> json = true -> JSON_parse text = inr e ->
        exists shown mark,
          r = (Throw (mkError (js "Failed to parse JSON (status "
                                 ++ of_Z (status res)
                                 ++ js "). Body starts with:" ++ [10%N]
                                 ++ shown ++ mark)), st) /\
          shown = firstn 800 text /\
          shown <> [] /\
          (List.length shown <= 800)%nat /\
          ((List.length text <= 800)%nat -> shown = text /\ mark = []) /\
          ((800 < List.length text)%nat -> mark = ellipsis))).
Proof.
  intros r json empty. subst r json empty. unfold Poller.safeJson.
  split; [|split].
  - intros [H|H]; rewrite H; reflexivity.
  - intros e H202 H204 Hbody.
    apply Z.eqb_neq in H202. apply Z.eqb_neq in H204.
    rewrite H202, H204. simpl orb. cbv iota.
    unfold bind, res_text. rewrite Hbody. reflexivity.
  - intros text H202 H204 Hbody.
    apply Z.eqb_neq in H202. apply Z.eqb_neq in H204.
    rewrite H202, H204. simpl orb. cbv iota.
    unfold bind, res_text. rewrite Hbody. unfold ret.
    assert (Hblank : trim text = [] ->
              negb (truthy (VStr text)) || str_eqb (trim text) [] = true).
    { intros Ht. rewrite Ht. apply orb_true_r. }
    assert (Hfull : trim text <> [] ->
              negb (truthy (VStr text)) || str_eqb (trim text) [] = false).
    { intros Ht. destruct text as [|c text]; [elim Ht; reflexivity|].
      simpl negb. simpl orb.
      destruct (str_eqb (trim (c :: text)) []) eqn:Heq; [|reflexivity].
      apply str_eqb_eq in Heq. contradiction. }
    repeat split.
    + intros Ht. rewrite (Hblank Ht). reflexivity.
    + intros Ht Hj. rewrite (Hfull Ht), Hj. reflexivity.
    + intros v Ht Hj Hp. rewrite (Hfull Ht), Hj, Hp. reflexivity.
    + intros e Ht Hj Hp. rewrite (Hfull Ht), Hj, Hp. simpl negb. cbv iota.
      destruct (snippet_shape text) as (mark & Hs & Hshort & Hlong).
      exists (firstn 800 text), mark.
      split; [unfold throw, Poller.decode_error; rewrite Hs; reflexivity|].
      split; [reflexivity|]. split.
      { destruct text as [|c text]; [elim Ht; reflexivity|discriminate]. }
      split; [apply firstn_le_length|]. split; assumption.
Qed.

Lemma safeJson_classifies_witness :
  Poller.safeJson MiniJson.parse r204 st0
    = (Ret (VObj [(js "_empty", VBool true); (js "_status", VNum 204)]), st0) /\
  Poller.safeJson MiniJson.parse r_blank st0
    = (Ret (VObj [(js "_empty", VBool true); (js "_status", VNum 200)]), st0) /\
  Poller.safeJson MiniJson.parse r_text st0
    = (Ret (VObj [(js "_raw", VStr (js "hello")); (js "_status", VNum 200)]), st0) /\
  Poller.safeJson MiniJson.parse r_json st0
    = (Ret (VObj [(js "value", VArr [VObj [(js "id", VStr (js "a"))]])]), st0) /\
  Poller.safeJson MiniJson.parse r_unreadable st0
    = (Throw (mkError (js "stream closed")), st0) /\
  exists shown mark,
    Poller.safeJson MiniJson.parse r_malformed st0
      = (Throw (mkError (js "Failed to parse JSON (status " ++ of_Z 200
                           ++ js "). Body starts with:" ++ [10%N]
                           ++ shown ++ mark)), st0) /\
    shown = firstn 800 (MiniJson.json "{'value':") /\
    shown <> [] /\
    (List.length shown <= 800)%nat /\
    ((List.length (MiniJson.json "{'value':") <= 800)%nat ->
     shown = MiniJson.json "{'value':" /\ mark = []) /\
    ((800 < List.length (MiniJson.json "{'value':"))%nat -> mark = ellipsis).
Proof.
  split; [|split; [|split; [|split; [|split]]]].
  - apply (proj1 (safeJson_classifies MiniJson.parse r204 st0)).
    right. reflexivity.
  - refine (proj1 (proj2 (proj2 (safeJson_classifies MiniJson.parse r_blank st0))
                          (js "  ") _ _ _) _);
      try reflexivity; simpl; discriminate.
  - refine (proj1 (proj2 (proj2 (proj2
              (safeJson_classifies MiniJson.parse r_text st0))
              (js "hello") _ _ _)) _ _);
      try reflexivity; simpl; discriminate.
  - refine (proj1 (proj2 (proj2 (proj2 (proj2
              (safeJson_classifies MiniJson.parse r_json st0))
              (MiniJson.json "{'value':[{'id':'a'}]}") _ _ _))) _ _ _ _);
      try reflexivity; simpl; discriminate.
  - refine (proj1 (proj2 (safeJson_classifies MiniJson.parse r_unreadable st0))
              (mkError (js "stream closed")) _ _ _);
      try reflexivity; simpl; discriminate.
  - refine (proj2 (proj2 (proj2 (proj2 (proj2
              (safeJson_classifies MiniJson.parse r_malformed st0))
              (MiniJson.json "{'value':") _ _ _))) MiniJson.SyntaxError _ _ _);
      try reflexivity; simpl; discriminate.
Defined.

(* ===================================================================== *)
(** * The summary printer *)
(* ===================================================================== *)

Ltac by_nullish :=
  unfold coalesce; simpl;
  repeat match goal with
         | H : nullish ?v = _ |- context [nullish ?v] => rewrite H
         | |- context [if nullish ?v then _ else _] =>
             is_var v; destruct (nullish v) eqn:?
         end;
  reflexivity.

Lemma chain3 (a b c : value) : a ?? b ?? c = first_defined [a; b; c].
Proof. by_nullish. Qed.

Lemma chain4 (a b c d : value) : a ?? b ?? c ?? d = first_defined [a; b; c; d].
Proof. by_nullish. Qed.

(** C6.  The fields of a summary are resolved by the fallback chains
    id, transcriptId, metadata.id (else "unknown"); language, locale,
    metadata.language; text, content, combinedText, alternatives[0].text.
    For the object with transcriptId "x", locale "en-US" and content "hi"
    they resolve to "x", "en-US" and "hi"; created and speaker are
    undefined, and the printer writes the header with id and lang only,
    then the text line. *)
Theorem summary_field_fallback :
  (forall obj,
     Poller.pp_id obj
     = first_defined [get obj "id"; get obj "transcriptId";
                      get (get obj "metadata") "id"; VStr (js "unknown")] /\
     Poller.pp_lang obj
     = first_defined [get obj "language"; get obj "locale";
                      get (get obj "metadata") "language"] /\
     Poller.pp_text obj
     = first_defined [get obj "text"; get obj "content"; get obj "combinedText";
                      if isArray (get obj "alternatives")
                      then get (index0 (get obj "alternatives")) "text"
                      else VUndefined]) /\
  Poller.pp_id fragment_x = VStr (js "x") /\
  Poller.pp_lang fragment_x = VStr (js "en-US") /\
  Poller.pp_text fragment_x = VStr (js "hi") /\
  Poller.pp_created fragment_x = VUndefined /\
  Poller.pp_speaker fragment_x = VUndefined /\
  forall st,
    Poller.prettyPrintTranscript fragment_x st
    = (Ret tt,
       emit (EvLog (js "  hi"))
         (emit (EvLog (bullet ++ js " id: x | lang: en-US")) st)).
Proof.
  split; [|repeat split; intros; reflexivity].
  intros obj. unfold Poller.pp_id, Poller.pp_lang, Poller.pp_text.
  rewrite chain4, chain3, chain4. repeat split.
Qed.

(* ===================================================================== *)
(** * The seen-set *)
(* ===================================================================== *)

Lemma sameValueZero_eq (a b : value) : sameValueZero a b = true -> a = b.
Proof.
  destruct a, b; simpl; intros H; try discriminate; try reflexivity.
  - apply Bool.eqb_prop in H. subst. reflexivity.
  - apply Z.eqb_eq in H. subst. reflexivity.
  - apply str_eqb_eq in H. subst. reflexivity.
Qed.

Lemma sameValueZero_refl (a : value) : primitive a = true -> sameValueZero a a = true.
Proof.
  destruct a; simpl; intros H; try discriminate; try reflexivity.
  - apply Bool.eqb_reflx.
  - apply Z.eqb_refl.
  - apply str_eqb_refl.
Qed.

Lemma has_app (x : value) (a b : list value) : has x (a ++ b) = has x a || has x b.
Proof. unfold has. apply existsb_app. Qed.

Lemma has_cons (x y : value) (l : list value) :
  has x (y :: l) = sameValueZero x y || has x l.
Proof. reflexivity. Qed.


Lemma In_has (x : value) (s : list value) :
  primitive x = true -> In x s -> has x s = true.
Proof.
  intros Hp Hi. unfold has. apply existsb_exists. exists x.
  split; [exact Hi|apply sameValueZero_refl; exact Hp].
Qed.

Lemma has_add (x y : value) (s : list value) :
  has x (add y s) = has x s || sameValueZero x y.
Proof.
  unfold add. destruct (has y s) eqn:Hy.
  - destruct (sameValueZero x y) eqn:Hxy.
    + apply sameValueZero_eq in Hxy. subst. rewrite Hy. reflexivity.
    + rewrite orb_false_r. reflexivity.
  - rewrite has_app. simpl. rewrite orb_false_r. reflexivity.
Qed.


Lemma has_fold_add (x : value) (l s : list value) :
  has x (fold_left (fun acc id => add id acc) l s) = has x (s ++ l).
Proof.
  revert s. induction l as [|y l IH]; intros s; simpl.
  - rewrite app_nil_r. reflexivity.
  - rewrite IH, !has_app, has_add, has_cons, orb_assoc. reflexivity.
Qed.



Lemma poller_item_seen E JSON_parse cfg (t : value) (st : State) :
  has (item_id t) (seen st) = true ->
  Poller.process_item E JSON_parse cfg t st = (Ret tt, st).
Proof.
  intros H. unfold Poller.process_item, bind, seen_has. rewrite H.
  rewrite orb_true_r. reflexivity.
Qed.

Lemma index_item_seen E JSON_parse cfg (t : value) (st : State) :
  nullish t = false ->
  has (item_id t) (seen st) = true ->
  IndexJs.process_item E JSON_parse cfg t st = (Ret tt, st).
Proof.
  intros Ht H. unfold IndexJs.process_item, IndexJs.get_strict, bind, seen_has.
  rewrite Ht. unfold ret. rewrite H, orb_true_r. reflexivity.
Qed.

Lemma poller_item_new E JSON_parse cfg (t : value) (st : State) :
  truthy (item_id t) = true ->
  has (item_id t) (seen st) = false ->
  Poller.process_item E JSON_parse cfg t st
  = Poller.process_new E JSON_parse cfg t (item_id t)
      (with_seen (seen st ++ [item_id t]) st).
Proof.
  intros Ht H. unfold Poller.process_item, bind, seen_has, seen_add, add.
  rewrite H, Ht. cbn [negb orb]. rewrite H. reflexivity.
Qed.

Lemma index_item_new E JSON_parse cfg (t : value) (st : State) :
  truthy (item_id t) = true ->
  has (item_id t) (seen st) = false ->
  IndexJs.process_item E JSON_parse cfg t st
  = IndexJs.process_new E JSON_parse cfg t (item_id t)
      (with_seen (seen st ++ [item_id t]) st).
Proof.
  intros Ht H.
  assert (Hn : nullish t = false).
  { destruct t; try reflexivity; discriminate Ht. }
  unfold IndexJs.process_item, IndexJs.get_strict, bind, seen_has, seen_add, add.
  rewrite Hn. unfold ret. rewrite H, Ht. cbn [negb orb]. rewrite H.
  reflexivity.
Qed.

(* ===================================================================== *)
(** * What every step of the program preserves *)
(* ===================================================================== *)

Lemma extends_refl st : extends st st.
Proof. split; [exists []; symmetry; apply app_nil_r|auto]. Qed.

Lemma extends_trans a b c : extends a b -> extends b c -> extends a c.
Proof.
  intros [[e1 H1] S1] [[e2 H2] S2]. split.
  - exists (e1 ++ e2). rewrite H2, H1, app_assoc. reflexivity.
  - auto.
Qed.

Lemma extends_emit e st : extends st (emit e st).
Proof. split; [exists [e]; reflexivity|auto]. Qed.

Lemma mono_ret {A} (a : A) : mono (ret a).
Proof. intros st. apply extends_refl. Qed.

Lemma mono_throw {A} (e : JsError) : mono (@throw A e).
Proof. intros st. apply extends_refl. Qed.

Lemma mono_fuel {A} : mono (@out_of_fuel A).
Proof. intros st. apply extends_refl. Qed.

Lemma mono_bind {A B} (m : M A) (k : A -> M B) :
  mono m -> (forall a, mono (k a)) -> mono (bind m k).
Proof.
  intros Hm Hk st. unfold bind. specialize (Hm st).
  destruct (m st) as [[a|e|] st1]; simpl in *; try exact Hm.
  eapply extends_trans; [exact Hm|apply Hk].
Qed.

Lemma mono_try {A} (m : M A) (h : JsError -> M A) :
  mono m -> (forall e, mono (h e)) -> mono (try_catch m h).
Proof.
  intros Hm Hh st. unfold try_catch. specialize (Hm st).
  destruct (m st) as [[a|e|] st1]; simpl in *; try exact Hm.
  eapply extends_trans; [exact Hm|apply Hh].
Qed.

Lemma mono_when (b : bool) (m : M unit) : mono m -> mono (when_ b m).
Proof. intros H. destruct b; [exact H|apply mono_ret]. Qed.

Lemma total_ret {A} (a : A) : total (ret a).
Proof. intros st; discriminate. Qed.

Lemma total_throw {A} (e : JsError) : total (@throw A e).
Proof. intros st; discriminate. Qed.

Lemma total_bind {A B} (m : M A) (k : A -> M B) :
  total m -> (forall a, total (k a)) -> total (bind m k).
Proof.
  intros Hm Hk st. unfold bind. specialize (Hm st).
  destruct (m st) as [[a|e|] st1]; simpl in *;
    [apply Hk|discriminate|elim Hm; reflexivity].
Qed.

Lemma total_try {A} (m : M A) (h : JsError -> M A) :
  total m -> (forall e, total (h e)) -> total (try_catch m h).
Proof.
  intros Hm Hh st. unfold try_catch. specialize (Hm st).
  destruct (m st) as [[a|e|] st1]; simpl in *;
    [discriminate|apply Hh|elim Hm; reflexivity].
Qed.

Lemma total_when (b : bool) (m : M unit) : total m -> total (when_ b m).
Proof. intros H. destruct b; [exact H|apply total_ret]. Qed.

Lemma safe_ret {A} (a : A) : safe (ret a).
Proof. intros st; exists a; reflexivity. Qed.

Lemma safe_bind {A B} (m : M A) (k : A -> M B) :
  safe m -> (forall a, safe (k a)) -> safe (bind m k).
Proof.
  intros Hm Hk st. unfold bind. destruct (Hm st) as [a Ha].
  destruct (m st) as [[a'|e|] st1]; simpl in *; try discriminate.
  apply Hk.
Qed.

Lemma safe_try {A} (m : M A) (h : JsError -> M A) :
  total m -> (forall e, safe (h e)) -> safe (try_catch m h).
Proof.
  intros Hm Hh st. unfold try_catch. specialize (Hm st).
  destruct (m st) as [[a|e|] st1]; simpl in *.
  - exists a; reflexivity.
  - apply Hh.
  - contradiction.
Qed.

Lemma safe_when (b : bool) (m : M unit) : safe m -> safe (when_ b m).
Proof. intros H. destruct b; [exact H|apply safe_ret]. Qed.

Lemma safe_total {A} (m : M A) : safe m -> total m.
Proof. intros H st. destruct (H st) as [a Ha]. rewrite Ha. discriminate. Qed.

Section Primitives.

Variable E : Env.

Lemma mono_log s : mono (console_log s).
Proof. intros st. apply extends_emit. Qed.

Lemma mono_warn s : mono (console_warn s).
Proof. intros st. apply extends_emit. Qed.

Lemma mono_dir v : mono (console_dir v).
Proof. intros st. apply extends_emit. Qed.

Lemma mono_sleep ms : mono (sleep ms).
Proof. intros st. apply extends_emit. Qed.

Lemma mono_now : mono (Date_now E).
Proof. intros st. split; [exists []; symmetry; apply app_nil_r|auto]. Qed.

Lemma mono_fetch rq : mono (fetch E rq).
Proof.
  intros st. unfold fetch.
  destruct (net E (n_fetch st) rq); (split; [exists [EvFetch rq]; reflexivity|auto]).
Qed.

Lemma mono_acquire : mono (acquireTokenByClientCredential E).
Proof.
  intros st. unfold acquireTokenByClientCredential.
  destruct (idp E (n_idp st)); (split; [exists [EvAcquire]; reflexivity|auto]).
Qed.

Lemma mono_res_text r : mono (res_text r).
Proof. unfold res_text. destruct (body r); [apply mono_ret|apply mono_throw]. Qed.

Lemma mono_set_token v : mono (set_token v).
Proof. intros st. split; [exists []; symmetry; apply app_nil_r|auto]. Qed.

Lemma mono_set_at t : mono (set_tokenAcquiredAt t).
Proof. intros st. split; [exists []; symmetry; apply app_nil_r|auto]. Qed.

Lemma mono_get_token : mono get_token.
Proof. intros st. apply extends_refl. Qed.

Lemma mono_get_at : mono get_tokenAcquiredAt.
Proof. intros st. apply extends_refl. Qed.

Lemma mono_seen_has id : mono (seen_has id).
Proof. intros st. apply extends_refl. Qed.

Lemma mono_seen_add id : mono (seen_add id).
Proof.
  intros st. split; [exists []; symmetry; apply app_nil_r|].
  intros x Hx. simpl. rewrite has_add, Hx. reflexivity.
Qed.

Lemma mono_encode s : mono (encode s).
Proof. unfold encode. destruct (encodeURIComponent s); [apply mono_ret|apply mono_throw]. Qed.

Lemma total_log s : total (console_log s).
Proof. intros st; discriminate. Qed.

Lemma total_warn s : total (console_warn s).
Proof. intros st; discriminate. Qed.

Lemma total_dir v : total (console_dir v).
Proof. intros st; discriminate. Qed.

Lemma total_sleep ms : total (sleep ms).
Proof. intros st; discriminate. Qed.

Lemma total_now : total (Date_now E).
Proof. intros st; discriminate. Qed.

Lemma total_fetch rq : total (fetch E rq).
Proof. intros st. unfold fetch. destruct (net E (n_fetch st) rq); discriminate. Qed.

Lemma total_acquire : total (acquireTokenByClientCredential E).
Proof.
  intros st. unfold acquireTokenByClientCredential.
  destruct (idp E (n_idp st)); discriminate.
Qed.

Lemma total_res_text r : total (res_text r).
Proof. unfold res_text. destruct (body r); [apply total_ret|apply total_throw]. Qed.

Lemma total_set_token v : total (set_token v).
Proof. intros st; discriminate. Qed.

Lemma total_set_at t : total (set_tokenAcquiredAt t).
Proof. intros st; discriminate. Qed.

Lemma total_get_token : total get_token.
Proof. intros st; discriminate. Qed.

Lemma total_get_at : total get_tokenAcquiredAt.
Proof. intros st; discriminate. Qed.

Lemma total_seen_has id : total (seen_has id).
Proof. intros st; discriminate. Qed.

Lemma total_seen_add id : total (seen_add id).
Proof. intros st; discriminate. Qed.

Lemma total_encode s : total (encode s).
Proof. unfold encode. destruct (encodeURIComponent s); [apply total_ret|apply total_throw]. Qed.

Lemma mono_ToString v : mono (ToString v).
Proof. unfold ToString. destruct (stringifiable v); [apply mono_ret|apply mono_throw]. Qed.

Lemma total_ToString v : total (ToString v).
Proof. unfold ToString. destruct (stringifiable v); [apply total_ret|apply total_throw]. Qed.

Lemma safe_ToString v : stringifiable v = true -> safe (ToString v).
Proof. intros H. unfold ToString. rewrite H. apply safe_ret. Qed.

Lemma safe_log s : safe (console_log s).
Proof. intros st; exists tt; reflexivity. Qed.

Lemma safe_warn s : safe (console_warn s).
Proof. intros st; exists tt; reflexivity. Qed.

Lemma safe_dir v : safe (console_dir v).
Proof. intros st; exists tt; reflexivity. Qed.

Lemma safe_sleep ms : safe (sleep ms).
Proof. intros st; exists tt; reflexivity. Qed.

End Primitives.

Create HintDb mono.
#[export] Hint Resolve mono_ret mono_throw mono_fuel mono_when mono_log mono_warn
  mono_dir mono_sleep mono_now mono_fetch mono_acquire mono_res_text
  mono_set_token mono_set_at mono_get_token mono_get_at mono_seen_has
  mono_seen_add mono_encode mono_ToString : mono.

Create HintDb total.
#[export] Hint Resolve total_ret total_throw total_when total_log total_warn
  total_dir total_sleep total_now total_fetch total_acquire total_res_text
  total_set_token total_set_at total_get_token total_get_at total_seen_has
  total_seen_add total_encode total_ToString : total.

Create HintDb safe.
#[export] Hint Resolve safe_ret safe_when safe_log safe_warn safe_dir safe_sleep
  : safe.

(** Walks through a computation written with [bind], [if] and [match]. *)
Ltac step_through bind_lemma try_lemma when_lemma close :=
  repeat first
    [ solve [close]
    | match goal with
      | |- _ (bind _ _) => apply bind_lemma; [|intros]
      | |- _ (try_catch _ _) => apply try_lemma; [|intros]
      | |- _ (when_ _ _) => apply when_lemma
      | |- _ (if ?b then _ else _) => destruct b
      | |- _ (match ?x with _ => _ end) => destruct x
      | |- _ (let _ := _ in _) => cbv zeta
      end ].

Ltac mono_steps :=
  step_through @mono_bind @mono_try mono_when ltac:(auto with mono).
Ltac total_steps :=
  step_through @total_bind @total_try total_when ltac:(auto with total).

Section Preservation.

Variable E : Env.
Variable JSON_parse : jsstring -> value + JsError.
Variable cfg : Config.


Lemma total_getToken : total (getToken E).
Proof. unfold getToken. total_steps. Qed.


Lemma total_listUrl m : total (transcriptsListUrl m).
Proof. unfold transcriptsListUrl. total_steps. Qed.

Lemma mono_detailUrl m t : mono (transcriptDetailUrl m t).
Proof. unfold transcriptDetailUrl. mono_steps. Qed.

Lemma total_detailUrl m t : total (transcriptDetailUrl m t).
Proof. unfold transcriptDetailUrl. total_steps. Qed.


Lemma total_refresh : total (refresh_if_stale E).
Proof. unfold refresh_if_stale. pose proof total_getToken. total_steps. Qed.


Lemma total_on_poll_error e : total (on_poll_error E e).
Proof. unfold on_poll_error. pose proof total_getToken. total_steps. Qed.

Lemma mono_for_of items body : (forall t, mono (body t)) -> mono (for_of items body).
Proof.
  intros Hb. induction items as [|t items IH]; simpl.
  - apply mono_ret.
  - apply mono_bind; [apply Hb|intros; exact IH].
Qed.

Lemma total_for_of items body : (forall t, total (body t)) -> total (for_of items body).
Proof.
  intros Hb. induction items as [|t items IH]; simpl.
  - apply total_ret.
  - apply total_bind; [apply Hb|intros; exact IH].
Qed.

Lemma safe_for_of items body :
  (forall t, In t items -> safe (body t)) -> safe (for_of items body).
Proof.
  induction items as [|t items IH]; intros Hb; simpl.
  - apply safe_ret.
  - apply safe_bind; [apply Hb; left; reflexivity|].
    intros _. apply IH. intros t' Ht'. apply Hb. right. exact Ht'.
Qed.

(** ** The revision with the tolerant decoder *)

Lemma poller_mono_retry fuel rq m a : mono (Poller.fetchWithRetry_loop E fuel rq m a).
Proof.
  revert a. induction fuel as [|fuel IH]; intros a; simpl.
  - apply mono_fuel.
  - mono_steps; apply IH.
Qed.

(** The retry loop ends within [max 1 maxAttempts] turns. *)
Lemma poller_total_retry fuel rq m a :
  (1 <= fuel)%nat -> m - a <= Z.of_nat fuel ->
  total (Poller.fetchWithRetry_loop E fuel rq m a).
Proof.
  revert a. induction fuel as [|fuel IH]; intros a H1 Hm; [lia|]. simpl.
  apply total_bind; [auto with total|]. intros res.
  destruct (negb (ok res)); [|auto with total].
  destruct (retryable res (a + 1) m) eqn:Hr; [|auto with total].
  apply total_bind; [auto with total|]. intros _.
  apply total_bind; [auto with total|]. intros _.
  unfold retryable in Hr. apply andb_true_iff in Hr. destruct Hr as [_ Hr].
  apply Z.ltb_lt in Hr. apply IH; lia.
Qed.

Lemma poller_mono_fetchWithRetry rq m : mono (Poller.fetchWithRetry E rq m).
Proof. apply poller_mono_retry. Qed.

Lemma poller_total_fetchWithRetry rq m : total (Poller.fetchWithRetry E rq m).
Proof. apply poller_total_retry; lia. Qed.

Lemma poller_mono_safeJson res : mono (Poller.safeJson JSON_parse res).
Proof. unfold Poller.safeJson. mono_steps. Qed.

Lemma poller_total_safeJson res : total (Poller.safeJson JSON_parse res).
Proof. unfold Poller.safeJson. total_steps. Qed.


Lemma poller_total_list tok m : total (Poller.listTranscripts E JSON_parse cfg tok m).
Proof.
  unfold Poller.listTranscripts.
  pose proof total_listUrl. pose proof poller_total_fetchWithRetry.
  pose proof poller_total_safeJson. total_steps.
Qed.

Lemma poller_mono_detail tok m id :
  mono (Poller.getTranscript E JSON_parse cfg tok m id).
Proof.
  unfold Poller.getTranscript.
  pose proof mono_detailUrl. pose proof poller_mono_fetchWithRetry.
  pose proof poller_mono_safeJson. mono_steps.
Qed.

Lemma poller_total_detail tok m id :
  total (Poller.getTranscript E JSON_parse cfg tok m id).
Proof.
  unfold Poller.getTranscript.
  pose proof total_detailUrl. pose proof poller_total_fetchWithRetry.
  pose proof poller_total_safeJson. total_steps.
Qed.

Lemma mono_labelled label v : mono (Poller.labelled label v).
Proof. unfold Poller.labelled. mono_steps. Qed.

Lemma total_labelled label v : total (Poller.labelled label v).
Proof. unfold Poller.labelled. total_steps. Qed.

Lemma mono_pp_header obj : mono (Poller.pp_header obj).
Proof. unfold Poller.pp_header. pose proof mono_labelled. mono_steps. Qed.

Lemma total_pp_header obj : total (Poller.pp_header obj).
Proof. unfold Poller.pp_header. pose proof total_labelled. total_steps. Qed.

Lemma mono_pp_print obj text header : mono (Poller.pp_print obj text header).
Proof. unfold Poller.pp_print. mono_steps. Qed.

Lemma total_pp_print obj text header : total (Poller.pp_print obj text header).
Proof. unfold Poller.pp_print. total_steps. Qed.

Lemma poller_mono_pretty obj : mono (Poller.prettyPrintTranscript obj).
Proof.
  unfold Poller.prettyPrintTranscript.
  pose proof mono_pp_header. pose proof mono_pp_print. mono_steps.
Qed.

Lemma poller_total_pretty obj : total (Poller.prettyPrintTranscript obj).
Proof.
  unfold Poller.prettyPrintTranscript.
  pose proof total_pp_header. pose proof total_pp_print. total_steps.
Qed.

Lemma poller_mono_process_new t id : mono (Poller.process_new E JSON_parse cfg t id).
Proof.
  unfold Poller.process_new.
  pose proof poller_mono_pretty. pose proof poller_mono_detail. mono_steps.
Qed.

Lemma poller_total_process_new t id :
  total (Poller.process_new E JSON_parse cfg t id).
Proof.
  unfold Poller.process_new.
  pose proof poller_total_pretty.
  pose proof poller_total_detail. total_steps.
Qed.

Lemma poller_mono_process_item t : mono (Poller.process_item E JSON_parse cfg t).
Proof.
  unfold Poller.process_item. pose proof poller_mono_process_new. mono_steps.
Qed.

Lemma poller_total_process_item t : total (Poller.process_item E JSON_parse cfg t).
Proof.
  unfold Poller.process_item. pose proof poller_total_process_new. total_steps.
Qed.


Lemma poller_total_poll_once : total (Poller.poll_once E JSON_parse cfg).
Proof.
  unfold Poller.poll_once, Poller.list_and_process.
  pose proof total_refresh. pose proof poller_total_list.
  pose proof (fun items => total_for_of items _ poller_total_process_item).
  total_steps.
Qed.


Lemma poller_total_iteration : total (Poller.iteration E JSON_parse cfg).
Proof.
  unfold Poller.iteration.
  pose proof poller_total_poll_once. pose proof total_on_poll_error. total_steps.
Qed.


(** ** The revision that reads bodies with [res.json()] *)

Lemma index_mono_retry fuel rq m a : mono (IndexJs.fetchWithRetry_loop E fuel rq m a).
Proof.
  revert a. induction fuel as [|fuel IH]; intros a; simpl.
  - apply mono_fuel.
  - mono_steps; apply IH.
Qed.

Lemma index_total_retry fuel rq m a :
  (1 <= fuel)%nat -> m - a <= Z.of_nat fuel ->
  total (IndexJs.fetchWithRetry_loop E fuel rq m a).
Proof.
  revert a. induction fuel as [|fuel IH]; intros a H1 Hm; [lia|]. simpl.
  apply total_bind; [auto with total|]. intros res.
  destruct (ok res); [auto with total|].
  destruct (retryable res (a + 1) m) eqn:Hr; [|auto with total].
  apply total_bind; [auto with total|]. intros _.
  apply total_bind; [auto with total|]. intros _.
  unfold retryable in Hr. apply andb_true_iff in Hr. destruct Hr as [_ Hr].
  apply Z.ltb_lt in Hr. apply IH; lia.
Qed.

Lemma index_mono_fetchWithRetry rq m : mono (IndexJs.fetchWithRetry E rq m).
Proof. apply index_mono_retry. Qed.

Lemma index_total_fetchWithRetry rq m : total (IndexJs.fetchWithRetry E rq m).
Proof. apply index_total_retry; lia. Qed.

Lemma index_mono_res_json res : mono (IndexJs.res_json JSON_parse res).
Proof. unfold IndexJs.res_json. mono_steps. Qed.

Lemma index_total_res_json res : total (IndexJs.res_json JSON_parse res).
Proof. unfold IndexJs.res_json. total_steps. Qed.


Lemma index_total_list tok m : total (IndexJs.listTranscripts E JSON_parse tok m).
Proof.
  unfold IndexJs.listTranscripts.
  pose proof total_listUrl. pose proof index_total_fetchWithRetry.
  pose proof index_total_res_json. total_steps.
Qed.

Lemma index_mono_detail tok m id : mono (IndexJs.getTranscript E JSON_parse tok m id).
Proof.
  unfold IndexJs.getTranscript.
  pose proof mono_detailUrl. pose proof index_mono_fetchWithRetry.
  pose proof index_mono_res_json. mono_steps.
Qed.

Lemma index_total_detail tok m id :
  total (IndexJs.getTranscript E JSON_parse tok m id).
Proof.
  unfold IndexJs.getTranscript.
  pose proof total_detailUrl. pose proof index_total_fetchWithRetry.
  pose proof index_total_res_json. total_steps.
Qed.

Lemma index_mono_get_strict o p : mono (IndexJs.get_strict o p).
Proof. unfold IndexJs.get_strict. mono_steps. Qed.

Lemma index_total_get_strict o p : total (IndexJs.get_strict o p).
Proof. unfold IndexJs.get_strict. total_steps. Qed.

Lemma index_mono_pretty obj : mono (IndexJs.prettyPrintTranscript obj).
Proof.
  unfold IndexJs.prettyPrintTranscript. pose proof index_mono_get_strict.
  pose proof mono_pp_header. pose proof mono_pp_print. mono_steps.
Qed.

Lemma index_total_pretty obj : total (IndexJs.prettyPrintTranscript obj).
Proof.
  unfold IndexJs.prettyPrintTranscript. pose proof index_total_get_strict.
  pose proof total_pp_header. pose proof total_pp_print. total_steps.
Qed.

Lemma index_mono_fetch_detail id : mono (IndexJs.fetch_detail E JSON_parse cfg id).
Proof.
  unfold IndexJs.fetch_detail.
  pose proof index_mono_detail. pose proof index_mono_pretty. mono_steps.
Qed.

Lemma index_total_fetch_detail id : total (IndexJs.fetch_detail E JSON_parse cfg id).
Proof.
  unfold IndexJs.fetch_detail.
  pose proof index_total_detail. pose proof index_total_pretty. total_steps.
Qed.

(** The inner [try]/[catch] lets no error out, as long as its handler can
    name the identifier. *)
Lemma index_safe_fetch_detail id :
  stringifiable id = true -> safe (IndexJs.fetch_detail E JSON_parse cfg id).
Proof.
  intros Hid. unfold IndexJs.fetch_detail. apply safe_try.
  - pose proof index_total_detail. pose proof index_total_pretty. total_steps.
  - intros e. apply safe_bind; [apply safe_ToString; exact Hid|].
    intros s. apply safe_warn.
Qed.

Lemma index_mono_process_new t id : mono (IndexJs.process_new E JSON_parse cfg t id).
Proof.
  unfold IndexJs.process_new.
  pose proof index_mono_pretty. pose proof index_mono_fetch_detail. mono_steps.
Qed.

Lemma index_mono_process_item t : mono (IndexJs.process_item E JSON_parse cfg t).
Proof.
  unfold IndexJs.process_item.
  pose proof index_mono_get_strict. pose proof index_mono_process_new.
  mono_steps.
Qed.




End Preservation.

(* ===================================================================== *)
(** * The seen-set over the run *)
(* ===================================================================== *)

Section Retention.

Variable E : Env.
Variable JSON_parse : jsstring -> value + JsError.
Variable cfg : Config.





End Retention.



(* ===================================================================== *)
(** * A fragment is marked before its detail is fetched *)
(* ===================================================================== *)

Lemma has_appended (id : value) (s : list value) :
  primitive id = true -> has id (s ++ [id]) = true.
Proof.
  intros Hp. apply In_has; [exact Hp|]. apply in_or_app. right. left. reflexivity.
Qed.



(* ===================================================================== *)
(** * Errors of a single fragment's detail *)
(* ===================================================================== *)

(** C1, evaluated on the revision with the tolerant decoder.  In one turn of
    the loop over the fragments "a" and "b", the failing detail fetch of "a"
    ends the [for]: the error is logged by the handler of the outer [catch],
    and "b" is neither marked nor announced nor fetched in that turn.  (The
    revision with the inner [try]/[catch] goes on to "b" in the same turn.) *)
Theorem detail_error_skips_siblings :
  let st1 := after_startup env_detail_fails st0 in
  let r := Poller.iteration env_detail_fails MiniJson.parse cfg0 st1 in
  let r' := IndexJs.iteration env_detail_fails MiniJson.parse cfg0 st1 in
  fst r = Ret tt /\
  seen (snd r) = [VStr (js "a")] /\
  fetches (trace (snd r)) = [bearer list_url "t0"; bearer (detail_url "a") "t0"] /\
  In (EvWarn (js "Poll error: HTTP 500 Internal Server Error" ++ [10%N] ++ js "boom"))
     (trace (snd r)) /\
  fst r' = Ret tt /\
  seen (snd r') = [VStr (js "a"); VStr (js "b")] /\
  fetches (trace (snd r'))
  = [bearer list_url "t0"; bearer (detail_url "a") "t0"; bearer (detail_url "b") "t0"].
Proof.
  vm_compute. repeat split.
  repeat first [left; reflexivity | right].
Qed.

(* ===================================================================== *)
(** * The handler of the outer [catch] *)
(* ===================================================================== *)

Section Handler.

Variable E : Env.

Lemma getToken_ok (st : State) (r : value) :
  idp E (n_idp st) = inl r -> truthy (get r "accessToken") = true ->
  getToken E st = (Ret (get r "accessToken"), emit EvAcquire (bump_idp st)).
Proof.
  intros Hi Ht. unfold getToken, bind, acquireTokenByClientCredential.
  rewrite Hi, Ht. reflexivity.
Qed.

Lemma getToken_no_token (st : State) (r : value) :
  idp E (n_idp st) = inl r -> truthy (get r "accessToken") = false ->
  getToken E st
  = (Throw (mkError (js "Failed to get app token")), emit EvAcquire (bump_idp st)).
Proof.
  intros Hi Ht. unfold getToken, bind, acquireTokenByClientCredential.
  rewrite Hi, Ht. reflexivity.
Qed.

Lemma getToken_rejected (st : State) (e : JsError) :
  idp E (n_idp st) = inr e ->
  getToken E st = (Throw e, emit EvAcquire (bump_idp st)).
Proof.
  intros Hi. unfold getToken, bind, acquireTokenByClientCredential.
  rewrite Hi. reflexivity.
Qed.

(** [getToken] asks the identity provider exactly once, whatever comes
    back. *)
Lemma getToken_state (st : State) :
  snd (getToken E st) = emit EvAcquire (bump_idp st).
Proof.
  unfold getToken, bind, acquireTokenByClientCredential.
  destruct (idp E (n_idp st)) as [r|e]; [|reflexivity].
  destruct (negb (truthy (get r "accessToken"))); reflexivity.
Qed.

Lemma handler_other (err : JsError) (st : State) :
  includes (js "401") (message err) = false ->
  on_poll_error E err st
  = (Ret tt, emit (EvWarn (js "Poll error: " ++ message err)) st).
Proof. intros H. unfold on_poll_error. rewrite H. reflexivity. Qed.

Lemma handler_401 (err : JsError) (st : State) :
  includes (js "401") (message err) = true ->
  on_poll_error E err st
  = bind (getToken E)
      (fun t => set_token t ;; now <- Date_now E ;; set_tokenAcquiredAt now)
      (warned_401 st).
Proof. intros H. unfold on_poll_error. rewrite H. reflexivity. Qed.

Lemma handler_401_ok (err : JsError) (st : State) (r : value) :
  includes (js "401") (message err) = true ->
  idp E (n_idp st) = inl r -> truthy (get r "accessToken") = true ->
  on_poll_error E err st
  = (Ret tt, refreshed E (get r "accessToken") (warned_401 st)).
Proof.
  intros H Hi Ht. rewrite (handler_401 _ _ H). unfold bind at 1.
  rewrite (getToken_ok (warned_401 st) r Hi Ht). reflexivity.
Qed.

(** The handler throws exactly when it asked for a token and got none. *)
Lemma handler_throws (err e : JsError) (st st' : State) :
  on_poll_error E err st = (Throw e, st') ->
  includes (js "401") (message err) = true /\
  getToken E (warned_401 st) = (Throw e, st').
Proof.
  intros H. destruct (includes (js "401") (message err)) eqn:Hi.
  - split; [reflexivity|]. rewrite (handler_401 _ _ Hi) in H.
    unfold bind at 1 in H.
    destruct (getToken E (warned_401 st)) as [[t|e'|] s1].
    + discriminate H.
    + inversion H; subst. reflexivity.
    + discriminate H.
  - rewrite (handler_other _ _ Hi) in H. discriminate H.
Qed.

Lemma handler_state_401 (err : JsError) (st : State) :
  includes (js "401") (message err) = true ->
  n_idp (snd (on_poll_error E err st)) = S (n_idp st) /\
  acquisitions (trace (snd (on_poll_error E err st)))
  = S (acquisitions (trace st)).
Proof.
  intros H. rewrite (handler_401 _ _ H).
  pose proof (getToken_state (warned_401 st)) as Hs.
  assert (Ha : acquisitions (trace (emit EvAcquire (bump_idp (warned_401 st))))
               = S (acquisitions (trace st))).
  { simpl. rewrite !acquisitions_app. simpl. lia. }
  unfold bind.
  destruct (getToken E (warned_401 st)) as [[t|e'|] s1]; simpl in Hs; subst s1;
    (split; [reflexivity|exact Ha]).
Qed.

End Handler.

Lemma poller_error_echoes_body (n : jsstring) (res : Response) :
  includes n (text_or_empty res) = true ->
  includes n (message (Poller.http_error res)) = true.
Proof.
  intros Hb. unfold Poller.http_error. cbn [message].
  rewrite !app_assoc. apply includes_app_r. exact Hb.
Qed.

Lemma index_error_echoes (n : jsstring) (rq : Request) (res : Response) :
  includes n (url rq) = true \/ includes n (text_or_empty res) = true ->
  includes n (message (IndexJs.http_error rq res)) = true.
Proof.
  intros [Hu|Hb]; unfold IndexJs.http_error; cbn [message].
  - do 5 apply includes_app_r. apply includes_app_l. exact Hu.
  - rewrite !app_assoc. apply includes_app_r. exact Hb.
Qed.

(** C9.  The handler of the outer [catch] asks for a new token if and only
    if the error's message contains "401" somewhere; when the identity
    provider then returns a token, the credential and its time stamp are
    replaced.  With any other message nothing is asked and the credential is
    untouched.  The handler receives exactly the errors that escape the body
    of the [try], and the message of an HTTP error echoes the response body
    (and, in the revision that names it, the URL), so a "401" occurring only
    there triggers the refresh as well. *)
Theorem refresh_iff_message_has_401 (E : Env) (err : JsError) (st : State) :
  let mentions := exists a b, message err = a ++ js "401" ++ b in
  let st' := snd (on_poll_error E err st) in
  (mentions <-> n_idp st' = S (n_idp st)) /\
  (mentions <-> acquisitions (trace st') = S (acquisitions (trace st))) /\
  (~ mentions ->
     on_poll_error E err st
     = (Ret tt, emit (EvWarn (js "Poll error: " ++ message err)) st) /\
     token st' = token st /\ tokenAcquiredAt st' = tokenAcquiredAt st) /\
  (mentions ->
     forall r, idp E (n_idp st) = inl r -> truthy (get r "accessToken") = true ->
     fst (on_poll_error E err st) = Ret tt /\
     token st' = get r "accessToken" /\
     tokenAcquiredAt st' = clock E (n_clock st)) /\
  (forall JSON_parse cfg s0 s1,
     Poller.poll_once E JSON_parse cfg s0 = (Throw err, s1) ->
     Poller.iteration E JSON_parse cfg s0
     = bind (on_poll_error E err) (fun _ => sleep (Number_ (POLL_MS cfg))) s1) /\
  (forall JSON_parse cfg s0 s1,
     IndexJs.poll_once E JSON_parse cfg s0 = (Throw err, s1) ->
     IndexJs.iteration E JSON_parse cfg s0
     = bind (on_poll_error E err) (fun _ => sleep (Number_ (POLL_MS cfg))) s1) /\
  (forall res,
     includes (js "401") (text_or_empty res) = true ->
     includes (js "401") (message (Poller.http_error res)) = true) /\
  (forall rq res,
     includes (js "401") (url rq) = true \/
     includes (js "401") (text_or_empty res) = true ->
     includes (js "401") (message (IndexJs.http_error rq res)) = true).
Proof.
  intros mentions st'. subst mentions st'.
  assert (Hspec := includes_spec (js "401") (message err)).
  destruct (includes (js "401") (message err)) eqn:Hi.
  - assert (Hm : exists a b, message err = a ++ js "401" ++ b)
      by (apply Hspec; reflexivity).
    destruct (handler_state_401 E err st Hi) as [Hn Ha].
    split; [split; auto|]. split; [split; auto|].
    split; [intros Hno; contradiction|].
    split; [|split; [|split; [|split]]].
    + intros _ r Hr Ht. rewrite (handler_401_ok E err st r Hi Hr Ht).
      repeat split.
    + intros JSON_parse cfg s0 s1 Hp. unfold Poller.iteration, bind, try_catch.
      rewrite Hp. unfold bind.
      destruct (on_poll_error E err s1) as [[[]|e|] s2]; reflexivity.
    + intros JSON_parse cfg s0 s1 Hp. unfold IndexJs.iteration, bind, try_catch.
      rewrite Hp. reflexivity.
    + intros res Hb. apply poller_error_echoes_body. exact Hb.
    + intros rq res Hb. apply index_error_echoes. exact Hb.
  - assert (Hm : ~ exists a b, message err = a ++ js "401" ++ b).
    { intros H. apply Hspec in H. discriminate H. }
    rewrite (handler_other E err st Hi).
    cbn [snd fst emit n_idp token tokenAcquiredAt trace].
    split; [split; [contradiction|intros H; lia]|].
    split; [split; [contradiction|]|].
    { rewrite acquisitions_app. simpl. intros H. lia. }
    split; [intros _; repeat split|].
    split; [intros H; contradiction|].
    split; [|split; [|split]].
    + intros JSON_parse cfg s0 s1 Hp. unfold Poller.iteration, bind, try_catch.
      rewrite Hp. unfold bind.
      destruct (on_poll_error E err s1) as [[[]|e|] s2]; reflexivity.
    + intros JSON_parse cfg s0 s1 Hp. unfold IndexJs.iteration, bind, try_catch.
      rewrite Hp. reflexivity.
    + intros res Hb. apply poller_error_echoes_body. exact Hb.
    + intros rq res Hb. apply index_error_echoes. exact Hb.
Qed.

Lemma refresh_iff_message_has_401_witness :
  let err := Poller.http_error r500_mentions_401 in
  (exists a b, message err = a ++ js "401" ++ b) /\
  idp env_token_ok (n_idp st0) = inl (token_reply "t1") /\
  truthy (get (token_reply "t1") "accessToken") = true /\
  fst (on_poll_error env_token_ok err st0) = Ret tt /\
  token (snd (on_poll_error env_token_ok err st0)) = VStr (js "t1") /\
  tokenAcquiredAt (snd (on_poll_error env_token_ok err st0)) = 0.
Proof.
  cbv zeta.
  assert (Hm : exists a b,
             message (Poller.http_error r500_mentions_401) = a ++ js "401" ++ b).
  { apply includes_spec. reflexivity. }
  split; [exact Hm|]. split; [reflexivity|]. split; [reflexivity|].
  exact (proj1 (proj2 (proj2 (proj2
           (refresh_iff_message_has_401 env_token_ok
              (Poller.http_error r500_mentions_401) st0))))
           Hm (token_reply "t1") eq_refl eq_refl).
Defined.

(* ===================================================================== *)
(** * What can end the loop *)
(* ===================================================================== *)

Section LoopExit.

Variable E : Env.
Variable JSON_parse : jsstring -> value + JsError.
Variable cfg : Config.

(** A turn of the loop throws only out of the handler, that is when the
    body threw an error mentioning "401" and the token acquisition that the
    handler then started failed. *)
Lemma poller_iteration_throws (st st' : State) (e : JsError) :
  Poller.iteration E JSON_parse cfg st = (Throw e, st') ->
  exists err s1,
    Poller.poll_once E JSON_parse cfg st = (Throw err, s1) /\
    includes (js "401") (message err) = true /\
    getToken E (warned_401 s1) = (Throw e, st').
Proof.
  unfold Poller.iteration, bind, try_catch. intros H.
  destruct (Poller.poll_once E JSON_parse cfg st) as [[f|err|] s1].
  - destruct f; discriminate H.
  - exists err, s1. split; [reflexivity|].
    unfold bind in H.
    destruct (on_poll_error E err s1) as [[[]|e'|] s2] eqn:Hh.
    + discriminate H.
    + inversion H; subst. apply (handler_throws E err e s1 st'). exact Hh.
    + discriminate H.
  - discriminate H.
Qed.

Lemma index_iteration_throws (st st' : State) (e : JsError) :
  IndexJs.iteration E JSON_parse cfg st = (Throw e, st') ->
  exists err s1,
    IndexJs.poll_once E JSON_parse cfg st = (Throw err, s1) /\
    includes (js "401") (message err) = true /\
    getToken E (warned_401 s1) = (Throw e, st').
Proof.
  unfold IndexJs.iteration, bind, try_catch. intros H.
  destruct (IndexJs.poll_once E JSON_parse cfg st) as [[[]|err|] s1].
  - discriminate H.
  - exists err, s1. split; [reflexivity|].
    destruct (on_poll_error E err s1) as [[[]|e'|] s2] eqn:Hh.
    + discriminate H.
    + inversion H; subst. apply (handler_throws E err e s1 st'). exact Hh.
    + discriminate H.
  - discriminate H.
Qed.

(** As long as the identity provider hands out a token whenever asked, no
    turn of the loop throws. *)
Lemma poller_iteration_safe :
  (forall k, exists r, idp E k = inl r /\ truthy (get r "accessToken") = true) ->
  safe (Poller.iteration E JSON_parse cfg).
Proof.
  intros Hidp st.
  destruct (Poller.iteration E JSON_parse cfg st) as [[[]|e|] st'] eqn:Hit.
  - exists tt. reflexivity.
  - destruct (poller_iteration_throws _ _ _ Hit) as (err & s1 & _ & _ & Hg).
    destruct (Hidp (n_idp (warned_401 s1))) as (r & Hr & Ht).
    rewrite (getToken_ok E _ r Hr Ht) in Hg. discriminate Hg.
  - pose proof (poller_total_iteration E JSON_parse cfg st) as Ht.
    rewrite Hit in Ht. elim Ht. reflexivity.
Qed.

End LoopExit.

(** C7, evaluated.  After a successful start-up, the list request is
    answered 401, the handler of the outer [catch] asks for a new token, the
    identity provider rejects, and that rejection leaves [run]: the process
    exits with code 1 in the first turn of the loop, in both revisions. *)
Theorem failed_reexchange_ends_the_process :
  let idp_error := mkError (js "network_error: identity provider unreachable") in
  let p := Poller.main env_unauthorized MiniJson.parse cfg0 3 st0 in
  let q := IndexJs.main env_unauthorized MiniJson.parse cfg0 3 st0 in
  fst p = Exited 1 /\
  fetches (trace (snd p)) = [bearer list_url "t0"] /\
  acquisitions (trace (snd p)) = 2%nat /\
  last (trace (snd p)) EvAcquire = EvError idp_error /\
  fst q = Exited 1 /\
  fetches (trace (snd q)) = [bearer list_url "t0"] /\
  acquisitions (trace (snd q)) = 2%nat /\
  last (trace (snd q)) EvAcquire = EvError idp_error.
Proof. vm_compute. repeat split. Qed.

(* ===================================================================== *)
(** * The age of the credential *)
(* ===================================================================== *)

Lemma same_credential_refl st : same_credential st st.
Proof. repeat split. Qed.

Lemma same_credential_trans a b c :
  same_credential a b -> same_credential b c -> same_credential a c.
Proof.
  intros (A1 & A2 & A3 & A4) (B1 & B2 & B3 & B4).
  repeat split; congruence.
Qed.

Lemma keeps_ret {A} (a : A) : keeps (ret a).
Proof. intros st. apply same_credential_refl. Qed.

Lemma keeps_throw {A} (e : JsError) : keeps (@throw A e).
Proof. intros st. apply same_credential_refl. Qed.

Lemma keeps_fuel {A} : keeps (@out_of_fuel A).
Proof. intros st. apply same_credential_refl. Qed.

Lemma keeps_bind {A B} (m : M A) (k : A -> M B) :
  keeps m -> (forall a, keeps (k a)) -> keeps (bind m k).
Proof.
  intros Hm Hk st. unfold bind. specialize (Hm st).
  destruct (m st) as [[a|e|] st1]; simpl in *; try exact Hm.
  eapply same_credential_trans; [exact Hm|apply Hk].
Qed.

Lemma keeps_try {A} (m : M A) (h : JsError -> M A) :
  keeps m -> (forall e, keeps (h e)) -> keeps (try_catch m h).
Proof.
  intros Hm Hh st. unfold try_catch. specialize (Hm st).
  destruct (m st) as [[a|e|] st1]; simpl in *; try exact Hm.
  eapply same_credential_trans; [exact Hm|apply Hh].
Qed.

Lemma keeps_when (b : bool) (m : M unit) : keeps m -> keeps (when_ b m).
Proof. intros H. destruct b; [exact H|apply keeps_ret]. Qed.

Lemma keeps_log s : keeps (console_log s).
Proof. intros st. repeat split. Qed.

Lemma keeps_warn s : keeps (console_warn s).
Proof. intros st. repeat split. Qed.

Lemma keeps_dir v : keeps (console_dir v).
Proof. intros st. repeat split. Qed.

Lemma keeps_sleep ms : keeps (sleep ms).
Proof. intros st. repeat split. Qed.

Lemma keeps_fetch E rq : keeps (fetch E rq).
Proof.
  intros st. unfold fetch. destruct (net E (n_fetch st) rq); repeat split.
Qed.

Lemma keeps_res_text r : keeps (res_text r).
Proof. unfold res_text. destruct (body r); [apply keeps_ret|apply keeps_throw]. Qed.

Lemma keeps_get_token : keeps get_token.
Proof. intros st. repeat split. Qed.

Lemma keeps_seen_has id : keeps (seen_has id).
Proof. intros st. repeat split. Qed.

Lemma keeps_seen_add id : keeps (seen_add id).
Proof. intros st. repeat split. Qed.

Lemma keeps_encode s : keeps (encode s).
Proof. unfold encode. destruct (encodeURIComponent s); [apply keeps_ret|apply keeps_throw]. Qed.

Lemma keeps_ToString v : keeps (ToString v).
Proof. unfold ToString. destruct (stringifiable v); [apply keeps_ret|apply keeps_throw]. Qed.

Create HintDb keeps.
#[export] Hint Resolve keeps_ret keeps_throw keeps_fuel keeps_log keeps_warn
  keeps_dir keeps_sleep keeps_fetch keeps_res_text keeps_get_token
  keeps_seen_has keeps_seen_add keeps_encode keeps_ToString : keeps.

Ltac keeps_steps :=
  step_through @keeps_bind @keeps_try keeps_when ltac:(auto with keeps).

Lemma begins_bind {A B} (e : Event) (m : M A) (k : A -> M B) (st : State) :
  begins e m st -> (forall a, mono (k a)) -> begins e (bind m k) st.
Proof.
  intros [evs Hm] Hk. unfold begins, bind.
  destruct (m st) as [[a|err|] st1]; simpl in *; try (exists evs; exact Hm).
  destruct (Hk a st1) as [[evs' He] _]. exists (evs ++ evs').
  rewrite He, Hm, <- app_assoc. reflexivity.
Qed.

Lemma begins_after {A B} (e : Event) (m : M A) (k : A -> M B) (st : State) (a : A) :
  m st = (Ret a, st) -> begins e (k a) st -> begins e (bind m k) st.
Proof. intros Hm Hk. unfold begins, bind. rewrite Hm. exact Hk. Qed.

Lemma begins_fetch E rq st : begins (EvFetch rq) (fetch E rq) st.
Proof.
  exists []. unfold fetch. destruct (net E (n_fetch st) rq); reflexivity.
Qed.

Section Credential.

Variable E : Env.
Variable JSON_parse : jsstring -> value + JsError.
Variable cfg : Config.

Lemma keeps_listUrl m : keeps (transcriptsListUrl m).
Proof. unfold transcriptsListUrl. keeps_steps. Qed.

Lemma keeps_detailUrl m t : keeps (transcriptDetailUrl m t).
Proof. unfold transcriptDetailUrl. keeps_steps. Qed.

Lemma poller_keeps_retry fuel rq m a : keeps (Poller.fetchWithRetry_loop E fuel rq m a).
Proof.
  revert a. induction fuel as [|fuel IH]; intros a; simpl.
  - apply keeps_fuel.
  - keeps_steps; apply IH.
Qed.

Lemma poller_keeps_safeJson res : keeps (Poller.safeJson JSON_parse res).
Proof. unfold Poller.safeJson. keeps_steps. Qed.

Lemma poller_keeps_list tok m : keeps (Poller.listTranscripts E JSON_parse cfg tok m).
Proof.
  unfold Poller.listTranscripts, Poller.fetchWithRetry.
  pose proof keeps_listUrl. pose proof poller_keeps_retry.
  pose proof poller_keeps_safeJson. keeps_steps.
Qed.

Lemma poller_keeps_detail tok m id :
  keeps (Poller.getTranscript E JSON_parse cfg tok m id).
Proof.
  unfold Poller.getTranscript, Poller.fetchWithRetry.
  pose proof keeps_detailUrl. pose proof poller_keeps_retry.
  pose proof poller_keeps_safeJson. keeps_steps.
Qed.

Lemma poller_keeps_pretty obj : keeps (Poller.prettyPrintTranscript obj).
Proof.
  unfold Poller.prettyPrintTranscript, Poller.pp_header, Poller.pp_print,
    Poller.labelled.
  keeps_steps.
Qed.

Lemma poller_keeps_process_item t : keeps (Poller.process_item E JSON_parse cfg t).
Proof.
  unfold Poller.process_item, Poller.process_new.
  pose proof poller_keeps_pretty. pose proof poller_keeps_detail. keeps_steps.
Qed.

Lemma keeps_for_of items body : (forall t, keeps (body t)) -> keeps (for_of items body).
Proof.
  intros Hb. induction items as [|t items IH]; simpl.
  - apply keeps_ret.
  - apply keeps_bind; [apply Hb|intros; exact IH].
Qed.

(** Past the check of its age, the body of the [try] leaves the credential
    alone and reads no clock. *)
Lemma poller_keeps_list_and_process : keeps (Poller.list_and_process E JSON_parse cfg).
Proof.
  unfold Poller.list_and_process.
  pose proof poller_keeps_list.
  pose proof (fun items => keeps_for_of items _ poller_keeps_process_item).
  keeps_steps.
Qed.

(** When the meeting id can be encoded, the first effect of that body is
    the list request, carrying the token of the state it starts in. *)
Lemma poller_list_request_first (st : State) (m : jsstring) :
  encodeURIComponent (RTA_MEETING_ID cfg) = Some m ->
  begins (EvFetch (request (base ++ feed ++ m ++ js "/transcripts") (token st)))
         (Poller.list_and_process E JSON_parse cfg) st.
Proof.
  intros Hm. unfold Poller.list_and_process.
  apply begins_after with (a := token st); [reflexivity|].
  apply begins_bind.
  - unfold Poller.listTranscripts.
    apply begins_after with (a := base ++ feed ++ m ++ js "/transcripts").
    + unfold transcriptsListUrl, bind, encode. rewrite Hm. reflexivity.
    + apply begins_bind.
      * unfold Poller.fetchWithRetry. change (Z.to_nat (Z.max 1 5)) with 5%nat.
        cbn [Poller.fetchWithRetry_loop]. apply begins_bind.
        -- apply begins_fetch.
        -- intros res. pose proof (poller_mono_retry E). mono_steps.
      * intros res. pose proof (poller_mono_safeJson JSON_parse). mono_steps.
  - intros lst.
    pose proof (fun items =>
                  mono_for_of items _ (poller_mono_process_item E JSON_parse cfg)).
    mono_steps.
Qed.

End Credential.

Section AgeCheck.

Variable E : Env.
Variable JSON_parse : jsstring -> value + JsError.
Variable cfg : Config.

Lemma refresh_fresh (st : State) :
  clock E (n_clock st) - tokenAcquiredAt st <= 50 * 60 * 1000 ->
  refresh_if_stale E st = (Ret tt, bump_clock st).
Proof.
  intros H. unfold refresh_if_stale, bind, Date_now, get_tokenAcquiredAt.
  cbn [bump_clock tokenAcquiredAt].
  replace (50 * 60 * 1000 <? clock E (n_clock st) - tokenAcquiredAt st) with false
    by (symmetry; apply Z.ltb_ge; exact H).
  reflexivity.
Qed.

Lemma refresh_stale (st : State) :
  50 * 60 * 1000 < clock E (n_clock st) - tokenAcquiredAt st ->
  refresh_if_stale E st
  = bind (getToken E)
      (fun t => set_token t ;; now' <- Date_now E ;; set_tokenAcquiredAt now')
      (bump_clock st).
Proof.
  intros H. unfold refresh_if_stale, bind at 1, Date_now.
  unfold bind at 1, get_tokenAcquiredAt. cbn [bump_clock tokenAcquiredAt].
  replace (50 * 60 * 1000 <? clock E (n_clock st) - tokenAcquiredAt st) with true
    by (symmetry; apply Z.ltb_lt; exact H).
  reflexivity.
Qed.

Lemma poll_once_fresh (st : State) :
  clock E (n_clock st) - tokenAcquiredAt st <= 50 * 60 * 1000 ->
  Poller.poll_once E JSON_parse cfg st
  = Poller.list_and_process E JSON_parse cfg (bump_clock st).
Proof.
  intros H. unfold Poller.poll_once, bind. rewrite (refresh_fresh st H).
  reflexivity.
Qed.

Lemma poll_once_stale_ok (st : State) (r : value) :
  50 * 60 * 1000 < clock E (n_clock st) - tokenAcquiredAt st ->
  idp E (n_idp st) = inl r -> truthy (get r "accessToken") = true ->
  Poller.poll_once E JSON_parse cfg st
  = Poller.list_and_process E JSON_parse cfg
      (refreshed E (get r "accessToken") (bump_clock st)).
Proof.
  intros H Hi Ht. unfold Poller.poll_once, bind at 1.
  rewrite (refresh_stale st H). unfold bind at 1.
  rewrite (getToken_ok E (bump_clock st) r Hi Ht). reflexivity.
Qed.

Lemma poll_once_stale_failed (st : State) :
  50 * 60 * 1000 < clock E (n_clock st) - tokenAcquiredAt st ->
  (forall r, idp E (n_idp st) = inl r -> truthy (get r "accessToken") = false) ->
  exists e,
    Poller.poll_once E JSON_parse cfg st
    = (Throw e, emit EvAcquire (bump_idp (bump_clock st))).
Proof.
  intros H Hno. unfold Poller.poll_once, bind at 1.
  rewrite (refresh_stale st H). unfold bind at 1.
  destruct (idp E (n_idp st)) as [r|e] eqn:Hi.
  - rewrite (getToken_no_token E (bump_clock st) r Hi (Hno r eq_refl)).
    eexists. reflexivity.
  - rewrite (getToken_rejected E (bump_clock st) e Hi). eexists. reflexivity.
Qed.

End AgeCheck.

(** C8 (as amended).  The body of every turn of the loop starts by reading
    the clock, once, and comparing the token's age with 50 minutes.  When the
    age is more than 50 minutes (3,000,000 ms) the first effect of the turn is
    a token acquisition; when that succeeds, the token is replaced, its time
    stamp is set from a second reading of the clock, and the list request
    that follows carries the new token; when it fails, the turn makes no
    request at all.  When the age is at most 50 minutes nothing is acquired,
    token and time stamp stay as they are, and the first effect is the list
    request with the current token. *)
Theorem stale_token_refreshed_before_list (E : Env)
    (JSON_parse : jsstring -> value + JsError) (cfg : Config)
    (st : State) (m : jsstring) :
  encodeURIComponent (RTA_MEETING_ID cfg) = Some m ->
  let age := clock E (n_clock st) - tokenAcquiredAt st in
  let u := base ++ feed ++ m ++ js "/transcripts" in
  let st' := snd (Poller.poll_once E JSON_parse cfg st) in
  (50 * 60 * 1000 < age ->
     begins EvAcquire (Poller.poll_once E JSON_parse cfg) st /\
     (forall r,
        idp E (n_idp st) = inl r -> truthy (get r "accessToken") = true ->
        token st' = get r "accessToken" /\
        tokenAcquiredAt st' = clock E (S (n_clock st)) /\
        n_idp st' = S (n_idp st) /\
        n_clock st' = S (S (n_clock st)) /\
        exists evs,
          trace st'
          = trace st ++ EvAcquire :: EvFetch (request u (get r "accessToken")) :: evs) /\
     ((forall r, idp E (n_idp st) = inl r -> truthy (get r "accessToken") = false) ->
        trace st' = trace st ++ [EvAcquire] /\
        n_clock st' = S (n_clock st))) /\
  (age <= 50 * 60 * 1000 ->
     begins (EvFetch (request u (token st))) (Poller.poll_once E JSON_parse cfg) st /\
     n_idp st' = n_idp st /\
     n_clock st' = S (n_clock st) /\
     token st' = token st /\
     tokenAcquiredAt st' = tokenAcquiredAt st).
Proof.
  intros Hm age u st'. subst age u st'. split.
  - intros Hstale.
    assert (Hok : forall r,
              idp E (n_idp st) = inl r -> truthy (get r "accessToken") = true ->
              token (snd (Poller.poll_once E JSON_parse cfg st)) = get r "accessToken" /\
              tokenAcquiredAt (snd (Poller.poll_once E JSON_parse cfg st))
              = clock E (S (n_clock st)) /\
              n_idp (snd (Poller.poll_once E JSON_parse cfg st)) = S (n_idp st) /\
              n_clock (snd (Poller.poll_once E JSON_parse cfg st)) = S (S (n_clock st)) /\
              exists evs,
                trace (snd (Poller.poll_once E JSON_parse cfg st))
                = trace st ++ EvAcquire
                    :: EvFetch (request (base ++ feed ++ m ++ js "/transcripts")
                                        (get r "accessToken")) :: evs).
    { intros r Hi Ht.
      rewrite (poll_once_stale_ok E JSON_parse cfg st r Hstale Hi Ht).
      set (s1 := refreshed E (get r "accessToken") (bump_clock st)).
      destruct (poller_keeps_list_and_process E JSON_parse cfg s1)
        as (K1 & K2 & K3 & K4).
      destruct (poller_list_request_first E JSON_parse cfg s1 m Hm) as [evs He].
      rewrite K1, K2, K3, K4. repeat split.
      exists evs. rewrite He. subst s1. simpl. rewrite <- app_assoc. reflexivity. }
    assert (Hfail :
              (forall r, idp E (n_idp st) = inl r ->
                         truthy (get r "accessToken") = false) ->
              trace (snd (Poller.poll_once E JSON_parse cfg st))
              = trace st ++ [EvAcquire] /\
              n_clock (snd (Poller.poll_once E JSON_parse cfg st)) = S (n_clock st)).
    { intros Hno.
      destruct (poll_once_stale_failed E JSON_parse cfg st Hstale Hno) as [e He].
      rewrite He. split; reflexivity. }
    split; [|split; [exact Hok|exact Hfail]].
    destruct (idp E (n_idp st)) as [r|e] eqn:Hi.
    + destruct (truthy (get r "accessToken")) eqn:Ht.
      * destruct (Hok r eq_refl Ht) as (_ & _ & _ & _ & evs & He).
        eexists. exact He.
      * destruct Hfail as [He _].
        { intros r' Hr'. inversion Hr'; subst. exact Ht. }
        exists []. exact He.
    + destruct Hfail as [He _]; [intros r' Hr'; discriminate Hr'|].
      exists []. exact He.
  - intros Hfresh. rewrite (poll_once_fresh E JSON_parse cfg st Hfresh).
    destruct (poller_keeps_list_and_process E JSON_parse cfg (bump_clock st))
      as (K1 & K2 & K3 & K4).
    split; [|rewrite K1, K2, K3, K4; repeat split].
    unfold begins. rewrite (poll_once_fresh E JSON_parse cfg st Hfresh).
    apply (poller_list_request_first E JSON_parse cfg (bump_clock st) m Hm).
Qed.

Lemma stale_token_refreshed_before_list_witness :
  let st1 := after_startup env_fifty_minutes_1ms st0 in
  let st2 := snd (Poller.poll_once env_fifty_minutes_1ms MiniJson.parse cfg0 st1) in
  encodeURIComponent (RTA_MEETING_ID cfg0) = Some (js "m1") /\
  50 * 60 * 1000 < clock env_fifty_minutes_1ms (n_clock st1) - tokenAcquiredAt st1 /\
  token st2 = VStr (js "t1") /\
  tokenAcquiredAt st2 = 50 * 60 * 1000 + 1 /\
  n_idp st2 = S (n_idp st1) /\
  n_clock st2 = S (S (n_clock st1)) /\
  exists evs,
    trace st2
    = trace st1 ++ EvAcquire :: EvFetch (bearer list_url "t1") :: evs.
Proof.
  cbv zeta.
  assert (Hm : encodeURIComponent (RTA_MEETING_ID cfg0) = Some (js "m1"))
    by reflexivity.
  assert (Hs : 50 * 60 * 1000
               < clock env_fifty_minutes_1ms
                   (n_clock (after_startup env_fifty_minutes_1ms st0))
                 - tokenAcquiredAt (after_startup env_fifty_minutes_1ms st0))
    by (vm_compute; reflexivity).
  split; [exact Hm|]. split; [exact Hs|].
  exact (proj1 (proj2 (proj1
           (stale_token_refreshed_before_list env_fifty_minutes_1ms
              MiniJson.parse cfg0 (after_startup env_fifty_minutes_1ms st0)
              (js "m1") Hm) Hs))
           (token_reply "t1") eq_refl eq_refl).
Defined.

(** C8 as the specification words it: with exactly 50 minutes elapsed since
    the acquisition, the turn acquires nothing and lists with the old
    token. *)
Lemma exactly_fifty_minutes_no_refresh :
  let st1 := after_startup env_fifty_minutes st0 in
  let r := Poller.iteration env_fifty_minutes MiniJson.parse cfg0 st1 in
  clock env_fifty_minutes (n_clock st1) - tokenAcquiredAt st1 = 50 * 60 * 1000 /\
  fst r = Ret tt /\
  acquisitions (trace (snd r)) = acquisitions (trace st1) /\
  n_idp (snd r) = n_idp st1 /\
  token (snd r) = VStr (js "t0") /\
  tokenAcquiredAt (snd r) = tokenAcquiredAt st1 /\
  fetches (trace (snd r)) = [bearer list_url "t0"].
Proof. vm_compute. repeat split. Qed.

(* ===================================================================== *)
(** * When the summary printer returns and when it throws *)
(* ===================================================================== *)

Lemma ToString_ok (v : value) (st : State) :
  stringifiable v = true -> ToString v st = (Ret (toString v), st).
Proof. intros H. unfold ToString. rewrite H. reflexivity. Qed.

Lemma ToString_throws (v : value) (st : State) :
  stringifiable v = false -> ToString v st = (Throw TypeError_primitive, st).
Proof. intros H. unfold ToString. rewrite H. reflexivity. Qed.

Lemma primitive_stringifiable (v : value) :
  primitive v = true -> stringifiable v = true.
Proof. destruct v; simpl; intros H; try reflexivity; discriminate H. Qed.

(** What [labelled] returns when it returns. *)
Lemma labelled_ok (label : string) (v : value) (st : State) :
  (truthy v = true -> stringifiable v = true) ->
  Poller.labelled label v st
  = (Ret (match header_part label v with s :: _ => VStr s | [] => VNull end), st).
Proof.
  intros H. unfold Poller.labelled, header_part, bind.
  destruct (truthy v); [|reflexivity].
  rewrite (ToString_ok v st (H eq_refl)). reflexivity.
Qed.

Lemma labelled_throws (label : string) (v : value) (st : State) :
  truthy v = true -> stringifiable v = false ->
  Poller.labelled label v st = (Throw TypeError_primitive, st).
Proof.
  intros Ht H. unfold Poller.labelled, bind.
  rewrite Ht, (ToString_throws v st H). reflexivity.
Qed.

Lemma filter_label (a : ascii) (label : string) (v : value) :
  filter truthy
    [match header_part (String a label) v with s :: _ => VStr s | [] => VNull end]
  = map VStr (header_part (String a label) v).
Proof. unfold header_part. destruct (truthy v); reflexivity. Qed.

Lemma forallb_filter_true {A} (f g : A -> bool) (l : list A) (x : A) :
  forallb f (filter g l) = true -> In x l -> g x = true -> f x = true.
Proof.
  intros H Hin Hg. rewrite forallb_forall in H. apply H.
  apply filter_In. split; assumption.
Qed.

Lemma pp_header_ok (obj : value) (st : State) :
  forallb stringifiable (header_fields obj) = true ->
  Poller.pp_header obj st = (Ret (header_text obj), st).
Proof.
  unfold header_fields. cbn [forallb]. intros H.
  apply andb_prop in H. destruct H as [Hi Hf].
  pose proof (fun x => forallb_filter_true stringifiable truthy _ x Hf) as Hx.
  unfold Poller.pp_header, bind. rewrite (ToString_ok _ st Hi).
  rewrite (labelled_ok "created: " (Poller.pp_created obj) st)
    by (apply Hx; simpl; auto).
  rewrite (labelled_ok "lang: " (Poller.pp_lang obj) st)
    by (apply Hx; simpl; auto).
  rewrite (labelled_ok "speaker: " (Poller.pp_speaker obj) st)
    by (apply Hx; simpl; auto).
  unfold ret, header_text. f_equal. f_equal. f_equal.
  match goal with
  | |- filter truthy [?a; ?b; ?c; ?d] = _ =>
      change [a; b; c; d] with ([a] ++ [b] ++ [c] ++ [d])
  end.
  rewrite !filter_app, !filter_label, !map_app. reflexivity.
Qed.

Lemma pp_header_throws (obj : value) (st : State) :
  forallb stringifiable (header_fields obj) = false ->
  Poller.pp_header obj st = (Throw TypeError_primitive, st).
Proof.
  unfold header_fields. cbn [forallb filter]. intros H.
  unfold Poller.pp_header, bind.
  destruct (stringifiable (Poller.pp_id obj)) eqn:Hi;
    [|rewrite (ToString_throws _ st Hi); reflexivity].
  rewrite (ToString_ok _ st Hi). cbn [andb] in H.
  destruct (truthy (Poller.pp_created obj)) eqn:Tc;
    [destruct (stringifiable (Poller.pp_created obj)) eqn:Sc;
     [|rewrite (labelled_throws _ _ st Tc Sc); reflexivity]|];
    (rewrite (labelled_ok "created: " (Poller.pp_created obj) st)
       by (intros; congruence));
    (destruct (truthy (Poller.pp_lang obj)) eqn:Tl;
     [destruct (stringifiable (Poller.pp_lang obj)) eqn:Sl;
      [|rewrite (labelled_throws _ _ st Tl Sl); reflexivity]|];
     (rewrite (labelled_ok "lang: " (Poller.pp_lang obj) st)
        by (intros; congruence));
     (destruct (truthy (Poller.pp_speaker obj)) eqn:Ts;
      [destruct (stringifiable (Poller.pp_speaker obj)) eqn:Ss;
       [|rewrite (labelled_throws _ _ st Ts Ss); reflexivity]|];
      exfalso; cbn [forallb andb] in H;
      rewrite ?Sc, ?Sl, ?Ss in H; cbn [andb] in H; discriminate H)).
Qed.

(** The header always starts with the bullet and the id, so it is never the
    empty string. *)
Lemma header_text_shape (obj : value) :
  exists rest,
    header_text obj = bullet ++ js " id: " ++ toString (Poller.pp_id obj) ++ rest.
Proof.
  unfold header_text. cbn [app map join_with elt_string toString].
  eexists. rewrite <- !app_assoc. reflexivity.
Qed.

Lemma header_text_truthy (obj : value) : truthy (VStr (header_text obj)) = true.
Proof. destruct (header_text_shape obj) as [rest ->]. reflexivity. Qed.

Lemma pp_print_ok (obj text : value) (st : State) :
  negb (truthy text) || stringifiable text = true ->
  Poller.pp_print obj text (header_text obj) st = (Ret tt, printed_with text obj st).
Proof.
  intros H. unfold Poller.pp_print, printed_with, bind, when_, console_log.
  rewrite header_text_truthy.
  destruct (truthy text); [|reflexivity].
  rewrite (ToString_ok text _ H). reflexivity.
Qed.

Lemma pp_print_throws (obj text : value) (st : State) :
  truthy text = true -> stringifiable text = false ->
  Poller.pp_print obj text (header_text obj) st
  = (Throw TypeError_primitive, emit (EvLog (header_text obj)) st).
Proof.
  intros Ht H. unfold Poller.pp_print, bind, when_, console_log.
  rewrite header_text_truthy, Ht.
  rewrite (ToString_throws text _ H). reflexivity.
Qed.

Lemma print_returns (text obj : value) (st : State) :
  printable_with text obj = true ->
  bind (Poller.pp_header obj) (Poller.pp_print obj text) st
  = (Ret tt, printed_with text obj st).
Proof.
  unfold printable_with. intros H. apply andb_prop in H. destruct H as [Hh Ht].
  unfold bind. rewrite (pp_header_ok obj st Hh). apply pp_print_ok. exact Ht.
Qed.

Lemma poller_pretty_returns (obj : value) (st : State) :
  printable_with (Poller.pp_text obj) obj = true ->
  Poller.prettyPrintTranscript obj st = (Ret tt, printed obj st).
Proof. apply print_returns. Qed.

Lemma index_pretty_returns (obj : value) (st : State) :
  nullish obj = false ->
  printable_with (IndexJs.pp_text obj) obj = true ->
  IndexJs.prettyPrintTranscript obj st
  = (Ret tt, printed_with (IndexJs.pp_text obj) obj st).
Proof.
  intros Hn H. unfold IndexJs.prettyPrintTranscript, IndexJs.get_strict.
  rewrite Hn. unfold bind at 1. unfold ret at 1.
  apply (print_returns (IndexJs.pp_text obj) obj st H).
Qed.

(** An identifier that is usable is the id the printer shows. *)
Lemma pp_id_item (t : value) :
  truthy (item_id t) = true -> Poller.pp_id t = item_id t.
Proof.
  intros H. change (Poller.pp_id t) with (item_id t ?? VStr (js "unknown")).
  unfold coalesce at 1. destruct (item_id t); try reflexivity; discriminate H.
Qed.

Lemma printable_id (text t : value) :
  truthy (item_id t) = true -> printable_with text t = true ->
  stringifiable (item_id t) = true.
Proof.
  intros Ht H. unfold printable_with, header_fields in H. cbn [forallb] in H.
  rewrite (pp_id_item t Ht) in H.
  destruct (stringifiable (item_id t)); [reflexivity|discriminate H].
Qed.

(* ===================================================================== *)
(** * The inner [try]/[catch] of the other revision *)
(* ===================================================================== *)

Section Isolation.

Variable E : Env.
Variable JSON_parse : jsstring -> value + JsError.
Variable cfg : Config.

Lemma safe_seen_has id : safe (seen_has id).
Proof. intros st. eexists. reflexivity. Qed.

Lemma safe_seen_add id : safe (seen_add id).
Proof. intros st. eexists. reflexivity. Qed.

Lemma index_safe_get_strict o p : nullish o = false -> safe (IndexJs.get_strict o p).
Proof. intros H. unfold IndexJs.get_strict. rewrite H. apply safe_ret. Qed.

Lemma index_safe_pretty obj :
  nullish obj = false -> printable_with (IndexJs.pp_text obj) obj = true ->
  safe (IndexJs.prettyPrintTranscript obj).
Proof.
  intros Hn H st. rewrite (index_pretty_returns obj st Hn H).
  exists tt. reflexivity.
Qed.

(** In the revision with the inner [try]/[catch], the loop body never
    throws on an item that is an object and whose summary can be printed,
    whatever the detail fetch does. *)
Lemma index_safe_process_item t :
  nullish t = false ->
  (truthy (item_id t) = true -> printable_with (IndexJs.pp_text t) t = true) ->
  safe (IndexJs.process_item E JSON_parse cfg t).
Proof.
  intros H Hp. unfold IndexJs.process_item.
  apply safe_bind; [apply index_safe_get_strict; exact H|]. intros _.
  apply safe_bind; [apply safe_seen_has|]. intros known.
  destruct (truthy (item_id t)) eqn:Ht; [|apply safe_ret].
  destruct known; [apply safe_ret|]. cbn [negb orb].
  apply safe_bind; [apply safe_seen_add|]. intros _.
  unfold IndexJs.process_new.
  apply safe_bind; [apply safe_log|]. intros _.
  apply safe_bind; [apply index_safe_pretty; [exact H|exact (Hp eq_refl)]|].
  intros _. apply index_safe_fetch_detail.
  apply (printable_id (IndexJs.pp_text t) t Ht (Hp eq_refl)).
Qed.

(** So the [for] reaches its last item: no detail error ends it early. *)
Lemma index_detail_errors_isolated items :
  (forall t, In t items -> nullish t = false) ->
  (forall t, In t items -> truthy (item_id t) = true ->
             printable_with (IndexJs.pp_text t) t = true) ->
  safe (for_of items (IndexJs.process_item E JSON_parse cfg)).
Proof.
  intros H Hp. apply safe_for_of. intros t Ht. apply index_safe_process_item.
  - apply H. exact Ht.
  - apply Hp. exact Ht.
Qed.

End Isolation.

(* ===================================================================== *)
(** * Whole runs *)
(* ===================================================================== *)

(** Two turns over the same list: the fragment is announced and its detail
    printed in the first turn, and the second turn only lists. *)
Example one_fragment_two_turns :
  trace (snd (Poller.run env_one_fragment MiniJson.parse cfg0 2 st0))
  = [ EvLog (js "== Microsoft Graph RTA Transcript Poller ==");
      EvLog (js "Meeting: m1");
      EvLog (js "Interval: 2000 ms");
      EvAcquire;
      EvFetch (bearer list_url "t0");
      EvLog ([10%N] ++ js "NEW transcript fragment:");
      EvLog (bullet ++ js " id: f1");
      EvFetch (bearer (detail_url "f1") "t0");
      EvLog (js "Detail snippet:");
      EvLog (bullet ++ js " id: f1");
      EvLog (js "  hello world");
      EvSleep (Num 2000);
      EvFetch (bearer list_url "t0");
      EvSleep (Num 2000) ].
Proof. vm_compute. reflexivity. Qed.

(** Three turns when the detail of "a" fails: "a" is asked for once, in the
    first turn, which ends there; "b" is handled in the second turn; the
    third turn only lists. *)
Example failed_detail_is_not_retried :
  fetches (trace (snd (Poller.run env_detail_fails MiniJson.parse cfg0 3 st0)))
  = [ bearer list_url "t0"; bearer (detail_url "a") "t0";
      bearer list_url "t0"; bearer (detail_url "b") "t0";
      bearer list_url "t0" ].
Proof. vm_compute. reflexivity. Qed.

(* ===================================================================== *)
(** * More on the retry loop *)
(* ===================================================================== *)

Section RetrySpec.

Variable E : Env.
Variable rq : Request.

Lemma retryable_throttled res a m :
  retryable res a m = throttled res && (a <? m).
Proof. reflexivity. Qed.

Lemma poller_retry_n_fetch_mono fuel m a st :
  (n_fetch st <= n_fetch (snd (Poller.fetchWithRetry_loop E fuel rq m a st)))%nat.
Proof.
  revert a st. induction fuel as [|fuel IH]; intros a st; simpl; [lia|].
  unfold bind at 1, fetch. destruct (net E (n_fetch st) rq) as [res|e]; [|simpl; lia].
  destruct (negb (ok res)); [|simpl; lia].
  destruct (retryable res (a + 1) m); [|simpl; lia].
  unfold bind, console_warn, sleep.
  etransitivity; [|apply IH]. simpl. lia.
Qed.

Lemma index_retry_n_fetch_mono fuel m a st :
  (n_fetch st <= n_fetch (snd (IndexJs.fetchWithRetry_loop E fuel rq m a st)))%nat.
Proof.
  revert a st. induction fuel as [|fuel IH]; intros a st; simpl; [lia|].
  unfold bind at 1, fetch. destruct (net E (n_fetch st) rq) as [res|e]; [|simpl; lia].
  destruct (ok res); [simpl; lia|].
  destruct (retryable res (a + 1) m); [|simpl; lia].
  unfold bind, console_warn, sleep.
  etransitivity; [|apply IH]. simpl. lia.
Qed.

Lemma poller_retry_at_least_one fuel m a st :
  (S (n_fetch st)
   <= n_fetch (snd (Poller.fetchWithRetry_loop E (S fuel) rq m a st)))%nat.
Proof.
  simpl. unfold bind at 1, fetch.
  destruct (net E (n_fetch st) rq) as [res|e]; [|simpl; lia].
  destruct (negb (ok res)); [|simpl; lia].
  destruct (retryable res (a + 1) m); [|simpl; lia].
  unfold bind, console_warn, sleep.
  etransitivity; [|apply poller_retry_n_fetch_mono]. simpl. lia.
Qed.

Lemma index_retry_at_least_one fuel m a st :
  (S (n_fetch st)
   <= n_fetch (snd (IndexJs.fetchWithRetry_loop E (S fuel) rq m a st)))%nat.
Proof.
  simpl. unfold bind at 1, fetch.
  destruct (net E (n_fetch st) rq) as [res|e]; [|simpl; lia].
  destruct (ok res); [simpl; lia|].
  destruct (retryable res (a + 1) m); [|simpl; lia].
  unfold bind, console_warn, sleep.
  etransitivity; [|apply index_retry_n_fetch_mono]. simpl. lia.
Qed.

(** A success status is the only way the loop returns a response, and the
    response it returns is the network's answer to its last request. *)
Lemma poller_retry_returns_ok fuel m a st res st' :
  Poller.fetchWithRetry_loop E fuel rq m a st = (Ret res, st') ->
  ok res = true /\ net E (pred (n_fetch st')) rq = inl res.
Proof.
  revert a st. induction fuel as [|fuel IH]; intros a st; simpl; [discriminate|].
  unfold bind at 1, fetch.
  destruct (net E (n_fetch st) rq) as [r|e] eqn:Hnet; [|discriminate].
  destruct (ok r) eqn:Hok; simpl negb; cbv iota.
  - intros H. inversion H; subst. simpl. rewrite Hnet. auto.
  - destruct (retryable r (a + 1) m); [|discriminate].
    unfold bind, console_warn, sleep. apply IH.
Qed.

Lemma index_retry_returns_ok fuel m a st res st' :
  IndexJs.fetchWithRetry_loop E fuel rq m a st = (Ret res, st') ->
  ok res = true /\ net E (pred (n_fetch st')) rq = inl res.
Proof.
  revert a st. induction fuel as [|fuel IH]; intros a st; simpl; [discriminate|].
  unfold bind at 1, fetch.
  destruct (net E (n_fetch st) rq) as [r|e] eqn:Hnet; [|discriminate].
  destruct (ok r) eqn:Hok.
  - intros H. inversion H; subst. simpl. rewrite Hnet. auto.
  - destruct (retryable r (a + 1) m); [|discriminate].
    unfold bind, console_warn, sleep. apply IH.
Qed.

End RetrySpec.

(** X1.  Whatever the network does and whatever [maxAttempts] is,
    [fetchWithRetry] comes to an end (it returns or throws; the step budget
    of the model is never what stops it), having sent at least one request
    and at most [max 1 maxAttempts]; in both revisions. *)
Theorem fetchWithRetry_ends_within_budget (E : Env) (rq : Request) (m : Z)
    (st : State) :
  let p := Poller.fetchWithRetry E rq m st in
  let q := IndexJs.fetchWithRetry E rq m st in
  fst p <> Fuel /\ fst q <> Fuel /\
  (n_fetch st + 1 <= n_fetch (snd p) <= n_fetch st + Z.to_nat (Z.max 1 m))%nat /\
  (n_fetch st + 1 <= n_fetch (snd q) <= n_fetch st + Z.to_nat (Z.max 1 m))%nat.
Proof.
  cbv zeta.
  assert (Hf : exists f, Z.to_nat (Z.max 1 m) = S f).
  { exists (pred (Z.to_nat (Z.max 1 m))). lia. }
  destruct Hf as [f Hf].
  split; [apply poller_total_fetchWithRetry|].
  split; [apply index_total_fetchWithRetry|].
  unfold Poller.fetchWithRetry, IndexJs.fetchWithRetry. split; split.
  - rewrite Hf. pose proof (poller_retry_at_least_one E rq f m 0 st). lia.
  - pose proof (poller_retry_bound E (Z.to_nat (Z.max 1 m)) rq m 0 st) as H.
    rewrite Z.sub_0_r in H. exact H.
  - rewrite Hf. pose proof (index_retry_at_least_one E rq f m 0 st). lia.
  - pose proof (index_retry_bound E (Z.to_nat (Z.max 1 m)) rq m 0 st) as H.
    rewrite Z.sub_0_r in H. exact H.
Qed.

(** X2.  When [fetchWithRetry] returns a response, that response has a
    success status (200 to 299) and is the network's answer to the last
    request sent: no failure status is ever handed to the caller. *)
Theorem fetchWithRetry_returns_only_success (E : Env) (rq : Request) (m : Z)
    (st st' : State) (res : Response) :
  Poller.fetchWithRetry E rq m st = (Ret res, st') \/
  IndexJs.fetchWithRetry E rq m st = (Ret res, st') ->
  200 <= status res <= 299 /\
  net E (pred (n_fetch st')) rq = inl res.
Proof.
  intros H.
  assert (Hok : ok res = true /\ net E (pred (n_fetch st')) rq = inl res).
  { destruct H as [H|H].
    - apply (poller_retry_returns_ok E rq _ _ _ _ _ _ H).
    - apply (index_retry_returns_ok E rq _ _ _ _ _ _ H). }
  destruct Hok as [Hok Hnet]. split; [|exact Hnet].
  unfold ok in Hok. apply andb_true_iff in Hok. destruct Hok as [H1 H2].
  apply Z.leb_le in H1. apply Z.leb_le in H2. lia.
Qed.

Lemma fetchWithRetry_returns_only_success_witness :
  exists st',
    (Poller.fetchWithRetry env_recovering rq_list 5 st0 = (Ret r200, st') \/
     IndexJs.fetchWithRetry env_recovering rq_list 5 st0 = (Ret r200, st')) /\
    200 <= status r200 <= 299 /\
    net env_recovering (pred (n_fetch st')) rq_list = inl r200.
Proof.
  eexists. split; [left; vm_compute; reflexivity|].
  apply (fetchWithRetry_returns_only_success env_recovering rq_list 5 st0).
  left. vm_compute. reflexivity.
Defined.

Section FirstFinalAnswer.

Variable E : Env.
Variable rq : Request.
Variable m : Z.

Lemma not_final_retry (a : Z) (ans : Response + JsError) :
  final m a ans = false ->
  exists r, ans = inl r /\ ok r = false /\ retryable r a m = true.
Proof.
  unfold final. destruct ans as [r|e]; [|discriminate].
  intros H. apply orb_false_iff in H. destruct H as [H1 H2].
  exists r. repeat split; [exact H1|].
  destruct (retryable r a m); [reflexivity|discriminate H2].
Qed.

Lemma sleeps_length_after_retry res a st :
  List.length (sleeps (trace (after_retry rq res a st)))
  = S (List.length (sleeps (trace st))).
Proof. rewrite sleeps_after_retry, length_app. simpl. lia. Qed.

Lemma poller_loop_first_final (j : nat) :
  forall fuel a st,
    (j < fuel)%nat ->
    (forall i, (i < j)%nat ->
       final m (a + Z.of_nat i + 1) (net E (n_fetch st + i) rq) = false) ->
    final m (a + Z.of_nat j + 1) (net E (n_fetch st + j) rq) = true ->
    let p := Poller.fetchWithRetry_loop E fuel rq m a st in
    fst p = poller_settle (net E (n_fetch st + j) rq) /\
    n_fetch (snd p) = (n_fetch st + S j)%nat /\
    List.length (sleeps (trace (snd p))) = (List.length (sleeps (trace st)) + j)%nat.
Proof.
  induction j as [|j IH]; intros fuel a st Hf Hpre Hfin;
    (destruct fuel as [|fuel]; [lia|]).
  - cbv zeta. rewrite Nat.add_0_r in *. rewrite Z.add_0_r in Hfin.
    destruct (net E (n_fetch st) rq) as [r|e] eqn:Hnet; simpl poller_settle.
    + simpl in Hfin. destruct (ok r) eqn:Hok.
      * rewrite (poller_step_ok E fuel rq m a st r Hnet Hok).
        cbn [fst snd]. rewrite sleeps_final_attempt. simpl. repeat split; lia.
      * simpl in Hfin.
        destruct (retryable r (a + 1) m) eqn:Hr; [discriminate Hfin|].
        rewrite (poller_step_throw E fuel rq m a st r Hnet Hok Hr).
        cbn [fst snd]. rewrite sleeps_final_attempt. simpl. repeat split; lia.
    + rewrite (poller_step_reject E fuel rq m a st e Hnet).
      cbn [fst snd]. rewrite sleeps_final_attempt. simpl. repeat split; lia.
  - cbv zeta.
    destruct (not_final_retry _ _ (Hpre 0%nat ltac:(lia))) as (r & Hnet & Hok & Hr).
    rewrite Nat.add_0_r in Hnet. rewrite Z.add_0_r in Hr.
    rewrite (poller_step_retry E fuel rq m a st r Hnet Hr).
    specialize (IH fuel (a + 1) (after_retry rq r (a + 1) st)).
    cbv zeta in IH. rewrite n_fetch_after_retry in IH.
    replace (n_fetch st + S j)%nat with (S (n_fetch st) + j)%nat by lia.
    destruct IH as (I1 & I2 & I3).
    + lia.
    + intros i Hi. specialize (Hpre (S i) ltac:(lia)).
      replace (S (n_fetch st) + i)%nat with (n_fetch st + S i)%nat by lia.
      replace (a + 1 + Z.of_nat i + 1) with (a + Z.of_nat (S i) + 1) by lia.
      exact Hpre.
    + replace (a + 1 + Z.of_nat j + 1) with (a + Z.of_nat (S j) + 1) by lia.
      replace (S (n_fetch st) + j)%nat with (n_fetch st + S j)%nat by lia.
      exact Hfin.
    + split; [exact I1|]. split; [lia|].
      rewrite I3, sleeps_length_after_retry. lia.
Qed.

Lemma index_loop_first_final (j : nat) :
  forall fuel a st,
    (j < fuel)%nat ->
    (forall i, (i < j)%nat ->
       final m (a + Z.of_nat i + 1) (net E (n_fetch st + i) rq) = false) ->
    final m (a + Z.of_nat j + 1) (net E (n_fetch st + j) rq) = true ->
    let p := IndexJs.fetchWithRetry_loop E fuel rq m a st in
    fst p = index_settle rq (net E (n_fetch st + j) rq) /\
    n_fetch (snd p) = (n_fetch st + S j)%nat /\
    List.length (sleeps (trace (snd p))) = (List.length (sleeps (trace st)) + j)%nat.
Proof.
  induction j as [|j IH]; intros fuel a st Hf Hpre Hfin;
    (destruct fuel as [|fuel]; [lia|]).
  - cbv zeta. rewrite Nat.add_0_r in *. rewrite Z.add_0_r in Hfin.
    destruct (net E (n_fetch st) rq) as [r|e] eqn:Hnet; simpl index_settle.
    + simpl in Hfin. destruct (ok r) eqn:Hok.
      * rewrite (index_step_ok E fuel rq m a st r Hnet Hok).
        cbn [fst snd]. rewrite sleeps_final_attempt. simpl. repeat split; lia.
      * simpl in Hfin.
        destruct (retryable r (a + 1) m) eqn:Hr; [discriminate Hfin|].
        rewrite (index_step_throw E fuel rq m a st r Hnet Hok Hr).
        cbn [fst snd]. rewrite sleeps_final_attempt. simpl. repeat split; lia.
    + rewrite (index_step_reject E fuel rq m a st e Hnet).
      cbn [fst snd]. rewrite sleeps_final_attempt. simpl. repeat split; lia.
  - cbv zeta.
    destruct (not_final_retry _ _ (Hpre 0%nat ltac:(lia))) as (r & Hnet & Hok & Hr).
    rewrite Nat.add_0_r in Hnet. rewrite Z.add_0_r in Hr.
    rewrite (index_step_retry E fuel rq m a st r Hnet Hr).
    specialize (IH fuel (a + 1) (after_retry rq r (a + 1) st)).
    cbv zeta in IH. rewrite n_fetch_after_retry in IH.
    replace (n_fetch st + S j)%nat with (S (n_fetch st) + j)%nat by lia.
    destruct IH as (I1 & I2 & I3).
    + lia.
    + intros i Hi. specialize (Hpre (S i) ltac:(lia)).
      replace (S (n_fetch st) + i)%nat with (n_fetch st + S i)%nat by lia.
      replace (a + 1 + Z.of_nat i + 1) with (a + Z.of_nat (S i) + 1) by lia.
      exact Hpre.
    + replace (a + 1 + Z.of_nat j + 1) with (a + Z.of_nat (S j) + 1) by lia.
      replace (S (n_fetch st) + j)%nat with (n_fetch st + S j)%nat by lia.
      exact Hfin.
    + split; [exact I1|]. split; [lia|].
      rewrite I3, sleeps_length_after_retry. lia.
Qed.

End FirstFinalAnswer.

(** X3.  [fetchWithRetry] stops at the first answer that is final: a
    rejected request, a success status, a failure status other than 429 and
    503, or any failure once the attempts are used up.  If the first [j]
    answers are not final and the next one is, the loop has sent exactly
    [j + 1] requests and slept [j] times, and it ends as that answer says:
    a rejection is rethrown as it is (a network error is not retried), a
    success is returned, a failure status is thrown as the HTTP error built
    from that response. *)
Theorem fetchWithRetry_stops_at_first_final_answer (E : Env) (rq : Request)
    (m : Z) (st : State) (j : nat) :
  (forall i, (i < j)%nat ->
     final m (Z.of_nat i + 1) (net E (n_fetch st + i) rq) = false) ->
  final m (Z.of_nat j + 1) (net E (n_fetch st + j) rq) = true ->
  let p := Poller.fetchWithRetry E rq m st in
  let q := IndexJs.fetchWithRetry E rq m st in
  fst p = poller_settle (net E (n_fetch st + j) rq) /\
  fst q = index_settle rq (net E (n_fetch st + j) rq) /\
  n_fetch (snd p) = (n_fetch st + S j)%nat /\
  n_fetch (snd q) = (n_fetch st + S j)%nat /\
  List.length (sleeps (trace (snd p))) = (List.length (sleeps (trace st)) + j)%nat /\
  List.length (sleeps (trace (snd q))) = (List.length (sleeps (trace st)) + j)%nat.
Proof.
  intros Hpre Hfin.
  assert (Hj : (j < Z.to_nat (Z.max 1 m))%nat).
  { destruct j as [|j]; [lia|].
    destruct (not_final_retry m _ _ (Hpre j ltac:(lia))) as (r & _ & _ & Hr).
    unfold retryable in Hr. apply andb_true_iff in Hr. destruct Hr as [_ Hr].
    apply Z.ltb_lt in Hr. lia. }
  destruct (poller_loop_first_final E rq m j _ 0 st Hj Hpre Hfin) as (P1 & P2 & P3).
  destruct (index_loop_first_final E rq m j _ 0 st Hj Hpre Hfin) as (Q1 & Q2 & Q3).
  cbv zeta. unfold Poller.fetchWithRetry, IndexJs.fetchWithRetry.
  repeat split; assumption.
Qed.

(** Two throttled answers, then a 404. *)
Lemma fetchWithRetry_stops_at_first_final_answer_witness :
  (forall i, (i < 2)%nat ->
     final 5 (Z.of_nat i + 1) (net env_then_404 (n_fetch st0 + i) rq_list) = false) /\
  final 5 (Z.of_nat 2 + 1) (net env_then_404 (n_fetch st0 + 2) rq_list) = true /\
  fst (Poller.fetchWithRetry env_then_404 rq_list 5 st0)
  = Throw (mkError (js "HTTP 404 Not Found" ++ [10%N])) /\
  n_fetch (snd (Poller.fetchWithRetry env_then_404 rq_list 5 st0)) = 3%nat.
Proof.
  assert (Hpre : forall i, (i < 2)%nat ->
            final 5 (Z.of_nat i + 1) (net env_then_404 (n_fetch st0 + i) rq_list)
            = false).
  { intros [|[|i]] Hi; [reflexivity|reflexivity|lia]. }
  assert (Hfin : final 5 (Z.of_nat 2 + 1)
                   (net env_then_404 (n_fetch st0 + 2) rq_list) = true)
    by reflexivity.
  split; [exact Hpre|]. split; [exact Hfin|].
  pose proof (fetchWithRetry_stops_at_first_final_answer env_then_404 rq_list 5
                st0 2 Hpre Hfin) as H.
  cbv zeta in H. destruct H as (P1 & _ & P2 & _).
  split; [exact P1|exact P2].
Defined.

Lemma throttled_status res :
  throttled res = true -> status res = 429 \/ status res = 503.
Proof.
  unfold throttled. intros H. apply orb_true_iff in H.
  destruct H as [H|H]; apply Z.eqb_eq in H; auto.
Qed.

Lemma wait_without_header res a :
  no_retry_after res = true ->
  retry_wait (headers_get (js "retry-after") (headers res)) a
  = Num (Z.min 32000 (1000 * 2 ^ a)).
Proof.
  unfold no_retry_after, retry_wait.
  destruct (headers_get (js "retry-after") (headers res)) as [[|c s]|];
    [reflexivity|discriminate|reflexivity].
Qed.

Lemma backoff_bounds (a : Z) :
  1 <= a ->
  2000 <= Z.min 32000 (1000 * 2 ^ a) <= 32000 /\
  (a <= 4 -> Z.min 32000 (1000 * 2 ^ a) = 1000 * 2 ^ a) /\
  (5 <= a -> Z.min 32000 (1000 * 2 ^ a) = 32000).
Proof.
  intros Ha.
  assert (H1 : 2 ^ 1 <= 2 ^ a) by (apply Z.pow_le_mono_r; lia).
  change (2 ^ 1) with 2 in H1.
  split; [lia|]. split.
  - intros H4.
    assert (H2 : 2 ^ a <= 2 ^ 4) by (apply Z.pow_le_mono_r; lia).
    change (2 ^ 4) with 16 in H2. lia.
  - intros H5.
    assert (H2 : 2 ^ 5 <= 2 ^ a) by (apply Z.pow_le_mono_r; lia).
    change (2 ^ 5) with 32 in H2. lia.
Qed.

Ltac backoff_step lem N T :=
  erewrite lem;
  [ | exact N | apply throttled_retryable; [apply throttled_status; exact T | lia] ].

(** X4.  Without a Retry-After header (or with an empty one) the wait before
    the retry that follows attempt [a] is min(32000, 1000 * 2^a): at least
    2000 ms, at most 32000 ms, the plain power up to the fourth attempt and
    the cap from the fifth on.  With the five attempts the callers use, a
    server that keeps answering 429 or 503 without naming a wait is
    therefore waited on for 2000, 4000, 8000 and 16000 ms, and the cap is
    never reached. *)
Theorem default_backoff_schedule (E : Env) (rq : Request) (st : State) :
  (forall a, 1 <= a ->
     exists w,
       retry_wait None a = Num w /\ retry_wait (Some []) a = Num w /\
       2000 <= w <= 32000 /\
       (a <= 4 -> w = 1000 * 2 ^ a) /\ (5 <= a -> w = 32000)) /\
  ((forall k, exists r,
       net E k rq = inl r /\ throttled r = true /\ no_retry_after r = true) ->
   sleeps (trace (snd (Poller.fetchWithRetry E rq 5 st)))
   = sleeps (trace st) ++ [Num 2000; Num 4000; Num 8000; Num 16000] /\
   sleeps (trace (snd (IndexJs.fetchWithRetry E rq 5 st)))
   = sleeps (trace st) ++ [Num 2000; Num 4000; Num 8000; Num 16000]).
Proof.
  split.
  - intros a Ha. exists (Z.min 32000 (1000 * 2 ^ a)).
    destruct (backoff_bounds a Ha) as (B1 & B2 & B3). repeat split; auto; lia.
  - intros H.
    destruct (H (n_fetch st)) as (r1 & N1 & T1 & W1).
    destruct (H (S (n_fetch st))) as (r2 & N2 & T2 & W2).
    destruct (H (S (S (n_fetch st)))) as (r3 & N3 & T3 & W3).
    destruct (H (S (S (S (n_fetch st))))) as (r4 & N4 & T4 & W4).
    destruct (H (S (S (S (S (n_fetch st)))))) as (r5 & N5 & T5 & W5).
    set (s1 := after_retry rq r1 1 st).
    set (s2 := after_retry rq r2 2 s1).
    set (s3 := after_retry rq r3 3 s2).
    set (s4 := after_retry rq r4 4 s3).
    assert (Hs : sleeps (trace (emit (EvFetch rq) (bump_fetch s4)))
                 = sleeps (trace st) ++ [Num 2000; Num 4000; Num 8000; Num 16000]).
    { rewrite sleeps_final_attempt. subst s4 s3 s2 s1.
      rewrite !sleeps_after_retry.
      rewrite (wait_without_header r1 1 W1), (wait_without_header r2 2 W2),
        (wait_without_header r3 3 W3), (wait_without_header r4 4 W4).
      rewrite <- !app_assoc. reflexivity. }
    split.
    + unfold Poller.fetchWithRetry. change (Z.to_nat (Z.max 1 5)) with 5%nat.
      backoff_step poller_step_retry N1 T1.
      backoff_step poller_step_retry N2 T2.
      backoff_step poller_step_retry N3 T3.
      backoff_step poller_step_retry N4 T4.
      erewrite poller_step_throw;
        [exact Hs | exact N5
         | apply throttled_not_ok; apply throttled_status; exact T5
         | apply last_attempt_not_retryable].
    + unfold IndexJs.fetchWithRetry. change (Z.to_nat (Z.max 1 5)) with 5%nat.
      backoff_step index_step_retry N1 T1.
      backoff_step index_step_retry N2 T2.
      backoff_step index_step_retry N3 T3.
      backoff_step index_step_retry N4 T4.
      erewrite index_step_throw;
        [exact Hs | exact N5
         | apply throttled_not_ok; apply throttled_status; exact T5
         | apply last_attempt_not_retryable].
Qed.

Lemma default_backoff_schedule_witness :
  (forall k, exists r,
      net env_throttling k rq_list = inl r /\ throttled r = true /\
      no_retry_after r = true) /\
  sleeps (trace (snd (Poller.fetchWithRetry env_throttling rq_list 5 st0)))
  = sleeps (trace st0) ++ [Num 2000; Num 4000; Num 8000; Num 16000].
Proof.
  assert (H : forall k, exists r,
             net env_throttling k rq_list = inl r /\ throttled r = true /\
             no_retry_after r = true).
  { intros k. exists (plain 429 "slow down"). repeat split. }
  split; [exact H|].
  exact (proj1 (proj2 (default_backoff_schedule env_throttling rq_list st0) H)).
Defined.

(* ===================================================================== *)
(** * The URL builders *)
(* ===================================================================== *)

Lemma hex_digit_unreserved (d : N) : (d < 16)%N -> unreserved (hex_digit d) = true.
Proof.
  intros H.
  assert (C : (d = 0 \/ d = 1 \/ d = 2 \/ d = 3 \/ d = 4 \/ d = 5 \/ d = 6
               \/ d = 7 \/ d = 8 \/ d = 9 \/ d = 10 \/ d = 11 \/ d = 12
               \/ d = 13 \/ d = 14 \/ d = 15)%N) by lia.
  repeat (destruct C as [->|C]; [reflexivity|]). subst. reflexivity.
Qed.

Lemma pct_safe (b : N) : (b < 256)%N -> Forall segment_safe (pct b).
Proof.
  intros H. unfold pct.
  apply Forall_cons; [right; reflexivity|].
  apply Forall_cons.
  { left. apply hex_digit_unreserved. apply N.Div0.div_lt_upper_bound. lia. }
  apply Forall_cons; [|apply Forall_nil].
  left. apply hex_digit_unreserved. apply N.mod_lt. lia.
Qed.

Lemma utf8_safe (cp : N) : (cp < 1114112)%N -> Forall segment_safe (utf8 cp).
Proof.
  intros H. unfold utf8.
  pose proof (N.mod_lt cp 64 ltac:(lia)) as M1.
  pose proof (N.mod_lt (cp / 64) 64 ltac:(lia)) as M2.
  pose proof (N.mod_lt (cp / 4096) 64 ltac:(lia)) as M3.
  destruct (N.ltb_spec cp 128) as [L1|L1]; [apply pct_safe; lia|].
  destruct (N.ltb_spec cp 2048) as [L2|L2].
  { apply Forall_app. split; apply pct_safe; [|lia].
    pose proof (N.Div0.div_lt_upper_bound cp 64 32 ltac:(lia)). lia. }
  destruct (N.ltb_spec cp 65536) as [L3|L3].
  { repeat (apply Forall_app; split); apply pct_safe; try lia.
    pose proof (N.Div0.div_lt_upper_bound cp 4096 16 ltac:(lia)). lia. }
  repeat (apply Forall_app; split); apply pct_safe; try lia.
  pose proof (N.Div0.div_lt_upper_bound cp 262144 5 ltac:(lia)). lia.
Qed.

Lemma encode_safe_bounded (n : nat) :
  forall s u,
    (List.length s <= n)%nat -> code_units s ->
    encodeURIComponent s = Some u -> Forall segment_safe u.
Proof.
  induction n as [|n IH]; intros s u Hlen Hcu Henc.
  - destruct s; [|simpl in Hlen; lia]. inversion Henc. constructor.
  - destruct s as [|c s']; [inversion Henc; constructor|].
    simpl in Hlen. inversion Hcu as [|c0 l Hc Hcu']; subst.
    simpl in Henc. destruct (unreserved c) eqn:Hun.
    + destruct (encodeURIComponent s') as [u'|] eqn:He; [|discriminate].
      inversion Henc; subst. constructor; [left; exact Hun|].
      apply (IH s' u'); [lia|exact Hcu'|exact He].
    + destruct (is_high c) eqn:Hh.
      * destruct s' as [|d s'']; [discriminate|].
        destruct (is_low d) eqn:Hl; [|discriminate].
        destruct (encodeURIComponent s'') as [u''|] eqn:He; [|discriminate].
        inversion Henc; subst. apply Forall_app. split.
        -- apply utf8_safe. unfold is_high in Hh. unfold is_low in Hl.
           apply andb_true_iff in Hh. destruct Hh as [H1 H2].
           apply andb_true_iff in Hl. destruct Hl as [H3 H4].
           apply N.leb_le in H1. apply N.ltb_lt in H2.
           apply N.leb_le in H3. apply N.ltb_lt in H4. lia.
        -- inversion Hcu' as [|d0 l0 Hd Hcu'']; subst.
           apply (IH s'' u''); [simpl in Hlen; lia|exact Hcu''|exact He].
      * destruct (is_low c); [discriminate|].
        destruct (encodeURIComponent s') as [u'|] eqn:He; [|discriminate].
        inversion Henc; subst. apply Forall_app. split.
        -- apply utf8_safe. lia.
        -- apply (IH s' u'); [lia|exact Hcu'|exact He].
Qed.

Lemma encode_safe (s u : jsstring) :
  code_units s -> encodeURIComponent s = Some u -> Forall segment_safe u.
Proof. apply (encode_safe_bounded (List.length s)). lia. Qed.

Lemma segment_safe_not (c : N) (u : jsstring) :
  unreserved c = false -> c <> 37%N -> Forall segment_safe u -> ~ In c u.
Proof.
  intros Hu Hp Hall Hin. rewrite Forall_forall in Hall.
  destruct (Hall c Hin) as [H|H]; [rewrite H in Hu; discriminate|contradiction].
Qed.

Lemma encode_unreserved (s : jsstring) :
  forallb unreserved s = true -> encodeURIComponent s = Some s.
Proof.
  induction s as [|c s IH]; simpl; intros H; [reflexivity|].
  apply andb_true_iff in H. destruct H as [Hc Hs].
  rewrite Hc, (IH Hs). reflexivity.
Qed.

(** X5.  Whatever the meeting id and the fragment id are, a URL that
    [transcriptDetailUrl] returns is the fixed prefix, the encoded meeting
    id, "/transcripts/" and the encoded fragment id, where both encoded
    parts consist of unreserved characters and percent signs only: in
    particular they hold no slash, question mark, hash or space, so an
    identifier cannot add a path segment or a query to the request.  The
    builder touches no state. *)
Theorem detail_url_has_one_segment_per_id (meetingId : jsstring) (id : value)
    (st st' : State) (u : jsstring) :
  code_units meetingId -> code_units (toString id) ->
  transcriptDetailUrl meetingId id st = (Ret u, st') ->
  st' = st /\
  exists em eid,
    u = base ++ feed ++ em ++ js "/transcripts/" ++ eid /\
    encodeURIComponent meetingId = Some em /\
    encodeURIComponent (toString id) = Some eid /\
    Forall segment_safe em /\ Forall segment_safe eid /\
    (forall c, In c [47; 63; 35; 32]%N -> ~ In c em /\ ~ In c eid).
Proof.
  intros Hm Hi H. unfold transcriptDetailUrl, bind, encode, ToString in H.
  destruct (encodeURIComponent meetingId) as [em|] eqn:Hem; [|discriminate H].
  unfold ret in H.
  destruct (stringifiable id); [|discriminate H].
  destruct (encodeURIComponent (toString id)) as [eid|] eqn:Heid; [|discriminate H].
  inversion H; subst. split; [reflexivity|].
  pose proof (encode_safe _ _ Hm Hem) as Sm.
  pose proof (encode_safe _ _ Hi Heid) as Si.
  exists em, eid. repeat split; try assumption;
    simpl in H0; destruct H0 as [<-|[<-|[<-|[<-|[]]]]];
      apply segment_safe_not; (reflexivity || discriminate || assumption).
Qed.

Lemma detail_url_has_one_segment_per_id_witness :
  code_units (js "m1") /\ code_units (toString (VStr (js "a/b?c"))) /\
  transcriptDetailUrl (js "m1") (VStr (js "a/b?c")) st0
  = (Ret (base ++ feed ++ js "m1" ++ js "/transcripts/" ++ js "a%2Fb%3Fc"), st0) /\
  exists em eid,
    base ++ feed ++ js "m1" ++ js "/transcripts/" ++ js "a%2Fb%3Fc"
    = base ++ feed ++ em ++ js "/transcripts/" ++ eid /\
    encodeURIComponent (js "m1") = Some em /\
    encodeURIComponent (toString (VStr (js "a/b?c"))) = Some eid /\
    Forall segment_safe em /\ Forall segment_safe eid /\
    (forall c, In c [47; 63; 35; 32]%N -> ~ In c em /\ ~ In c eid).
Proof.
  assert (H1 : code_units (js "m1")) by (repeat constructor).
  assert (H2 : code_units (toString (VStr (js "a/b?c")))) by (repeat constructor).
  split; [exact H1|]. split; [exact H2|]. split; [reflexivity|].
  exact (proj2 (detail_url_has_one_segment_per_id (js "m1") (VStr (js "a/b?c"))
                  st0 st0 _ H1 H2 eq_refl)).
Defined.

(** X6.  A meeting id and a fragment id made only of letters, digits and
    the marks - _ . ! ~ * ' ( ) go into the URLs unchanged: the list URL is
    the prefix, the meeting id and "/transcripts", and the detail URL is the
    list URL, a slash and the identifier. *)
Theorem urls_keep_unreserved_ids (meetingId id : jsstring) (st : State) :
  forallb unreserved meetingId = true -> forallb unreserved id = true ->
  transcriptsListUrl meetingId st
  = (Ret (base ++ feed ++ meetingId ++ js "/transcripts"), st) /\
  transcriptDetailUrl meetingId (VStr id) st
  = (Ret ((base ++ feed ++ meetingId ++ js "/transcripts") ++ js "/" ++ id), st).
Proof.
  intros Hm Hi.
  unfold transcriptsListUrl, transcriptDetailUrl, bind, encode, ToString.
  cbn [toString stringifiable].
  rewrite (encode_unreserved _ Hm). unfold ret.
  rewrite (encode_unreserved _ Hi).
  split; [reflexivity|]. rewrite <- !app_assoc. reflexivity.
Qed.

Lemma urls_keep_unreserved_ids_witness :
  forallb unreserved (js "m1") = true /\
  forallb unreserved (js "frag-01_a.b") = true /\
  transcriptDetailUrl (js "m1") (VStr (js "frag-01_a.b")) st0
  = (Ret ((base ++ feed ++ js "m1" ++ js "/transcripts") ++ js "/" ++ js "frag-01_a.b"),
     st0).
Proof.
  split; [reflexivity|]. split; [reflexivity|].
  exact (proj2 (urls_keep_unreserved_ids (js "m1") (js "frag-01_a.b") st0
                  eq_refl eq_refl)).
Defined.

(* ===================================================================== *)
(** * More on the summary printer and the loop body *)
(* ===================================================================== *)

Lemma get_not_object (v : value) (p : string) :
  not_object v = true -> get v p = VUndefined.
Proof. destruct v; try reflexivity; discriminate. Qed.

Lemma item_id_not_object (t : value) : not_object t = true -> item_id t = VUndefined.
Proof.
  intros H. unfold item_id. rewrite !(get_not_object t _ H). reflexivity.
Qed.

(** X7.  [prettyPrintTranscript] of the revision with the tolerant decoder
    throws exactly when one of the values it converts to a string cannot be
    converted (an object that hides [toString] behind an own property, or an
    array holding one), and the error is then the TypeError of the
    conversion.  When the id, or a truthy created, lang or speaker, does not
    convert, nothing has been printed; when they do and the truthy text does
    not, the header has been printed.  Otherwise it returns, having printed
    the header and then the text line exactly when the text is truthy.  The
    header always starts with the bullet and the id, so the fallback of
    [header || ...] is never used.  On a value that is not an object
    (including [null] and [undefined]) it returns after the single line with
    id unknown. *)
Theorem summary_printer_outcome (obj : value) (st : State) :
  let r := Poller.prettyPrintTranscript obj st in
  let header_ok := forallb stringifiable (header_fields obj) in
  let text := Poller.pp_text obj in
  (header_ok = false -> r = (Throw TypeError_primitive, st)) /\
  (header_ok = true -> truthy text = true -> stringifiable text = false ->
     r = (Throw TypeError_primitive, emit (EvLog (header_text obj)) st)) /\
  (header_ok = true -> truthy text = true -> stringifiable text = true ->
     r = (Ret tt,
          emit (EvLog (js "  " ++ toString text))
            (emit (EvLog (header_text obj)) st))) /\
  (header_ok = true -> truthy text = false ->
     r = (Ret tt, emit (EvLog (header_text obj)) st)) /\
  (exists rest,
     header_text obj
     = bullet ++ js " id: " ++ toString (Poller.pp_id obj) ++ rest) /\
  (not_object obj = true ->
     r = (Ret tt, emit (EvLog (bullet ++ js " id: unknown")) st)).
Proof.
  cbv zeta.
  assert (Hret : printable_with (Poller.pp_text obj) obj = true ->
                 Poller.prettyPrintTranscript obj st = (Ret tt, printed obj st))
    by apply poller_pretty_returns.
  unfold printable_with, printed, printed_with in Hret.
  split; [|split; [|split; [|split; [|split]]]].
  - intros H. unfold Poller.prettyPrintTranscript, bind.
    rewrite (pp_header_throws obj st H). reflexivity.
  - intros H Ht Hs. unfold Poller.prettyPrintTranscript, bind.
    rewrite (pp_header_ok obj st H). apply pp_print_throws; assumption.
  - intros H Ht Hs. rewrite H, Ht, Hs in Hret. apply Hret. reflexivity.
  - intros H Ht. rewrite H, Ht in Hret. apply Hret. reflexivity.
  - apply header_text_shape.
  - intros H. rewrite Hret.
    + unfold header_text, header_part, Poller.pp_text, Poller.pp_id,
        Poller.pp_created, Poller.pp_lang, Poller.pp_speaker.
      rewrite !(get_not_object obj _ H). reflexivity.
    + unfold header_fields, Poller.pp_text, Poller.pp_id,
        Poller.pp_created, Poller.pp_lang, Poller.pp_speaker.
      rewrite !(get_not_object obj _ H). reflexivity.
Qed.

Lemma summary_printer_outcome_witness :
  not_object VNull = true /\
  Poller.prettyPrintTranscript VNull st0
  = (Ret tt, emit (EvLog (bullet ++ js " id: unknown")) st0) /\
  forallb stringifiable
    (header_fields (VObj [(js "id", VObj [(js "toString", VNum 1)])])) = false /\
  Poller.prettyPrintTranscript
    (VObj [(js "id", VObj [(js "toString", VNum 1)])]) st0
  = (Throw TypeError_primitive, st0).
Proof.
  split; [reflexivity|]. split.
  - exact (proj2 (proj2 (proj2 (proj2 (proj2
             (summary_printer_outcome VNull st0))))) eq_refl).
  - split; [reflexivity|].
    exact (proj1 (summary_printer_outcome
                    (VObj [(js "id", VObj [(js "toString", VNum 1)])]) st0)
             eq_refl).
Defined.

Lemma poller_skip_unusable E JSON_parse cfg (t : value) (st : State) :
  truthy (item_id t) = false ->
  Poller.process_item E JSON_parse cfg t st = (Ret tt, st).
Proof.
  intros H. unfold Poller.process_item, bind, seen_has. rewrite H. reflexivity.
Qed.

Lemma index_skip_unusable E JSON_parse cfg (t : value) (st : State) :
  nullish t = false -> truthy (item_id t) = false ->
  IndexJs.process_item E JSON_parse cfg t st = (Ret tt, st).
Proof.
  intros Hn H. unfold IndexJs.process_item, IndexJs.get_strict, bind, seen_has.
  rewrite Hn. unfold ret. rewrite H. reflexivity.
Qed.

(** X8.  An item without a usable identifier is skipped without any effect:
    this is every item whose id, transcriptId and metadata.id are all
    missing or null, every item whose first non-null candidate is false, 0
    or the empty string, and (in the revision with the tolerant decoder)
    every item that is not an object.  A list made only of such items leaves
    the state exactly as it was: nothing is marked, announced or fetched. *)
Theorem items_without_id_are_skipped (E : Env)
    (JSON_parse : jsstring -> value + JsError) (cfg : Config)
    (items : list value) (st : State) :
  (forall t, In t items -> truthy (item_id t) = false) ->
  for_of items (Poller.process_item E JSON_parse cfg) st = (Ret tt, st) /\
  ((forall t, In t items -> nullish t = false) ->
   for_of items (IndexJs.process_item E JSON_parse cfg) st = (Ret tt, st)) /\
  (forall t, not_object t = true -> truthy (item_id t) = false).
Proof.
  intros H. split; [|split].
  - induction items as [|t items IH]; [reflexivity|].
    simpl. unfold bind.
    rewrite (poller_skip_unusable E JSON_parse cfg t st (H t (or_introl eq_refl))).
    apply IH. intros t' Ht'. apply H. right. exact Ht'.
  - intros Hn. induction items as [|t items IH]; [reflexivity|].
    simpl. unfold bind.
    rewrite (index_skip_unusable E JSON_parse cfg t st
               (Hn t (or_introl eq_refl)) (H t (or_introl eq_refl))).
    apply IH; intros t' Ht'; [apply H|apply Hn]; right; exact Ht'.
  - intros t Ht. rewrite (item_id_not_object t Ht). reflexivity.
Qed.

(** Items with no id, a null id, an empty id, the id 0, and two values that
    are not objects. *)
Lemma items_without_id_are_skipped_witness :
  (forall t, In t items_unusable -> truthy (item_id t) = false) /\
  for_of items_unusable (Poller.process_item env_detail_fails MiniJson.parse cfg0) st0
  = (Ret tt, st0).
Proof.
  assert (H : forall t, In t items_unusable -> truthy (item_id t) = false).
  { intros t Ht. simpl in Ht.
    repeat (destruct Ht as [<-|Ht]; [reflexivity|]). contradiction. }
  split; [exact H|].
  exact (proj1 (items_without_id_are_skipped env_detail_fails MiniJson.parse cfg0
                  items_unusable st0 H)).
Defined.

(** X9.  On an item that is [null] (or [undefined]) the two revisions part:
    the revision with the tolerant decoder reads the id with [?.], skips the
    item and goes on with the rest of the list; the other reads [t.id], which
    throws a TypeError, and that error ends the [for]: the items after the
    null one are not looked at in that turn. *)
Theorem null_item_skipped_or_fatal_to_the_turn (E : Env)
    (JSON_parse : jsstring -> value + JsError) (cfg : Config)
    (t : value) (rest : list value) (st : State) :
  nullish t = true ->
  for_of (t :: rest) (Poller.process_item E JSON_parse cfg) st
  = for_of rest (Poller.process_item E JSON_parse cfg) st /\
  for_of (t :: rest) (IndexJs.process_item E JSON_parse cfg) st
  = (Throw (cannot_read_id t), st).
Proof.
  intros H. split.
  - simpl. unfold bind at 1.
    rewrite (poller_skip_unusable E JSON_parse cfg t st); [reflexivity|].
    destruct t; try discriminate H; reflexivity.
  - simpl. unfold bind at 1, IndexJs.process_item, bind at 1, IndexJs.get_strict.
    rewrite H. reflexivity.
Qed.

Lemma null_item_skipped_or_fatal_to_the_turn_witness :
  nullish VNull = true /\
  for_of [VNull; VObj [(js "id", VStr (js "b"))]]
         (IndexJs.process_item env_detail_fails MiniJson.parse cfg0) st0
  = (Throw (mkError (js "Cannot read properties of null (reading 'id')")), st0).
Proof.
  split; [reflexivity|].
  exact (proj2 (null_item_skipped_or_fatal_to_the_turn env_detail_fails
                  MiniJson.parse cfg0 VNull [VObj [(js "id", VStr (js "b"))]]
                  st0 eq_refl)).
Defined.

(* ===================================================================== *)
(** * More on one turn of the loop *)
(* ===================================================================== *)

Section Turn.

Variable E : Env.
Variable JSON_parse : jsstring -> value + JsError.
Variable cfg : Config.

Lemma safeJson_parsed (res : Response) (text : jsstring) (v : value) (st : State) :
  status res <> 202 -> status res <> 204 -> body res = inl text ->
  trim text <> [] ->
  includes (js "application/json") (content_type res) = true ->
  JSON_parse text = inl v ->
  Poller.safeJson JSON_parse res st = (Ret v, st).
Proof.
  intros H202 H204 Hbody Ht Hj Hp. unfold Poller.safeJson.
  apply Z.eqb_neq in H202. apply Z.eqb_neq in H204. rewrite H202, H204.
  simpl orb. cbv iota. unfold bind, res_text. rewrite Hbody. unfold ret.
  destruct text as [|c text]; [elim Ht; reflexivity|].
  simpl negb. simpl orb.
  destruct (str_eqb (trim (c :: text)) []) eqn:Heq.
  - apply str_eqb_eq in Heq. contradiction.
  - rewrite Hj, Hp. reflexivity.
Qed.

Lemma list_and_process_continue (st st' : State) :
  Poller.list_and_process E JSON_parse cfg st = (Ret Continue, st') ->
  exists evs, trace st' = evs ++ [EvSleep (Number_ (POLL_MS cfg))].
Proof.
  unfold Poller.list_and_process, bind at 1, get_token, bind at 1.
  destruct (Poller.listTranscripts E JSON_parse cfg (token st) (RTA_MEETING_ID cfg) st)
    as [[lst|e|] s1]; try discriminate.
  destruct (truthy (get lst "_empty")).
  - unfold bind, sleep, ret.
    destruct (when_ (verbose cfg) _ s1) as [[[]|e|] s2]; try discriminate.
    intros H. inversion H; subst. eexists. reflexivity.
  - destruct (truthy (get lst "_raw")).
    + unfold bind, console_log, sleep, ret, ToString, throw.
      destruct (stringifiable (get lst "_raw")); try discriminate.
      intros H. inversion H; subst. eexists. reflexivity.
    + unfold bind, ret.
      destruct (when_ (verbose cfg) _ s1) as [[[]|e|] s2]; try discriminate.
      destruct (for_of (items_of lst) _ s2) as [[[]|e|] s3]; discriminate.
Qed.

Lemma poll_once_continue (st st' : State) :
  Poller.poll_once E JSON_parse cfg st = (Ret Continue, st') ->
  exists evs, trace st' = evs ++ [EvSleep (Number_ (POLL_MS cfg))].
Proof.
  unfold Poller.poll_once, bind.
  destruct (refresh_if_stale E st) as [[[]|e|] s1]; try discriminate.
  apply list_and_process_continue.
Qed.

End Turn.

(** X10.  The decoder hands a parsed body over as it is, and the loop tells
    the empty marker from a payload by looking for a truthy [_empty]
    property.  So a list answer that is valid JSON and itself carries a
    truthy [_empty] is taken for an empty body.  The whole effect of the
    [try] body is then: the list request; when verbose, the status line and
    the line about the empty body; the sleep of the poll interval; and
    [continue].  Nothing else is printed, no fragment of the answer is
    marked, announced or fetched, and the credential is left as it was. *)
Theorem payload_with_empty_marker_is_ignored (E : Env)
    (JSON_parse : jsstring -> value + JsError) (cfg : Config) (st : State)
    (m text : jsstring) (res : Response) (v : value) :
  encodeURIComponent (RTA_MEETING_ID cfg) = Some m ->
  net E (n_fetch st) (request (base ++ feed ++ m ++ js "/transcripts") (token st))
  = inl res ->
  ok res = true -> status res <> 202 -> status res <> 204 ->
  body res = inl text -> trim text <> [] ->
  includes (js "application/json") (content_type res) = true ->
  JSON_parse text = inl v ->
  truthy (get v "_empty") = true ->
  let r := Poller.list_and_process E JSON_parse cfg st in
  fst r = Ret Continue /\
  trace (snd r)
  = trace st
      ++ [EvFetch (request (base ++ feed ++ m ++ js "/transcripts") (token st))]
      ++ (if str_eqb (VERBOSE cfg) (js "1")
          then [EvLog (js "[list] HTTP " ++ of_Z (status res) ++ js " "
                         ++ statusText res);
                EvLog (js "[list] Empty body (202/204 or no data yet).")]
          else [])
      ++ [EvSleep (Number_ (POLL_MS cfg))] /\
  seen (snd r) = seen st /\
  token (snd r) = token st /\
  tokenAcquiredAt (snd r) = tokenAcquiredAt st /\
  n_fetch (snd r) = S (n_fetch st) /\
  n_idp (snd r) = n_idp st.
Proof.
  intros Hm Hnet Hok H202 H204 Hbody Ht Hj Hp He. cbv zeta.
  set (rq := request (base ++ feed ++ m ++ js "/transcripts") (token st)) in *.
  assert (Hlist :
            Poller.listTranscripts E JSON_parse cfg (token st) (RTA_MEETING_ID cfg) st
            = bind (when_ (verbose cfg)
                      (console_log (js "[list] HTTP " ++ of_Z (status res)
                                      ++ js " " ++ statusText res)))
                (fun _ => Poller.safeJson JSON_parse res)
                (emit (EvFetch rq) (bump_fetch st))).
  { unfold Poller.listTranscripts, bind at 1, transcriptsListUrl, bind at 1, encode.
    rewrite Hm. unfold ret. unfold bind at 1, Poller.fetchWithRetry.
    change (Z.to_nat (Z.max 1 5)) with 5%nat. fold rq.
    rewrite (poller_step_ok E 4 rq 5 0 st res Hnet Hok). reflexivity. }
  change (str_eqb (VERBOSE cfg) (js "1")) with (verbose cfg).
  assert (Hrun : exists st',
             Poller.list_and_process E JSON_parse cfg st = (Ret Continue, st') /\
             trace st'
             = trace st ++ [EvFetch rq]
                 ++ (if verbose cfg
                     then [EvLog (js "[list] HTTP " ++ of_Z (status res) ++ js " "
                                    ++ statusText res);
                           EvLog (js "[list] Empty body (202/204 or no data yet).")]
                     else [])
                 ++ [EvSleep (Number_ (POLL_MS cfg))] /\
             seen st' = seen st /\ token st' = token st /\
             tokenAcquiredAt st' = tokenAcquiredAt st /\
             n_fetch st' = S (n_fetch st) /\ n_idp st' = n_idp st).
  { unfold Poller.list_and_process, bind at 1, get_token. unfold bind at 1.
    rewrite Hlist. unfold bind at 1, when_, console_log, ret.
    destruct (verbose cfg);
      rewrite (safeJson_parsed JSON_parse res text v _ H202 H204 Hbody Ht Hj Hp);
      rewrite He; unfold bind, sleep, ret; eexists;
      (split; [reflexivity|]);
      cbn [emit bump_fetch seen trace token tokenAcquiredAt n_fetch n_idp];
      rewrite <- ?app_assoc; repeat split. }
  destruct Hrun as (st' & Hrun & H1 & H2 & H3 & H4 & H5 & H6). rewrite Hrun.
  repeat split; assumption.
Qed.

Lemma payload_with_empty_marker_is_ignored_witness :
  let st1 := after_startup env_marker_in_payload st0 in
  let r := Poller.list_and_process env_marker_in_payload MiniJson.parse cfg0 st1 in
  MiniJson.parse (MiniJson.json "{'_empty':true,'value':[{'id':'a'}]}")
  = inl (VObj [(js "_empty", VBool true);
               (js "value", VArr [VObj [(js "id", VStr (js "a"))]])]) /\
  fst r = Ret Continue /\
  trace (snd r)
  = trace st1 ++ [EvFetch (bearer list_url "t0")] ++ []
      ++ [EvSleep (Number_ (POLL_MS cfg0))] /\
  seen (snd r) = seen st1.
Proof.
  cbv zeta. split; [reflexivity|].
  pose proof (payload_with_empty_marker_is_ignored env_marker_in_payload
                MiniJson.parse cfg0 (after_startup env_marker_in_payload st0)
                (js "m1") (MiniJson.json "{'_empty':true,'value':[{'id':'a'}]}")
                (json_ok "{'_empty':true,'value':[{'id':'a'}]}")
                (VObj [(js "_empty", VBool true);
                       (js "value", VArr [VObj [(js "id", VStr (js "a"))]])])
                eq_refl eq_refl eq_refl) as H.
  cbv zeta in H.
  destruct H as (H1 & H2 & H3 & _); try reflexivity; try (simpl; discriminate).
  split; [exact H1|]. split; [exact H2|exact H3].
Defined.

(** X11.  A turn of the loop that completes always ends with the sleep of
    the poll interval, on every path: after the [for], after the handler of
    the outer [catch], and on the two early exits of the revision with the
    tolerant decoder (empty body, raw body), where the sleep inside the
    [try] takes the place of the one at the bottom.  The loop never starts
    the next turn without having slept. *)
Theorem every_turn_ends_with_the_poll_sleep (E : Env)
    (JSON_parse : jsstring -> value + JsError) (cfg : Config) (st st' : State) :
  Poller.iteration E JSON_parse cfg st = (Ret tt, st') \/
  IndexJs.iteration E JSON_parse cfg st = (Ret tt, st') ->
  exists evs, trace st' = evs ++ [EvSleep (Number_ (POLL_MS cfg))].
Proof.
  intros [H|H].
  - unfold Poller.iteration, bind, try_catch in H.
    destruct (Poller.poll_once E JSON_parse cfg st) as [[f|e|] s1] eqn:Hp.
    + destruct f.
      * inversion H; subst. apply (poll_once_continue E JSON_parse cfg st st' Hp).
      * inversion H; subst. eexists. reflexivity.
    + unfold bind in H.
      destruct (on_poll_error E e s1) as [[[]|e'|] s2]; try discriminate H.
      inversion H; subst. eexists. reflexivity.
    + discriminate H.
  - unfold IndexJs.iteration, bind, try_catch in H.
    destruct (IndexJs.poll_once E JSON_parse cfg st) as [[[]|e|] s1].
    + inversion H; subst. eexists. reflexivity.
    + destruct (on_poll_error E e s1) as [[[]|e'|] s2]; try discriminate H.
      inversion H; subst. eexists. reflexivity.
    + discriminate H.
Qed.

Lemma every_turn_ends_with_the_poll_sleep_witness :
  exists st',
    (Poller.iteration env_fifty_minutes MiniJson.parse cfg0
       (after_startup env_fifty_minutes st0) = (Ret tt, st') \/
     IndexJs.iteration env_fifty_minutes MiniJson.parse cfg0
       (after_startup env_fifty_minutes st0) = (Ret tt, st')) /\
    exists evs, trace st' = evs ++ [EvSleep (Number_ (POLL_MS cfg0))].
Proof.
  eexists. split; [left; vm_compute; reflexivity|].
  apply (every_turn_ends_with_the_poll_sleep env_fifty_minutes MiniJson.parse cfg0
           (after_startup env_fifty_minutes st0)).
  left. vm_compute. reflexivity.
Defined.

(* ===================================================================== *)
(** * What goes on the wire *)
(* ===================================================================== *)

Section Wire.

Variable E : Env.
Variable JSON_parse : jsstring -> value + JsError.
Variable cfg : Config.
Variable m : jsstring.
Variable tok : value.

Hypothesis meeting_encodes : encodeURIComponent (RTA_MEETING_ID cfg) = Some m.

Lemma sends_quiet {A} (c : M A) :
  (forall st, token (snd (c st)) = token st /\
              exists evs, trace (snd (c st)) = trace st ++ evs /\ fetches evs = []) ->
  sends_with m tok c.
Proof.
  intros H st Ht. destruct (H st) as (H1 & evs & H2 & H3).
  split; [congruence|]. exists evs. split; [exact H2|]. rewrite H3. constructor.
Qed.

Lemma sends_ret {A} (a : A) : sends_with m tok (ret a).
Proof.
  apply sends_quiet. intros st. split; [reflexivity|].
  exists []. split; [symmetry; apply app_nil_r|reflexivity].
Qed.

Lemma sends_throw {A} (e : JsError) : sends_with m tok (@throw A e).
Proof.
  apply sends_quiet. intros st. split; [reflexivity|].
  exists []. split; [symmetry; apply app_nil_r|reflexivity].
Qed.

Lemma sends_fuel {A} : sends_with m tok (@out_of_fuel A).
Proof.
  apply sends_quiet. intros st. split; [reflexivity|].
  exists []. split; [symmetry; apply app_nil_r|reflexivity].
Qed.

Lemma sends_bind {A B} (c : M A) (k : A -> M B) :
  sends_with m tok c -> (forall a, sends_with m tok (k a)) ->
  sends_with m tok (bind c k).
Proof.
  intros Hc Hk st Ht. unfold bind. destruct (Hc st Ht) as (H1 & evs & H2 & H3).
  destruct (c st) as [[a|e|] s1]; simpl in *;
    try (split; [exact H1|exists evs; split; assumption]).
  destruct (Hk a s1 H1) as (K1 & evs' & K2 & K3).
  split; [exact K1|]. exists (evs ++ evs'). split.
  - rewrite K2, H2, app_assoc. reflexivity.
  - rewrite fetches_app. apply Forall_app. split; assumption.
Qed.

Lemma sends_try {A} (c : M A) (h : JsError -> M A) :
  sends_with m tok c -> (forall e, sends_with m tok (h e)) ->
  sends_with m tok (try_catch c h).
Proof.
  intros Hc Hh st Ht. unfold try_catch. destruct (Hc st Ht) as (H1 & evs & H2 & H3).
  destruct (c st) as [[a|e|] s1]; simpl in *;
    try (split; [exact H1|exists evs; split; assumption]).
  destruct (Hh e s1 H1) as (K1 & evs' & K2 & K3).
  split; [exact K1|]. exists (evs ++ evs'). split.
  - rewrite K2, H2, app_assoc. reflexivity.
  - rewrite fetches_app. apply Forall_app. split; assumption.
Qed.

Lemma sends_when (b : bool) (c : M unit) :
  sends_with m tok c -> sends_with m tok (when_ b c).
Proof. intros H. destruct b; [exact H|apply sends_ret]. Qed.

Lemma sends_log s : sends_with m tok (console_log s).
Proof.
  apply sends_quiet. intros st. split; [reflexivity|].
  exists [EvLog s]. split; reflexivity.
Qed.

Lemma sends_warn s : sends_with m tok (console_warn s).
Proof.
  apply sends_quiet. intros st. split; [reflexivity|].
  exists [EvWarn s]. split; reflexivity.
Qed.

Lemma sends_dir v : sends_with m tok (console_dir v).
Proof.
  apply sends_quiet. intros st. split; [reflexivity|].
  exists [EvDir v]. split; reflexivity.
Qed.

Lemma sends_sleep ms : sends_with m tok (sleep ms).
Proof.
  apply sends_quiet. intros st. split; [reflexivity|].
  exists [EvSleep ms]. split; reflexivity.
Qed.

Lemma sends_res_text r : sends_with m tok (res_text r).
Proof. unfold res_text. destruct (body r); [apply sends_ret|apply sends_throw]. Qed.

Lemma sends_seen_has id : sends_with m tok (seen_has id).
Proof.
  apply sends_quiet. intros st. split; [reflexivity|].
  exists []. split; [symmetry; apply app_nil_r|reflexivity].
Qed.

Lemma sends_seen_add id : sends_with m tok (seen_add id).
Proof.
  apply sends_quiet. intros st. split; [reflexivity|].
  exists []. split; [symmetry; apply app_nil_r|reflexivity].
Qed.

Lemma sends_encode s : sends_with m tok (encode s).
Proof. unfold encode. destruct (encodeURIComponent s); [apply sends_ret|apply sends_throw]. Qed.

Lemma sends_ToString v : sends_with m tok (ToString v).
Proof. unfold ToString. destruct (stringifiable v); [apply sends_ret|apply sends_throw]. Qed.

Lemma sends_fetch rq : transcript_request m tok rq -> sends_with m tok (fetch E rq).
Proof.
  intros Hrq st Ht. unfold fetch.
  destruct (net E (n_fetch st) rq); simpl;
    (split; [exact Ht|]); exists [EvFetch rq];
    (split; [reflexivity|]); simpl;
    (apply Forall_cons; [exact Hrq|apply Forall_nil]).
Qed.

(** Reading the token gives [tok]. *)
Lemma sends_get_token {B} (k : value -> M B) :
  sends_with m tok (k tok) -> sends_with m tok (bind get_token k).
Proof. intros Hk st Ht. unfold bind, get_token. rewrite Ht. apply Hk. exact Ht. Qed.

End Wire.

Create HintDb sends.
#[export] Hint Resolve sends_ret sends_throw sends_fuel sends_log sends_warn
  sends_dir sends_sleep sends_res_text sends_seen_has sends_seen_add
  sends_encode sends_ToString : sends.

Ltac sends_steps :=
  repeat first
    [ solve [auto with sends]
    | match goal with
      | |- sends_with _ _ (bind get_token _) => apply sends_get_token
      | |- sends_with _ _ (bind _ _) => apply sends_bind; [|intros]
      | |- sends_with _ _ (try_catch _ _) => apply sends_try; [|intros]
      | |- sends_with _ _ (when_ _ _) => apply sends_when
      | |- sends_with _ _ (if ?b then _ else _) => destruct b
      | |- sends_with _ _ (match ?x with _ => _ end) => destruct x
      end ].

Section WireProgram.

Variable E : Env.
Variable JSON_parse : jsstring -> value + JsError.
Variable cfg : Config.
Variable m : jsstring.
Variable tok : value.

Hypothesis meeting_encodes : encodeURIComponent (RTA_MEETING_ID cfg) = Some m.

Lemma list_request_ok :
  transcript_request m tok (request (base ++ feed ++ m ++ js "/transcripts") tok).
Proof.
  split; [reflexivity|]. split; [reflexivity|]. left. reflexivity.
Qed.

Lemma detail_request_ok (id : value) (eid : jsstring) :
  stringifiable id = true -> encodeURIComponent (toString id) = Some eid ->
  transcript_request m tok
    (request (base ++ feed ++ m ++ js "/transcripts/" ++ eid) tok).
Proof.
  intros Hs He. split; [reflexivity|]. split; [reflexivity|].
  right. exists id, eid. split; [exact Hs|]. split; [exact He|].
  cbn [url request]. rewrite <- !app_assoc. reflexivity.
Qed.

(** The detail URL is built without any effect: it is the URL of one
    encoded identifier, or the builder throws. *)
Lemma detailUrl_cases (id : value) (st : State) :
  (exists eid,
     stringifiable id = true /\ encodeURIComponent (toString id) = Some eid /\
     transcriptDetailUrl (RTA_MEETING_ID cfg) id st
     = (Ret (base ++ feed ++ m ++ js "/transcripts/" ++ eid), st)) \/
  (exists e, transcriptDetailUrl (RTA_MEETING_ID cfg) id st = (Throw e, st)).
Proof.
  unfold transcriptDetailUrl, bind, encode, ToString.
  rewrite meeting_encodes. unfold ret.
  destruct (stringifiable id); [|right; eexists; reflexivity].
  destruct (encodeURIComponent (toString id)) as [eid|].
  - left. exists eid. repeat split.
  - right. eexists. reflexivity.
Qed.

Lemma sends_after_pure {A B} (c : M A) (k : A -> M B) :
  (forall st,
     (exists a, c st = (Ret a, st) /\ sends_with m tok (k a)) \/
     (exists e, c st = (Throw e, st))) ->
  sends_with m tok (bind c k).
Proof.
  intros H st Ht. unfold bind.
  destruct (H st) as [(a & -> & Hk)|[e ->]].
  - apply Hk. exact Ht.
  - split; [exact Ht|]. exists []. split; [symmetry; apply app_nil_r|constructor].
Qed.

Lemma poller_sends_retry fuel rq a n :
  transcript_request m tok rq ->
  sends_with m tok (Poller.fetchWithRetry_loop E fuel rq n a).
Proof.
  intros Hrq. revert a. induction fuel as [|fuel IH]; intros a; simpl.
  - apply sends_fuel.
  - pose proof (sends_fetch E m tok rq Hrq). sends_steps; apply IH.
Qed.

Lemma index_sends_retry fuel rq a n :
  transcript_request m tok rq ->
  sends_with m tok (IndexJs.fetchWithRetry_loop E fuel rq n a).
Proof.
  intros Hrq. revert a. induction fuel as [|fuel IH]; intros a; simpl.
  - apply sends_fuel.
  - pose proof (sends_fetch E m tok rq Hrq). sends_steps; apply IH.
Qed.

Lemma poller_sends_safeJson res : sends_with m tok (Poller.safeJson JSON_parse res).
Proof. unfold Poller.safeJson. sends_steps. Qed.

Lemma index_sends_res_json res : sends_with m tok (IndexJs.res_json JSON_parse res).
Proof. unfold IndexJs.res_json. sends_steps. Qed.

Lemma poller_sends_list :
  sends_with m tok (Poller.listTranscripts E JSON_parse cfg tok (RTA_MEETING_ID cfg)).
Proof.
  unfold Poller.listTranscripts, transcriptsListUrl, encode.
  rewrite meeting_encodes. intros st Ht. unfold bind at 1, bind at 1, ret.
  revert st Ht. change (sends_with m tok
    (bind (Poller.fetchWithRetry E
             (request (base ++ feed ++ m ++ js "/transcripts") tok) 5)
          (fun res =>
             when_ (verbose cfg)
               (console_log (js "[list] HTTP " ++ of_Z (status res) ++ js " "
                               ++ statusText res)) ;;
             Poller.safeJson JSON_parse res))).
  pose proof poller_sends_safeJson.
  apply sends_bind; [apply poller_sends_retry; apply list_request_ok|].
  intros res. sends_steps.
Qed.

Lemma index_sends_list :
  sends_with m tok (IndexJs.listTranscripts E JSON_parse tok (RTA_MEETING_ID cfg)).
Proof.
  unfold IndexJs.listTranscripts, transcriptsListUrl, encode.
  rewrite meeting_encodes. intros st Ht. unfold bind at 1, bind at 1, ret.
  revert st Ht. change (sends_with m tok
    (bind (IndexJs.fetchWithRetry E
             (request (base ++ feed ++ m ++ js "/transcripts") tok) 5)
          (fun res => IndexJs.res_json JSON_parse res))).
  apply sends_bind; [apply index_sends_retry; apply list_request_ok|].
  intros res. apply index_sends_res_json.
Qed.

Lemma poller_sends_detail id :
  sends_with m tok (Poller.getTranscript E JSON_parse cfg tok (RTA_MEETING_ID cfg) id).
Proof.
  unfold Poller.getTranscript. apply sends_after_pure. intros st.
  destruct (detailUrl_cases id st) as [(eid & Hs & He & Hu)|[e Hu]];
    [left|right; exists e; exact Hu].
  eexists. split; [exact Hu|].
  pose proof poller_sends_safeJson.
  apply sends_bind;
    [apply poller_sends_retry; apply (detail_request_ok id eid Hs He)|].
  intros res. sends_steps.
Qed.

Lemma index_sends_detail id :
  sends_with m tok (IndexJs.getTranscript E JSON_parse tok (RTA_MEETING_ID cfg) id).
Proof.
  unfold IndexJs.getTranscript. apply sends_after_pure. intros st.
  destruct (detailUrl_cases id st) as [(eid & Hs & He & Hu)|[e Hu]];
    [left|right; exists e; exact Hu].
  eexists. split; [exact Hu|].
  apply sends_bind;
    [apply index_sends_retry; apply (detail_request_ok id eid Hs He)|].
  intros res. apply index_sends_res_json.
Qed.

Lemma poller_sends_pretty obj : sends_with m tok (Poller.prettyPrintTranscript obj).
Proof.
  unfold Poller.prettyPrintTranscript, Poller.pp_header, Poller.pp_print,
    Poller.labelled.
  sends_steps.
Qed.

Lemma index_sends_pretty obj : sends_with m tok (IndexJs.prettyPrintTranscript obj).
Proof.
  unfold IndexJs.prettyPrintTranscript, IndexJs.get_strict, Poller.pp_header,
    Poller.pp_print, Poller.labelled.
  sends_steps.
Qed.

Lemma sends_for_of items body :
  (forall t, sends_with m tok (body t)) -> sends_with m tok (for_of items body).
Proof.
  intros Hb. induction items as [|t items IH]; simpl.
  - apply sends_ret.
  - apply sends_bind; [apply Hb|intros; exact IH].
Qed.

Lemma poller_sends_process_item t :
  sends_with m tok (Poller.process_item E JSON_parse cfg t).
Proof.
  unfold Poller.process_item, Poller.process_new.
  pose proof poller_sends_pretty. pose proof poller_sends_detail. sends_steps.
Qed.

Lemma index_sends_process_item t :
  sends_with m tok (IndexJs.process_item E JSON_parse cfg t).
Proof.
  unfold IndexJs.process_item, IndexJs.process_new, IndexJs.fetch_detail,
    IndexJs.get_strict.
  pose proof index_sends_pretty. pose proof index_sends_detail. sends_steps.
Qed.

Lemma poller_sends_list_and_process :
  sends_with m tok (Poller.list_and_process E JSON_parse cfg).
Proof.
  unfold Poller.list_and_process.
  pose proof poller_sends_list.
  pose proof (fun items => sends_for_of items _ poller_sends_process_item).
  sends_steps.
Qed.

Lemma index_sends_list_and_process :
  sends_with m tok (IndexJs.list_and_process E JSON_parse cfg).
Proof.
  unfold IndexJs.list_and_process.
  pose proof index_sends_list.
  pose proof (fun items => sends_for_of items _ index_sends_process_item).
  sends_steps.
Qed.

End WireProgram.

Lemma silent_getToken E : silent (getToken E).
Proof.
  intros st. rewrite getToken_state. simpl. rewrite fetches_app. apply app_nil_r.
Qed.

Lemma silent_refresh_block E (st : State) :
  fetches (trace (snd (bind (getToken E)
                         (fun t => set_token t ;; now <- Date_now E ;;
                                   set_tokenAcquiredAt now) st)))
  = fetches (trace st).
Proof.
  unfold bind. pose proof (getToken_state E st) as Hs.
  pose proof (silent_getToken E st) as Hf.
  destruct (getToken E st) as [[t|e|] s1]; simpl in *; exact Hf.
Qed.

Lemma silent_refresh E : silent (refresh_if_stale E).
Proof.
  intros st.
  destruct (Z_lt_le_dec (50 * 60 * 1000) (clock E (n_clock st) - tokenAcquiredAt st))
    as [H|H].
  - rewrite (refresh_stale E st H). rewrite silent_refresh_block. reflexivity.
  - rewrite (refresh_fresh E st H). reflexivity.
Qed.

Lemma silent_handler E err : silent (on_poll_error E err).
Proof.
  intros st. destruct (includes (js "401") (message err)) eqn:Hi.
  - rewrite (handler_401 E err st Hi). rewrite silent_refresh_block.
    unfold warned_401. simpl. rewrite fetches_app. apply app_nil_r.
  - rewrite (handler_other E err st Hi). simpl. rewrite fetches_app.
    apply app_nil_r.
Qed.

(** X12.  Every request of a turn goes to the transcripts of the configured
    meeting (the list URL, or the list URL followed by a slash and one
    encoded identifier), asks for application/json, and is authorised with
    the token that is current once the age check at the top of the turn is
    done: a token refreshed by that check is the one all requests of the
    turn carry.  The age check and the handler of the outer [catch] send no
    request themselves. *)
Theorem every_request_carries_the_current_token (E : Env)
    (JSON_parse : jsstring -> value + JsError) (cfg : Config)
    (m : jsstring) (st : State) :
  encodeURIComponent (RTA_MEETING_ID cfg) = Some m ->
  let checked := snd (refresh_if_stale E st) in
  fetches (trace checked) = fetches (trace st) /\
  (exists evs,
     trace (snd (Poller.poll_once E JSON_parse cfg st)) = trace checked ++ evs /\
     Forall (transcript_request m (token checked)) (fetches evs)) /\
  (exists evs,
     trace (snd (IndexJs.poll_once E JSON_parse cfg st)) = trace checked ++ evs /\
     Forall (transcript_request m (token checked)) (fetches evs)) /\
  (forall err s, fetches (trace (snd (on_poll_error E err s))) = fetches (trace s)).
Proof.
  intros Hm. cbv zeta. split; [apply silent_refresh|].
  split; [|split; [|intros err s; apply silent_handler]].
  - unfold Poller.poll_once, bind.
    destruct (refresh_if_stale E st) as [[[]|e|] s1]; simpl;
      try (exists []; split; [symmetry; apply app_nil_r|constructor]).
    destruct (poller_sends_list_and_process E JSON_parse cfg m (token s1) Hm s1 eq_refl)
      as (_ & evs & H1 & H2).
    exists evs. split; assumption.
  - unfold IndexJs.poll_once, bind.
    destruct (refresh_if_stale E st) as [[[]|e|] s1]; simpl;
      try (exists []; split; [symmetry; apply app_nil_r|constructor]).
    destruct (index_sends_list_and_process E JSON_parse cfg m (token s1) Hm s1 eq_refl)
      as (_ & evs & H1 & H2).
    exists evs. split; assumption.
Qed.

Lemma every_request_carries_the_current_token_witness :
  let st1 := after_startup env_fifty_minutes_1ms st0 in
  let checked := snd (refresh_if_stale env_fifty_minutes_1ms st1) in
  encodeURIComponent (RTA_MEETING_ID cfg0) = Some (js "m1") /\
  token st1 = VStr (js "t0") /\
  token checked = VStr (js "t1") /\
  exists evs,
    trace (snd (Poller.poll_once env_fifty_minutes_1ms MiniJson.parse cfg0 st1))
    = trace checked ++ evs /\
    Forall (transcript_request (js "m1") (token checked)) (fetches evs).
Proof.
  cbv zeta. split; [reflexivity|]. split; [reflexivity|]. split; [reflexivity|].
  exact (proj1 (proj2 (every_request_carries_the_current_token
                         env_fifty_minutes_1ms MiniJson.parse cfg0 (js "m1")
                         (after_startup env_fifty_minutes_1ms st0) eq_refl))).
Defined.

(* ===================================================================== *)
(** * The token through the run *)
(* ===================================================================== *)

Section TokenInvariant.

Variable E : Env.
Variable JSON_parse : jsstring -> value + JsError.
Variable cfg : Config.

Lemma index_keeps_retry fuel rq m a : keeps (IndexJs.fetchWithRetry_loop E fuel rq m a).
Proof.
  revert a. induction fuel as [|fuel IH]; intros a; simpl.
  - apply keeps_fuel.
  - keeps_steps; apply IH.
Qed.

Lemma index_keeps_res_json res : keeps (IndexJs.res_json JSON_parse res).
Proof. unfold IndexJs.res_json. keeps_steps. Qed.

Lemma index_keeps_list tok m : keeps (IndexJs.listTranscripts E JSON_parse tok m).
Proof.
  unfold IndexJs.listTranscripts, IndexJs.fetchWithRetry.
  pose proof keeps_listUrl. pose proof index_keeps_retry.
  pose proof index_keeps_res_json. keeps_steps.
Qed.

Lemma index_keeps_detail tok m id : keeps (IndexJs.getTranscript E JSON_parse tok m id).
Proof.
  unfold IndexJs.getTranscript, IndexJs.fetchWithRetry.
  pose proof keeps_detailUrl. pose proof index_keeps_retry.
  pose proof index_keeps_res_json. keeps_steps.
Qed.

Lemma index_keeps_pretty obj : keeps (IndexJs.prettyPrintTranscript obj).
Proof.
  unfold IndexJs.prettyPrintTranscript, IndexJs.get_strict, Poller.pp_header,
    Poller.pp_print, Poller.labelled.
  keeps_steps.
Qed.

Lemma index_keeps_process_item t : keeps (IndexJs.process_item E JSON_parse cfg t).
Proof.
  unfold IndexJs.process_item, IndexJs.process_new, IndexJs.fetch_detail,
    IndexJs.get_strict.
  pose proof index_keeps_pretty. pose proof index_keeps_detail. keeps_steps.
Qed.

Lemma index_keeps_list_and_process : keeps (IndexJs.list_and_process E JSON_parse cfg).
Proof.
  unfold IndexJs.list_and_process.
  pose proof index_keeps_list.
  pose proof (fun items => keeps_for_of items _ index_keeps_process_item).
  keeps_steps.
Qed.

Lemma keeps_truthy {A} (c : M A) : keeps c -> keeps_token_truthy c.
Proof. intros H st Ht. destruct (H st) as (H1 & _). rewrite H1. exact Ht. Qed.

Lemma truthy_bind {A B} (c : M A) (k : A -> M B) :
  keeps_token_truthy c -> (forall a, keeps_token_truthy (k a)) ->
  keeps_token_truthy (bind c k).
Proof.
  intros Hc Hk st Ht. unfold bind. specialize (Hc st Ht).
  destruct (c st) as [[a|e|] s1]; simpl in *; try exact Hc.
  apply Hk. exact Hc.
Qed.

Lemma truthy_try {A} (c : M A) (h : JsError -> M A) :
  keeps_token_truthy c -> (forall e, keeps_token_truthy (h e)) ->
  keeps_token_truthy (try_catch c h).
Proof.
  intros Hc Hh st Ht. unfold try_catch. specialize (Hc st Ht).
  destruct (c st) as [[a|e|] s1]; simpl in *; try exact Hc.
  apply Hh. exact Hc.
Qed.

(** What [getToken] returns is truthy. *)
Lemma getToken_truthy (st st' : State) (t : value) :
  getToken E st = (Ret t, st') -> truthy t = true.
Proof.
  unfold getToken, bind, acquireTokenByClientCredential.
  destruct (idp E (n_idp st)) as [r|e]; [|discriminate].
  destruct (truthy (get r "accessToken")) eqn:Ht; simpl; [|discriminate].
  intros H. inversion H; subst. exact Ht.
Qed.

Lemma truthy_refresh_block :
  keeps_token_truthy
    (bind (getToken E)
       (fun t => set_token t ;; now <- Date_now E ;; set_tokenAcquiredAt now)).
Proof.
  intros st Ht. unfold bind. pose proof (getToken_state E st) as Hs.
  destruct (getToken E st) as [[t|e|] s1] eqn:Hg; simpl in *.
  - apply (getToken_truthy st s1 t Hg).
  - subst s1. exact Ht.
  - subst s1. exact Ht.
Qed.

Lemma truthy_refresh : keeps_token_truthy (refresh_if_stale E).
Proof.
  intros st Ht.
  destruct (Z_lt_le_dec (50 * 60 * 1000) (clock E (n_clock st) - tokenAcquiredAt st))
    as [H|H].
  - rewrite (refresh_stale E st H). apply truthy_refresh_block. exact Ht.
  - rewrite (refresh_fresh E st H). exact Ht.
Qed.

Lemma truthy_handler err : keeps_token_truthy (on_poll_error E err).
Proof.
  intros st Ht. destruct (includes (js "401") (message err)) eqn:Hi.
  - rewrite (handler_401 E err st Hi). apply truthy_refresh_block. exact Ht.
  - rewrite (handler_other E err st Hi). exact Ht.
Qed.

Lemma poller_truthy_iteration : keeps_token_truthy (Poller.iteration E JSON_parse cfg).
Proof.
  unfold Poller.iteration, Poller.poll_once.
  apply truthy_bind.
  - apply truthy_try.
    + apply truthy_bind; [apply truthy_refresh|].
      intros _. apply keeps_truthy. apply poller_keeps_list_and_process.
    + intros e. apply truthy_bind; [apply truthy_handler|].
      intros _. apply keeps_truthy. apply keeps_ret.
  - intros [|]; apply keeps_truthy; [apply keeps_ret|apply keeps_sleep].
Qed.

Lemma index_truthy_iteration : keeps_token_truthy (IndexJs.iteration E JSON_parse cfg).
Proof.
  unfold IndexJs.iteration, IndexJs.poll_once.
  apply truthy_bind.
  - apply truthy_try.
    + apply truthy_bind; [apply truthy_refresh|].
      intros _. apply keeps_truthy. apply index_keeps_list_and_process.
    + intros e. apply truthy_handler.
  - intros _. apply keeps_truthy. apply keeps_sleep.
Qed.

Lemma poller_truthy_loop n : keeps_token_truthy (Poller.poll_loop E JSON_parse cfg n).
Proof.
  induction n as [|n IH]; simpl.
  - apply keeps_truthy. apply keeps_fuel.
  - apply truthy_bind; [apply poller_truthy_iteration|intros; exact IH].
Qed.

Lemma index_truthy_loop n : keeps_token_truthy (IndexJs.poll_loop E JSON_parse cfg n).
Proof.
  induction n as [|n IH]; simpl.
  - apply keeps_truthy. apply keeps_fuel.
  - apply truthy_bind; [apply index_truthy_iteration|intros; exact IH].
Qed.

Lemma poller_startup_token (st st' : State) :
  Poller.startup E cfg st = (Ret tt, st') -> truthy (token st') = true.
Proof.
  unfold Poller.startup, bind, console_log.
  destruct (getToken E _) as [[t|e|] s1] eqn:Hg; try discriminate.
  intros H. inversion H; subst. simpl. apply (getToken_truthy _ _ _ Hg).
Qed.

Lemma index_startup_token (st st' : State) :
  IndexJs.startup E cfg st = (Ret tt, st') -> truthy (token st') = true.
Proof.
  unfold IndexJs.startup, bind, console_log, seen_new.
  destruct (getToken E _) as [[t|e|] s1] eqn:Hg; try discriminate.
  intros H. inversion H; subst. simpl. apply (getToken_truthy _ _ _ Hg).
Qed.

End TokenInvariant.

(** X13.  [run] never holds an unusable token: when the start-up completes
    the token is truthy (so it is neither [undefined] nor [null] nor the
    empty string), and from then on every number of turns of the loop ends in
    a state whose token is truthy: a refresh either stores what [getToken]
    returned, which is truthy, or stores nothing. *)
Theorem token_is_always_usable (E : Env)
    (JSON_parse : jsstring -> value + JsError) (cfg : Config) (n : nat)
    (st st' : State) :
  Poller.startup E cfg st = (Ret tt, st') \/
  IndexJs.startup E cfg st = (Ret tt, st') ->
  truthy (token st') = true /\
  truthy (token (snd (Poller.poll_loop E JSON_parse cfg n st'))) = true /\
  truthy (token (snd (IndexJs.poll_loop E JSON_parse cfg n st'))) = true /\
  token st' <> VUndefined /\ token st' <> VNull /\ token st' <> VStr [].
Proof.
  intros H.
  assert (Ht : truthy (token st') = true).
  { destruct H as [H|H];
      [apply (poller_startup_token E cfg st st' H)
      |apply (index_startup_token E cfg st st' H)]. }
  split; [exact Ht|].
  split; [apply poller_truthy_loop; exact Ht|].
  split; [apply index_truthy_loop; exact Ht|].
  repeat split; intros Hs; rewrite Hs in Ht; discriminate Ht.
Qed.

Lemma token_is_always_usable_witness :
  (Poller.startup env_unauthorized cfg0 st0
   = (Ret tt, after_startup env_unauthorized st0) \/
   IndexJs.startup env_unauthorized cfg0 st0
   = (Ret tt, after_startup env_unauthorized st0)) /\
  truthy (token (after_startup env_unauthorized st0)) = true /\
  truthy (token (snd (Poller.poll_loop env_unauthorized MiniJson.parse cfg0 1
                        (after_startup env_unauthorized st0)))) = true.
Proof.
  assert (H : Poller.startup env_unauthorized cfg0 st0
              = (Ret tt, after_startup env_unauthorized st0) \/
              IndexJs.startup env_unauthorized cfg0 st0
              = (Ret tt, after_startup env_unauthorized st0))
    by (left; reflexivity).
  split; [exact H|].
  pose proof (token_is_always_usable env_unauthorized MiniJson.parse cfg0 1 st0
                (after_startup env_unauthorized st0) H) as (H1 & H2 & _).
  split; [exact H1|exact H2].
Defined.

(* ===================================================================== *)
(** * How the process ends, and when it does not *)
(* ===================================================================== *)

Section ProcessFate.

Variable E : Env.
Variable JSON_parse : jsstring -> value + JsError.
Variable cfg : Config.

Lemma index_total_process_item t : total (IndexJs.process_item E JSON_parse cfg t).
Proof.
  unfold IndexJs.process_item, IndexJs.process_new.
  pose proof index_total_get_strict. pose proof index_total_pretty.
  pose proof (index_total_fetch_detail E JSON_parse cfg).
  total_steps.
Qed.

Lemma index_total_poll_once : total (IndexJs.poll_once E JSON_parse cfg).
Proof.
  unfold IndexJs.poll_once, IndexJs.list_and_process.
  pose proof (total_refresh E). pose proof (index_total_list E JSON_parse).
  pose proof (fun items => total_for_of items _ index_total_process_item).
  total_steps.
Qed.

Lemma index_total_iteration : total (IndexJs.iteration E JSON_parse cfg).
Proof.
  unfold IndexJs.iteration.
  pose proof index_total_poll_once. pose proof (total_on_poll_error E).
  total_steps.
Qed.

Lemma index_iteration_safe :
  (forall k, exists r, idp E k = inl r /\ truthy (get r "accessToken") = true) ->
  safe (IndexJs.iteration E JSON_parse cfg).
Proof.
  intros Hidp st.
  destruct (IndexJs.iteration E JSON_parse cfg st) as [[[]|e|] st'] eqn:Hit.
  - exists tt. reflexivity.
  - destruct (index_iteration_throws E JSON_parse cfg _ _ _ Hit)
      as (err & s1 & _ & _ & Hg).
    destruct (Hidp (n_idp (warned_401 s1))) as (r & Hr & Ht).
    rewrite (getToken_ok E _ r Hr Ht) in Hg. discriminate Hg.
  - pose proof (index_total_iteration st) as Ht.
    rewrite Hit in Ht. elim Ht. reflexivity.
Qed.

Lemma poller_loop_keeps_turning n st :
  (forall k, exists r, idp E k = inl r /\ truthy (get r "accessToken") = true) ->
  fst (Poller.poll_loop E JSON_parse cfg n st) = Fuel.
Proof.
  intros Hidp. revert st. induction n as [|n IH]; intros st; [reflexivity|].
  simpl. unfold bind.
  destruct (poller_iteration_safe E JSON_parse cfg Hidp st) as [[] Ha].
  destruct (Poller.iteration E JSON_parse cfg st) as [o s1]. simpl in Ha. subst o.
  apply IH.
Qed.

Lemma index_loop_keeps_turning n st :
  (forall k, exists r, idp E k = inl r /\ truthy (get r "accessToken") = true) ->
  fst (IndexJs.poll_loop E JSON_parse cfg n st) = Fuel.
Proof.
  intros Hidp. revert st. induction n as [|n IH]; intros st; [reflexivity|].
  simpl. unfold bind.
  destruct (index_iteration_safe Hidp st) as [[] Ha].
  destruct (IndexJs.iteration E JSON_parse cfg st) as [o s1]. simpl in Ha. subst o.
  apply IH.
Qed.

Lemma poller_startup_ok st r :
  idp E (n_idp st) = inl r -> truthy (get r "accessToken") = true ->
  exists st', Poller.startup E cfg st = (Ret tt, st').
Proof.
  intros Hr Ht. unfold Poller.startup, bind, console_log.
  set (s3 := emit _ (emit _ (emit _ st))).
  change (n_idp st) with (n_idp s3) in Hr.
  rewrite (getToken_ok E s3 r Hr Ht). eexists. reflexivity.
Qed.

Lemma index_startup_ok st r :
  idp E (n_idp st) = inl r -> truthy (get r "accessToken") = true ->
  exists st', IndexJs.startup E cfg st = (Ret tt, st').
Proof.
  intros Hr Ht. unfold IndexJs.startup, bind, console_log, seen_new.
  set (s3 := with_seen [] (emit _ (emit _ (emit _ st)))).
  change (n_idp st) with (n_idp s3) in Hr.
  rewrite (getToken_ok E s3 r Hr Ht). eexists. reflexivity.
Qed.

Lemma poller_startup_fails st :
  (forall r, idp E (n_idp st) = inl r -> truthy (get r "accessToken") = false) ->
  exists e st',
    Poller.startup E cfg st = (Throw e, st') /\
    fetches (trace st') = fetches (trace st) /\ n_idp st' = S (n_idp st).
Proof.
  intros Hno. unfold Poller.startup, bind, console_log.
  set (s3 := emit _ (emit _ (emit _ st))).
  assert (Hs : n_idp s3 = n_idp st) by reflexivity.
  assert (Hf : fetches (trace (emit EvAcquire (bump_idp s3))) = fetches (trace st)).
  { subst s3. simpl. rewrite !fetches_app. simpl. rewrite !app_nil_r. reflexivity. }
  destruct (idp E (n_idp s3)) as [r|e] eqn:Hi.
  - rewrite (getToken_no_token E s3 r Hi); [|apply Hno; rewrite <- Hs; exact Hi].
    eexists _, _. split; [reflexivity|]. split; [exact Hf|simpl; lia].
  - rewrite (getToken_rejected E s3 e Hi).
    eexists _, _. split; [reflexivity|]. split; [exact Hf|simpl; lia].
Qed.

Lemma index_startup_fails st :
  (forall r, idp E (n_idp st) = inl r -> truthy (get r "accessToken") = false) ->
  exists e st',
    IndexJs.startup E cfg st = (Throw e, st') /\
    fetches (trace st') = fetches (trace st) /\ n_idp st' = S (n_idp st).
Proof.
  intros Hno. unfold IndexJs.startup, bind, console_log, seen_new.
  set (s3 := with_seen [] (emit _ (emit _ (emit _ st)))).
  assert (Hs : n_idp s3 = n_idp st) by reflexivity.
  assert (Hf : fetches (trace (emit EvAcquire (bump_idp s3))) = fetches (trace st)).
  { subst s3. simpl. rewrite !fetches_app. simpl. rewrite !app_nil_r. reflexivity. }
  destruct (idp E (n_idp s3)) as [r|e] eqn:Hi.
  - rewrite (getToken_no_token E s3 r Hi); [|apply Hno; rewrite <- Hs; exact Hi].
    eexists _, _. split; [reflexivity|]. split; [exact Hf|simpl; lia].
  - rewrite (getToken_rejected E s3 e Hi).
    eexists _, _. split; [reflexivity|]. split; [exact Hf|simpl; lia].
Qed.

End ProcessFate.

(** X14.  Two things end the process before the loop starts, with exit code
    1 and without a single request: a missing setting (tenant, client,
    secret or meeting id absent or empty), in which case not even the
    identity provider is asked; and a first token acquisition that is
    rejected or yields no access token, after exactly one attempt. *)
Theorem fatal_before_the_loop (E : Env)
    (JSON_parse : jsstring -> value + JsError) (cfg : Config) (n : nat)
    (st : State) :
  let p := Poller.main E JSON_parse cfg n st in
  let q := IndexJs.main E JSON_parse cfg n st in
  (missing_env cfg = true ->
     fst p = Exited 1 /\ fst q = Exited 1 /\
     fetches (trace (snd p)) = fetches (trace st) /\
     fetches (trace (snd q)) = fetches (trace st) /\
     n_idp (snd p) = n_idp st /\ n_idp (snd q) = n_idp st) /\
  (missing_env cfg = false ->
     (forall r, idp E (n_idp st) = inl r -> truthy (get r "accessToken") = false) ->
     fst p = Exited 1 /\ fst q = Exited 1 /\
     fetches (trace (snd p)) = fetches (trace st) /\
     fetches (trace (snd q)) = fetches (trace st) /\
     n_idp (snd p) = S (n_idp st) /\ n_idp (snd q) = S (n_idp st)).
Proof.
  cbv zeta. split.
  - intros Hm. unfold Poller.main, IndexJs.main. rewrite Hm. simpl.
    rewrite fetches_app. simpl. rewrite app_nil_r. repeat split.
  - intros Hm Hno. unfold Poller.main, IndexJs.main. rewrite Hm.
    unfold Poller.run, IndexJs.run, bind.
    destruct (poller_startup_fails E cfg st Hno) as (e1 & s1 & P1 & P2 & P3).
    destruct (index_startup_fails E cfg st Hno) as (e2 & s2 & Q1 & Q2 & Q3).
    rewrite P1, Q1. simpl. rewrite !fetches_app. simpl. rewrite !app_nil_r.
    repeat split; assumption.
Qed.

Lemma fatal_before_the_loop_witness :
  missing_env (mkConfig (js "tenant") (js "client") [] (js "m1") (js "2000") (js "0"))
  = true /\
  fst (Poller.main env_token_ok MiniJson.parse
         (mkConfig (js "tenant") (js "client") [] (js "m1") (js "2000") (js "0"))
         3 st0) = Exited 1 /\
  missing_env cfg0 = false /\
  (forall r, idp env_throttling (n_idp st0) = inl r ->
             truthy (get r "accessToken") = false) /\
  fst (Poller.main env_throttling MiniJson.parse cfg0 3 st0) = Exited 1.
Proof.
  assert (Hno : forall r, idp env_throttling (n_idp st0) = inl r ->
                          truthy (get r "accessToken") = false).
  { intros r Hr. inversion Hr. reflexivity. }
  split; [reflexivity|]. split.
  - exact (proj1 (proj1 (fatal_before_the_loop env_token_ok MiniJson.parse
                           (mkConfig (js "tenant") (js "client") [] (js "m1")
                                     (js "2000") (js "0")) 3 st0) eq_refl)).
  - split; [reflexivity|]. split; [exact Hno|].
    exact (proj1 (proj2 (fatal_before_the_loop env_throttling MiniJson.parse cfg0
                           3 st0) eq_refl Hno)).
Defined.

(** X15.  With complete settings and an identity provider that hands out a
    token whenever it is asked, nothing ends the process: after any number
    of turns the loop is still running, whatever the network answers
    (failures, throttling, malformed or empty bodies, rejected requests). *)
Theorem process_keeps_running (E : Env)
    (JSON_parse : jsstring -> value + JsError) (cfg : Config) (n : nat)
    (st : State) :
  missing_env cfg = false ->
  (forall k, exists r, idp E k = inl r /\ truthy (get r "accessToken") = true) ->
  fst (Poller.main E JSON_parse cfg n st) = Running /\
  fst (IndexJs.main E JSON_parse cfg n st) = Running.
Proof.
  intros Hm Hidp. unfold Poller.main, IndexJs.main. rewrite Hm.
  unfold Poller.run, IndexJs.run, bind.
  destruct (Hidp (n_idp st)) as (r & Hr & Ht).
  destruct (poller_startup_ok E cfg st r Hr Ht) as [s1 P1].
  destruct (index_startup_ok E cfg st r Hr Ht) as [s2 Q1].
  rewrite P1, Q1.
  pose proof (poller_loop_keeps_turning E JSON_parse cfg n s1 Hidp) as P2.
  pose proof (index_loop_keeps_turning E JSON_parse cfg n s2 Hidp) as Q2.
  destruct (Poller.poll_loop E JSON_parse cfg n s1) as [o1 s1'].
  destruct (IndexJs.poll_loop E JSON_parse cfg n s2) as [o2 s2'].
  simpl in P2, Q2. subst o1 o2. split; reflexivity.
Qed.

Lemma process_keeps_running_witness :
  missing_env cfg0 = false /\
  (forall k, exists r,
      idp env_detail_fails k = inl r /\ truthy (get r "accessToken") = true) /\
  fst (Poller.main env_detail_fails MiniJson.parse cfg0 4 st0) = Running /\
  fst (IndexJs.main env_detail_fails MiniJson.parse cfg0 4 st0) = Running.
Proof.
  assert (H : forall k, exists r,
             idp env_detail_fails k = inl r /\ truthy (get r "accessToken") = true).
  { intros k. exists (token_reply "t0"). split; reflexivity. }
  split; [reflexivity|]. split; [exact H|].
  exact (process_keeps_running env_detail_fails MiniJson.parse cfg0 4 st0 eq_refl H).
Defined.

(* ===================================================================== *)
(** * A pass over the list that ran to its end *)
(* ===================================================================== *)

Section Pass.

Variable E : Env.
Variable JSON_parse : jsstring -> value + JsError.
Variable cfg : Config.

Lemma poller_item_marks t st :
  truthy (item_id t) = true -> primitive (item_id t) = true ->
  has (item_id t) (seen (snd (Poller.process_item E JSON_parse cfg t st))) = true.
Proof.
  intros Ht Hp. destruct (has (item_id t) (seen st)) eqn:Hs.
  - rewrite (poller_item_seen E JSON_parse cfg t st Hs). exact Hs.
  - rewrite (poller_item_new E JSON_parse cfg t st Ht Hs).
    apply (poller_mono_process_new E JSON_parse cfg t (item_id t)).
    apply has_appended. exact Hp.
Qed.

Lemma index_item_marks t st :
  truthy (item_id t) = true -> primitive (item_id t) = true ->
  has (item_id t) (seen (snd (IndexJs.process_item E JSON_parse cfg t st))) = true.
Proof.
  intros Ht Hp. destruct (has (item_id t) (seen st)) eqn:Hs.
  - apply (index_mono_process_item E JSON_parse cfg t). exact Hs.
  - rewrite (index_item_new E JSON_parse cfg t st Ht Hs).
    apply (index_mono_process_new E JSON_parse cfg t (item_id t)).
    apply has_appended. exact Hp.
Qed.

Lemma for_of_marks (body : value -> M unit) items :
  (forall t, mono (body t)) ->
  (forall t st, truthy (item_id t) = true -> primitive (item_id t) = true ->
                has (item_id t) (seen (snd (body t st))) = true) ->
  forall st st', for_of items body st = (Ret tt, st') ->
  forall t, In t items -> truthy (item_id t) = true ->
            primitive (item_id t) = true ->
            has (item_id t) (seen st') = true.
Proof.
  intros Hm Hb. induction items as [|t0 items IH]; intros st st' Hrun t Hin Ht Hp.
  - destruct Hin.
  - simpl in Hrun. unfold bind in Hrun.
    pose proof (Hb t0 st) as Hb0.
    destruct (body t0 st) as [[[]|e|] s1] eqn:H0; try discriminate Hrun.
    destruct Hin as [<-|Hin].
    + pose proof (mono_for_of items body Hm s1) as [_ Hk].
      rewrite Hrun in Hk. apply Hk. apply Hb0; assumption.
    + apply (IH s1 st' Hrun t Hin Ht Hp).
Qed.

Lemma for_of_noop (body : value -> M unit) items st :
  (forall t, In t items -> body t st = (Ret tt, st)) ->
  for_of items body st = (Ret tt, st).
Proof.
  induction items as [|t items IH]; intros H; [reflexivity|].
  simpl. unfold bind. rewrite (H t (or_introl eq_refl)).
  apply IH. intros t' Ht'. apply H. right. exact Ht'.
Qed.

End Pass.

(** X16.  A pass of the [for] over the listed items that ran to its end
    leaves every usable identifier (truthy, and a string, number or boolean)
    in the seen-set, and a further pass over the same items from that state
    does nothing at all, whatever the network would answer: no mark, no
    output, no request.  A pass may be ended early: in the revision with the
    tolerant decoder by a failing detail fetch, in both by a summary that
    cannot be printed; the statement covers the passes that were not.  In
    the revision with the inner [try]/[catch], a pass over items none of
    which is [null] or [undefined] and whose summaries can be printed (every
    value the printer converts to a string does convert) always runs to its
    end, whatever the detail fetches do. *)
Theorem completed_pass_is_not_repeated (E E' : Env)
    (JSON_parse : jsstring -> value + JsError) (cfg : Config)
    (items : list value) (st : State) :
  (forall t, In t items -> primitive (item_id t) = true) ->
  (forall st',
     for_of items (Poller.process_item E JSON_parse cfg) st = (Ret tt, st') ->
     (forall t, In t items -> truthy (item_id t) = true ->
                has (item_id t) (seen st') = true) /\
     for_of items (Poller.process_item E' JSON_parse cfg) st' = (Ret tt, st')) /\
  ((forall t, In t items -> nullish t = false) ->
   (forall st',
      for_of items (IndexJs.process_item E JSON_parse cfg) st = (Ret tt, st') ->
      (forall t, In t items -> truthy (item_id t) = true ->
                 has (item_id t) (seen st') = true) /\
      for_of items (IndexJs.process_item E' JSON_parse cfg) st' = (Ret tt, st')) /\
   ((forall t, In t items -> truthy (item_id t) = true ->
               printable_with (IndexJs.pp_text t) t = true) ->
    exists st',
      for_of items (IndexJs.process_item E JSON_parse cfg) st = (Ret tt, st'))).
Proof.
  intros Hp. split.
  - intros st' Hrun.
    assert (Hmark : forall t, In t items -> truthy (item_id t) = true ->
                              has (item_id t) (seen st') = true).
    { intros t Hin Ht.
      apply (for_of_marks (Poller.process_item E JSON_parse cfg) items
               (poller_mono_process_item E JSON_parse cfg)
               (poller_item_marks E JSON_parse cfg) st st' Hrun t Hin Ht (Hp t Hin)). }
    split; [exact Hmark|].
    apply for_of_noop. intros t Hin.
    destruct (truthy (item_id t)) eqn:Ht.
    + apply poller_item_seen. apply Hmark; assumption.
    + apply poller_skip_unusable. exact Ht.
  - intros Hn. split.
    + intros st' Hrun.
      assert (Hmark : forall t, In t items -> truthy (item_id t) = true ->
                                has (item_id t) (seen st') = true).
      { intros t Hin Ht.
        apply (for_of_marks (IndexJs.process_item E JSON_parse cfg) items
                 (index_mono_process_item E JSON_parse cfg)
                 (index_item_marks E JSON_parse cfg) st st' Hrun t Hin Ht
                 (Hp t Hin)). }
      split; [exact Hmark|].
      apply for_of_noop. intros t Hin.
      destruct (truthy (item_id t)) eqn:Ht.
      * apply index_item_seen; [apply Hn; exact Hin|apply Hmark; assumption].
      * apply index_skip_unusable; [apply Hn; exact Hin|exact Ht].
    + intros Hpr.
      destruct (index_detail_errors_isolated E JSON_parse cfg items Hn Hpr st)
        as [[] Hr].
      destruct (for_of items (IndexJs.process_item E JSON_parse cfg) st)
        as [o st'] eqn:Hrun.
      simpl in Hr. subst o. exists st'. reflexivity.
Qed.

Lemma completed_pass_is_not_repeated_witness :
  (forall t, In t [VObj [(js "id", VStr (js "a"))]; VObj [(js "text", VStr (js "x"))];
                   VObj [(js "transcriptId", VNum 7)]] ->
             primitive (item_id t) = true) /\
  (forall t, In t [VObj [(js "id", VStr (js "a"))]; VObj [(js "text", VStr (js "x"))];
                   VObj [(js "transcriptId", VNum 7)]] ->
             nullish t = false) /\
  (forall t, In t [VObj [(js "id", VStr (js "a"))]; VObj [(js "text", VStr (js "x"))];
                   VObj [(js "transcriptId", VNum 7)]] ->
             truthy (item_id t) = true ->
             printable_with (IndexJs.pp_text t) t = true) /\
  exists st',
    for_of [VObj [(js "id", VStr (js "a"))]; VObj [(js "text", VStr (js "x"))];
            VObj [(js "transcriptId", VNum 7)]]
           (IndexJs.process_item env_detail_fails MiniJson.parse cfg0)
           (after_startup env_detail_fails st0) = (Ret tt, st') /\
    (forall t, In t [VObj [(js "id", VStr (js "a"))]; VObj [(js "text", VStr (js "x"))];
                     VObj [(js "transcriptId", VNum 7)]] ->
               truthy (item_id t) = true -> has (item_id t) (seen st') = true) /\
    for_of [VObj [(js "id", VStr (js "a"))]; VObj [(js "text", VStr (js "x"))];
            VObj [(js "transcriptId", VNum 7)]]
           (IndexJs.process_item env_one_fragment MiniJson.parse cfg0) st'
    = (Ret tt, st').
Proof.
  assert (Hp : forall t,
             In t [VObj [(js "id", VStr (js "a"))]; VObj [(js "text", VStr (js "x"))];
                   VObj [(js "transcriptId", VNum 7)]] ->
             primitive (item_id t) = true).
  { intros t [<-|[<-|[<-|[]]]]; reflexivity. }
  assert (Hn : forall t,
             In t [VObj [(js "id", VStr (js "a"))]; VObj [(js "text", VStr (js "x"))];
                   VObj [(js "transcriptId", VNum 7)]] ->
             nullish t = false).
  { intros t [<-|[<-|[<-|[]]]]; reflexivity. }
  assert (Hpr : forall t,
             In t [VObj [(js "id", VStr (js "a"))]; VObj [(js "text", VStr (js "x"))];
                   VObj [(js "transcriptId", VNum 7)]] ->
             truthy (item_id t) = true ->
             printable_with (IndexJs.pp_text t) t = true).
  { intros t [<-|[<-|[<-|[]]]] _; reflexivity. }
  split; [exact Hp|]. split; [exact Hn|]. split; [exact Hpr|].
  destruct (proj2 (completed_pass_is_not_repeated env_detail_fails env_one_fragment
                     MiniJson.parse cfg0 _ (after_startup env_detail_fails st0) Hp)
              Hn) as [Hdone Hends].
  destruct (Hends Hpr) as [st' Hrun].
  exists st'. split; [exact Hrun|]. exact (Hdone st' Hrun).
Defined.
